(** * Run orchestrator of the chat gateway: status updates, session reset,
      final payload assembly and Telegram delivery

    A shallow embedding of

      - [auto-reply/reply/status-updates.ts]  (the StatusUpdateController),
      - [auto-reply/reply/status-updates-integration.ts],
      - [auto-reply/reply/agent-runner.ts]    (runReplyAgent, resetSession),
      - [telegram/sent-message-cache.ts] and [telegram/bot/delivery.ts]

    with the properties the specification states about them; further on,
    [telegram/outbound-status.ts], [deleteStatusMessage], the Slack actions
    it relies on and the hints for sensitive configuration fields, with
    properties read off the code.

    Conventions of the embedding.
      - A JavaScript string is the list of its UTF-16 code units.
      - JavaScript numbers that the code only uses as integers (timestamps
        in milliseconds, whole seconds, message ids) are [Z].
      - [Date.now()], [crypto.randomUUID()] and the answers of external
        collaborators (callbacks, bot API, file system, session store
        persistence) are inputs of the operation that consumes them.
      - An asynchronous method runs to its first [await] and is parked
        there; it goes on when the promise it waits for settles, and other
        calls may run in between. The controller's methods are given in
        these pieces ([...Begin], [resume]). The form that takes the
        outcome of the awaited callback as an argument ([sendUpdate],
        [start], [setPhase], [complete], [cleanup]) is the call awaited by
        its caller with nothing else running in between. The outbound
        calls a step makes are collected, in order, in an effect log. *)

From Stdlib Require Import ZArith NArith List String Ascii Bool Lia DecimalString.
From stdpp Require Import base option list gmap strings.

Local Open Scope Z_scope.

(* ===================================================================== *)
(** * JavaScript strings *)
(* ===================================================================== *)

Module JS.

(** UTF-16 code units. *)
Abbreviation jsstring := (list N).

(** An ASCII literal as a JavaScript string. *)
Definition lit (s : string) : jsstring :=
  N_of_ascii <$> list_ascii_of_string s.

(** ECMAScript WhiteSpace and LineTerminator code points, the characters
    [String.prototype.trimEnd] strips. *)
Definition isWhiteSpace (c : N) : bool :=
  ((9 <=? c) && (c <=? 13) || (c =? 32) || (c =? 160) || (c =? 5760)
   || (8192 <=? c) && (c <=? 8202) || (c =? 8232) || (c =? 8233)
   || (c =? 8239) || (c =? 8287) || (c =? 12288) || (c =? 65279))%N.

(** [s.trimEnd()] *)
Fixpoint trimEnd (s : jsstring) : jsstring :=
  match s with
  | [] => []
  | c :: r =>
      match trimEnd r with
      | [] => if isWhiteSpace c then [] else [c]
      | r' => c :: r'
      end
  end.

(** [s.endsWith(search)] *)
Definition endsWith (s search : jsstring) : bool :=
  (length search <=? length s)%nat
  && bool_decide (drop (length s - length search)%nat s = search).

(** Truthiness of a possibly-undefined string: defined and not empty. *)
Definition truthy (o : option jsstring) : bool :=
  match o with
  | Some (_ :: _) => true
  | _ => false
  end.

(** [n.toString()] for an integral number. *)
Definition numToString (z : Z) : jsstring :=
  lit (NilZero.string_of_int (Z.to_int z)).

(** [s.padStart(targetLength, c)] for a one-character filler. *)
Definition padStart (targetLength : nat) (c : N) (s : jsstring) : jsstring :=
  replicate (targetLength - length s)%nat c ++ s.

(** [parts.join(sep)] *)
Fixpoint join (sep : jsstring) (parts : list jsstring) : jsstring :=
  match parts with
  | [] => []
  | [p] => p
  | p :: rest => p ++ sep ++ join sep rest
  end.

(** [a || b] on strings: [a] unless it is empty. *)
Definition orElse (a b : jsstring) : jsstring :=
  match a with
  | [] => b
  | _ => a
  end.

(** The decimal digit [d] (0 to 9) as a code unit. *)
Definition digit (d : Z) : N := (48 + Z.to_N d)%N.

End JS.

Import JS.

(* ===================================================================== *)
(** * Programs with state and an effect log *)
(* ===================================================================== *)

(** A step of the program: it reads and writes a state of type [S], logs the
    outbound calls it makes (type [E]) and yields an [A]. *)
Definition Prog (S E A : Type) : Type := S -> A * S * list E.

Definition ret {S E A} (a : A) : Prog S E A := fun s => (a, s, []).

Definition bind {S E A B} (m : Prog S E A) (k : A -> Prog S E B) : Prog S E B :=
  fun s =>
    let '(a, s1, l1) := m s in
    let '(b, s2, l2) := k a s1 in
    (b, s2, l1 ++ l2).

Definition get {S E} : Prog S E S := fun s => (s, s, []).
Definition modify {S E} (f : S -> S) : Prog S E unit := fun s => (tt, f s, []).
Definition emit {S E} (e : E) : Prog S E unit := fun s => (tt, s, [e]).

Declare Scope prog_scope.
Delimit Scope prog_scope with prog.
Notation "'let*' x ':=' m 'in' k" := (bind m (fun x => k))
  (at level 10, x name, m at level 100, k at level 200, only parsing) : prog_scope.
Notation "m ';;;' k" := (bind m (fun _ => k))
  (at level 100, k at level 200, right associativity, only parsing) : prog_scope.

Definition result_of {S A E} (r : A * S * list E) : A := r.1.1.
Definition state_of {S A E} (r : A * S * list E) : S := r.1.2.
Definition effects_of {S A E} (r : A * S * list E) : list E := r.2.

(** What an awaited callback did: it resolved (with an optional string, the
    message id for a send) or it rejected. *)
Inductive Awaited : Type :=
  | Resolved (r : option jsstring)
  | Rejected.

(* ===================================================================== *)
(** * status-updates.ts *)
(* ===================================================================== *)

Module StatusPhase.
Inductive t : Type :=
  | sending_query
  | receiving_reasoning
  | processing_tools
  | generating_response
  | complete.

#[global] Instance eq_dec : EqDecision t.
Proof. solve_decision. Defined.
End StatusPhase.

Abbreviation StatusPhase := StatusPhase.t.

Inductive StatusUpdateMode : Type := mode_off | mode_edit | mode_inline.

#[global] Instance StatusUpdateMode_eq_dec : EqDecision StatusUpdateMode.
Proof. solve_decision. Defined.

(** [StatusUpdateConfig]: every field is optional; [None] is an absent key.
    (Configs are parsed JSON, so a key that is present holds a value.) *)
Record StatusUpdateConfig : Type := {
  cfg_enabled : option bool;
  cfg_mode : option StatusUpdateMode;
  cfg_updateIntervalMs : option Z;
  cfg_showPhases : option bool;
  cfg_showElapsedTime : option bool;
  cfg_markFinalWithCheckmark : option bool;
  cfg_elapsedTimeThresholdMs : option Z;
}.

(** [Required<StatusUpdateConfig>] *)
Record ResolvedConfig : Type := {
  enabled : bool;
  mode : StatusUpdateMode;
  updateIntervalMs : Z;
  showPhases : bool;
  showElapsedTime : bool;
  markFinalWithCheckmark : bool;
  elapsedTimeThresholdMs : Z;
}.

Definition DEFAULT_CONFIG : ResolvedConfig := {|
  enabled := false;
  mode := mode_edit;
  updateIntervalMs := 5000;
  showPhases := true;
  showElapsedTime := true;
  markFinalWithCheckmark := true;
  elapsedTimeThresholdMs := 3000;
|}.

(** The empty object [{}]. *)
Definition emptyConfig : StatusUpdateConfig :=
  {| cfg_enabled := None; cfg_mode := None; cfg_updateIntervalMs := None;
     cfg_showPhases := None; cfg_showElapsedTime := None;
     cfg_markFinalWithCheckmark := None; cfg_elapsedTimeThresholdMs := None |}.

Definition PHASE_MESSAGES (p : StatusPhase) : jsstring :=
  match p with
  | StatusPhase.sending_query => lit "Sending query to AI model"
  | StatusPhase.receiving_reasoning => lit "Processing reasoning data"
  | StatusPhase.processing_tools => lit "Executing tools"
  | StatusPhase.generating_response => lit "Generating response"
  | StatusPhase.complete => lit "Complete"
  end.

(** The emoji, as UTF-16: hourglass U+23F3, brain U+1F9E0, wrench U+1F527,
    writing hand U+270D U+FE0F, check mark U+2705. *)
Definition PHASE_EMOJI (p : StatusPhase) : jsstring :=
  match p with
  | StatusPhase.sending_query => [0x23F3]
  | StatusPhase.receiving_reasoning => [0xD83E; 0xDDE0]
  | StatusPhase.processing_tools => [0xD83D; 0xDD27]
  | StatusPhase.generating_response => [0x270D; 0xFE0F]
  | StatusPhase.complete => [0x2705]
  end%N.

(** [{ ...DEFAULT_CONFIG, ...config }] *)
Definition resolveStatusUpdateConfig (config : option StatusUpdateConfig) : ResolvedConfig :=
  match config with
  | None => DEFAULT_CONFIG
  | Some c =>
      {| enabled := default (enabled DEFAULT_CONFIG) (cfg_enabled c);
         mode := default (mode DEFAULT_CONFIG) (cfg_mode c);
         updateIntervalMs := default (updateIntervalMs DEFAULT_CONFIG) (cfg_updateIntervalMs c);
         showPhases := default (showPhases DEFAULT_CONFIG) (cfg_showPhases c);
         showElapsedTime := default (showElapsedTime DEFAULT_CONFIG) (cfg_showElapsedTime c);
         markFinalWithCheckmark :=
           default (markFinalWithCheckmark DEFAULT_CONFIG) (cfg_markFinalWithCheckmark c);
         elapsedTimeThresholdMs :=
           default (elapsedTimeThresholdMs DEFAULT_CONFIG) (cfg_elapsedTimeThresholdMs c) |}
  end.

(** [Math.floor(seconds / 60)] is [Z.div]; [seconds % 60] takes the sign of
    the dividend, which is [Z.rem]. *)
Definition formatElapsedTime (seconds : Z) : jsstring :=
  let minutes := seconds / 60 in
  let remainingSeconds := Z.rem seconds 60 in
  let paddedSeconds := padStart 2 48%N (numToString remainingSeconds) in
  numToString minutes ++ lit ":" ++ paddedSeconds.

Definition formatStatusMessage
    (phase : StatusPhase) (elapsedSeconds : Z) (config : ResolvedConfig) : jsstring :=
  let parts : list jsstring := [] in
  let parts :=
    if showPhases config
    then parts ++ [PHASE_EMOJI phase ++ lit " " ++ PHASE_MESSAGES phase]
    else parts in
  let parts :=
    if showElapsedTime config && (elapsedTimeThresholdMs config <=? elapsedSeconds * 1000)
    then parts ++ [lit "(" ++ formatElapsedTime elapsedSeconds ++ lit ")"]
    else parts in
  orElse (join (lit " ") parts) (lit "Processing...").

(** [StatusUpdateCallbacks]: [sendStatus] is mandatory, the others optional.
    [supportsEdit] is a constant function in every implementation
    ([createEditableStatusCallbacks], [createInlineStatusCallbacks],
    [noopStatusCallbacks], the agent runner), so it is kept as its value. *)
Record StatusUpdateCallbacks : Type := {
  cb_supportsEdit : option bool;
  cb_hasEditFinal : bool;
  cb_hasDeleteStatus : bool;
}.

Record StatusUpdateState : Type := {
  phase : StatusPhase;
  startedAt : Z;
  statusMessageId : option jsstring;
  lastUpdateAt : Z;
  elapsedSeconds : Z;
  isComplete : bool;
}.

(** The callbacks the controller invokes, and the line it logs when one of
    them throws. *)
Inductive StatusEffect : Type :=
  | SendStatus (text : jsstring) (messageId : option jsstring)
  | DeleteStatus (messageId : jsstring)
  | LogSendFailed
  | LogDeleteFailed
  | LogCleanupFailed.

Module StatusUpdateController.

(** The private fields of the class. [updateTimer] is [true] while the
    interval is armed ([null] otherwise). *)
Record t : Type := {
  config : ResolvedConfig;
  callbacks : StatusUpdateCallbacks;
  state : StatusUpdateState;
  updateTimer : bool;
  stopped : bool;
  editedInPlace : bool;
}.

Definition M (A : Type) : Type := Prog t StatusEffect A.

Definition set_state (f : StatusUpdateState -> StatusUpdateState) (c : t) : t :=
  {| config := config c; callbacks := callbacks c; state := f (state c);
     updateTimer := updateTimer c; stopped := stopped c;
     editedInPlace := editedInPlace c |}.

Definition set_updateTimer (b : bool) (c : t) : t :=
  {| config := config c; callbacks := callbacks c; state := state c;
     updateTimer := b; stopped := stopped c; editedInPlace := editedInPlace c |}.

Definition set_stopped (b : bool) (c : t) : t :=
  {| config := config c; callbacks := callbacks c; state := state c;
     updateTimer := updateTimer c; stopped := b; editedInPlace := editedInPlace c |}.

Definition with_phase (p : StatusPhase) (s : StatusUpdateState) : StatusUpdateState :=
  {| phase := p; startedAt := startedAt s; statusMessageId := statusMessageId s;
     lastUpdateAt := lastUpdateAt s; elapsedSeconds := elapsedSeconds s;
     isComplete := isComplete s |}.

Definition with_isComplete (b : bool) (s : StatusUpdateState) : StatusUpdateState :=
  {| phase := phase s; startedAt := startedAt s; statusMessageId := statusMessageId s;
     lastUpdateAt := lastUpdateAt s; elapsedSeconds := elapsedSeconds s;
     isComplete := b |}.

Definition with_elapsedSeconds (e : Z) (s : StatusUpdateState) : StatusUpdateState :=
  {| phase := phase s; startedAt := startedAt s; statusMessageId := statusMessageId s;
     lastUpdateAt := lastUpdateAt s; elapsedSeconds := e;
     isComplete := isComplete s |}.

Definition with_lastUpdateAt (n : Z) (s : StatusUpdateState) : StatusUpdateState :=
  {| phase := phase s; startedAt := startedAt s; statusMessageId := statusMessageId s;
     lastUpdateAt := n; elapsedSeconds := elapsedSeconds s;
     isComplete := isComplete s |}.

Definition with_statusMessageId (i : option jsstring) (s : StatusUpdateState)
    : StatusUpdateState :=
  {| phase := phase s; startedAt := startedAt s; statusMessageId := i;
     lastUpdateAt := lastUpdateAt s; elapsedSeconds := elapsedSeconds s;
     isComplete := isComplete s |}.

(** [constructor(config, callbacks)]; [now] is what [Date.now()] returns. *)
Definition new (now : Z) (cfg : StatusUpdateConfig) (cbs : StatusUpdateCallbacks) : t :=
  {| config := resolveStatusUpdateConfig (Some cfg);
     callbacks := cbs;
     state := {| phase := StatusPhase.sending_query; startedAt := now;
                 statusMessageId := None; lastUpdateAt := now;
                 elapsedSeconds := 0; isComplete := false |};
     updateTimer := false;
     stopped := false;
     editedInPlace := false |}.

Definition isEnabled (c : t) : bool :=
  enabled (config c) && negb (bool_decide (mode (config c) = mode_off)).

Definition wasEditedInPlace (c : t) : bool := editedInPlace c.

Definition getStatusMessageId (c : t) : option jsstring := statusMessageId (state c).

(** [this.callbacks.supportsEdit?.() ?? false] *)
Definition supportsEdit (c : t) : bool := default false (cb_supportsEdit (callbacks c)).

Definition stopUpdateTimer : M unit :=
  (let* c := get in
   if updateTimer c then modify (set_updateTimer false) else ret tt)%prog.

Definition startUpdateTimer : M unit :=
  (let* c := get in
   if updateTimer c then ret tt else modify (set_updateTimer true))%prog.

(** ** The methods, awaited

    [sendUpdate()] run to its end; [resp] is the outcome of the awaited
    [sendStatus]. *)
Definition sendUpdate (now : Z) (resp : Awaited) : M unit :=
  (let* c := get in
   if stopped c then ret tt else
   let elapsed := (now - startedAt (state c)) / 1000 in
   modify (set_state (with_elapsedSeconds elapsed)) ;;;
   modify (set_state (with_lastUpdateAt now)) ;;;
   let text := formatStatusMessage (phase (state c)) elapsed (config c) in
   let id := statusMessageId (state c) in
   emit (SendStatus text id) ;;;
   if bool_decide (mode (config c) = mode_edit) && supportsEdit c && truthy id
   then
     match resp with
     | Resolved r => modify (set_state (with_statusMessageId r))
     | Rejected => emit LogSendFailed
     end
   else
     match resp with
     | Resolved r =>
         if truthy r then modify (set_state (with_statusMessageId r)) else ret tt
     | Rejected => emit LogSendFailed
     end)%prog.

(** The callback handed to [setInterval]; it runs only while the interval
    is armed. *)
Definition timerTick (now : Z) (resp : Awaited) : M unit :=
  (let* c := get in
   if negb (updateTimer c) then ret tt else
   if stopped c || isComplete (state c) then stopUpdateTimer
   else sendUpdate now resp)%prog.


Definition setPhase (now : Z) (resp : Awaited) (p : StatusPhase) : M unit :=
  (let* c := get in
   if negb (isEnabled c) || stopped c || isComplete (state c) then ret tt else
   if bool_decide (p = phase (state c)) then ret tt else
   modify (set_state (with_phase p)) ;;;
   if bool_decide (p = StatusPhase.complete) then
     modify (set_state (with_isComplete true)) ;;;
     stopUpdateTimer
   else
     sendUpdate now resp)%prog.

(** [complete(finalText)]; [resp] is the outcome of the awaited
    [deleteStatus], when it is called. *)
Definition complete (now : Z) (resp : Awaited) (finalText : option jsstring)
    : M (option jsstring) :=
  (let* c := get in
   if stopped c then ret None else
   modify (set_state (with_isComplete true)) ;;;
   stopUpdateTimer ;;;
   modify (set_stopped true) ;;;
   if negb (isEnabled c) then ret finalText else
   if truthy finalText && markFinalWithCheckmark (config c) then
     let elapsed := (now - startedAt (state c)) / 1000 in
     modify (set_state (with_elapsedSeconds elapsed)) ;;;
     let marked :=
       trimEnd (default [] finalText) ++ lit " _(" ++ formatElapsedTime elapsed ++ lit ")_" in
     ret (Some marked)
   else
     match statusMessageId (state c) with
     | Some ((_ :: _) as id) =>
         if cb_hasDeleteStatus (callbacks c) then
           emit (DeleteStatus id) ;;;
           match resp with
           | Resolved _ => ret tt
           | Rejected => emit LogDeleteFailed
           end ;;;
           ret finalText
         else ret finalText
     | _ => ret finalText
     end)%prog.

Definition cleanup (resp : Awaited) : M unit :=
  (stopUpdateTimer ;;;
   modify (set_stopped true) ;;;
   let* c := get in
   match statusMessageId (state c) with
   | Some ((_ :: _) as id) =>
       if negb (isComplete (state c)) && cb_hasDeleteStatus (callbacks c) then
         emit (DeleteStatus id) ;;;
         match resp with
         | Resolved _ => ret tt
         | Rejected => emit LogCleanupFailed
         end
       else ret tt
   | _ => ret tt
   end)%prog.

(** ** The methods, piece by piece

    A call parked at an [await], by what is left of it:
    [sendUpdate] waiting for [sendStatus] (on the branch that edits the
    message or on the other one, called by [start] or by [setPhase] or the
    interval); [start] waiting for its [sendUpdate], which has returned;
    [complete] or [cleanup] waiting for [deleteStatus]. *)
Inductive Suspended : Type :=
  | AwaitSendStatus (editing : bool) (calledByStart : bool)
  | AwaitSendUpdate
  | AwaitDeleteStatus (inCleanup : bool).

(** [sendUpdate()] up to [await this.callbacks.sendStatus(...)]: [None] when
    it returns at once, else the branch it waits on. *)
Definition sendUpdateBegin (now : Z) : M (option bool) :=
  (let* c := get in
   if stopped c then ret None else
   let elapsed := (now - startedAt (state c)) / 1000 in
   modify (set_state (with_elapsedSeconds elapsed)) ;;;
   modify (set_state (with_lastUpdateAt now)) ;;;
   let text := formatStatusMessage (phase (state c)) elapsed (config c) in
   let id := statusMessageId (state c) in
   emit (SendStatus text id) ;;;
   ret (Some (bool_decide (mode (config c) = mode_edit) && supportsEdit c && truthy id)))%prog.

(** The rest of [sendUpdate()], once [sendStatus] has settled. *)
Definition sendUpdateResume (editing : bool) (resp : Awaited) : M unit :=
  if editing then
    match resp with
    | Resolved r => modify (set_state (with_statusMessageId r))
    | Rejected => emit LogSendFailed
    end
  else
    match resp with
    | Resolved r =>
        if truthy r then modify (set_state (with_statusMessageId r)) else ret tt
    | Rejected => emit LogSendFailed
    end.

(** [start()] up to [await this.sendUpdate()]. *)
Definition startBegin (now : Z) : M (option Suspended) :=
  (let* c := get in
   if negb (isEnabled c) || stopped c then ret None else
   let* sent := sendUpdateBegin now in
   ret (Some match sent with
             | Some editing => AwaitSendStatus editing true
             | None => AwaitSendUpdate
             end))%prog.

(** [setPhase(phase)] up to [await this.sendUpdate()]; nothing is left to
    do for [setPhase] itself after it. *)
Definition setPhaseBegin (now : Z) (p : StatusPhase) : M (option Suspended) :=
  (let* c := get in
   if negb (isEnabled c) || stopped c || isComplete (state c) then ret None else
   if bool_decide (p = phase (state c)) then ret None else
   modify (set_state (with_phase p)) ;;;
   if bool_decide (p = StatusPhase.complete) then
     modify (set_state (with_isComplete true)) ;;;
     stopUpdateTimer ;;;
     ret None
   else
     let* sent := sendUpdateBegin now in
     ret ((fun editing => AwaitSendStatus editing false) <$> sent))%prog.

(** The callback handed to [setInterval], up to [await this.sendUpdate()]. *)
Definition timerTickBegin (now : Z) : M (option Suspended) :=
  (let* c := get in
   if negb (updateTimer c) then ret None else
   if stopped c || isComplete (state c) then stopUpdateTimer ;;; ret None
   else
     let* sent := sendUpdateBegin now in
     ret ((fun editing => AwaitSendStatus editing false) <$> sent))%prog.

(** [complete(finalText)] up to [await this.callbacks.deleteStatus(...)],
    with the value the call returns in the end. *)
Definition completeBegin (now : Z) (finalText : option jsstring)
    : M (option jsstring * option Suspended) :=
  (let* c := get in
   if stopped c then ret (None, None) else
   modify (set_state (with_isComplete true)) ;;;
   stopUpdateTimer ;;;
   modify (set_stopped true) ;;;
   if negb (isEnabled c) then ret (finalText, None) else
   if truthy finalText && markFinalWithCheckmark (config c) then
     let elapsed := (now - startedAt (state c)) / 1000 in
     modify (set_state (with_elapsedSeconds elapsed)) ;;;
     let marked :=
       trimEnd (default [] finalText) ++ lit " _(" ++ formatElapsedTime elapsed ++ lit ")_" in
     ret (Some marked, None)
   else
     match statusMessageId (state c) with
     | Some ((_ :: _) as id) =>
         if cb_hasDeleteStatus (callbacks c) then
           emit (DeleteStatus id) ;;;
           ret (finalText, Some (AwaitDeleteStatus false))
         else ret (finalText, None)
     | _ => ret (finalText, None)
     end)%prog.

(** [cleanup()] up to [await this.callbacks.deleteStatus(...)]. *)
Definition cleanupBegin : M (option Suspended) :=
  (stopUpdateTimer ;;;
   modify (set_stopped true) ;;;
   let* c := get in
   match statusMessageId (state c) with
   | Some ((_ :: _) as id) =>
       if negb (isComplete (state c)) && cb_hasDeleteStatus (callbacks c) then
         emit (DeleteStatus id) ;;;
         ret (Some (AwaitDeleteStatus true))
       else ret None
   | _ => ret None
   end)%prog.

(** A parked call goes on: [resp] is how the callback it waits for has
    settled (of no account for [AwaitSendUpdate]). What is returned is the
    next [await] of the call, if it has one: [start] goes on in two steps,
    first the rest of its [sendUpdate], then its own, which arms the
    interval without looking at [stopped] again. *)
Definition resume (k : Suspended) (resp : Awaited) : M (option Suspended) :=
  match k with
  | AwaitSendStatus editing calledByStart =>
      (sendUpdateResume editing resp ;;;
       ret (if calledByStart then Some AwaitSendUpdate else None))%prog
  | AwaitSendUpdate =>
      (let* c := get in
       (if showElapsedTime (config c) then startUpdateTimer else ret tt) ;;;
       ret None)%prog
  | AwaitDeleteStatus inCleanup =>
      (match resp with
       | Resolved _ => ret tt
       | Rejected => emit (if inCleanup then LogCleanupFailed else LogDeleteFailed)
       end ;;;
       ret None)%prog
  end.

(** A parked call run to its end with nothing else in between, every
    callback it waits for settling as [resp]. *)
Definition finish (k : option Suspended) (resp : Awaited) : M unit :=
  match k with
  | None => ret tt
  | Some k =>
      (let* next := resume k resp in
       match next with
       | None => ret tt
       | Some k' => resume k' resp ;;; ret tt
       end)%prog
  end.

(** [await controller.start()], with nothing else running before it
    returns. (No caller awaits it this way: [createStatusUpdateRunContext]
    calls [start()] and goes on, see there.) *)
Definition start (now : Z) (resp : Awaited) : M unit :=
  (let* parked := startBegin now in finish parked resp)%prog.

End StatusUpdateController.

Definition createStatusUpdateController
    (now : Z) (config : StatusUpdateConfig) (callbacks : StatusUpdateCallbacks)
    : StatusUpdateController.t :=
  StatusUpdateController.new now config callbacks.

(** [markResponseComplete(text, config)]; [None] is [undefined]. *)
Definition markResponseComplete
    (text : option jsstring) (config : option StatusUpdateConfig) : option jsstring :=
  match text with
  | None => None
  | Some [] => Some []
  | Some t =>
      let resolved := resolveStatusUpdateConfig config in
      if negb (enabled resolved) || negb (markFinalWithCheckmark resolved) then Some t
      else if endsWith (trimEnd t) [0x2705%N] then Some t
      else Some (trimEnd t ++ lit " " ++ [0x2705%N])
  end.

Definition createEditableStatusCallbacks (hasDeleteMessage : bool) : StatusUpdateCallbacks :=
  {| cb_supportsEdit := Some true; cb_hasEditFinal := true;
     cb_hasDeleteStatus := hasDeleteMessage |}.

Definition createInlineStatusCallbacks : StatusUpdateCallbacks :=
  {| cb_supportsEdit := Some false; cb_hasEditFinal := false;
     cb_hasDeleteStatus := false |}.

(* ===================================================================== *)
(** * status-updates-integration.ts *)
(* ===================================================================== *)

(** The part of [ClawdbotConfig] the status updates read:
    [cfg.agents?.list] and [cfg.agents?.defaults?.statusUpdates]. *)
Record AgentConfig : Type := {
  agent_id : jsstring;
  agent_statusUpdates : option StatusUpdateConfig;
}.

Record ClawdbotConfig : Type := {
  agents_list : option (list AgentConfig);
  agents_defaults_statusUpdates : option StatusUpdateConfig;
}.

Definition resolveStatusUpdateConfigFromConfig
    (cfg : ClawdbotConfig) (agentId : option jsstring) : StatusUpdateConfig :=
  let defaultConfig := default emptyConfig (agents_defaults_statusUpdates cfg) in
  match agentId, agents_list cfg with
  | Some ((_ :: _) as id), Some agents =>
      match List.find (fun a => bool_decide (agent_id a = id)) agents with
      | Some agentCfg =>
          match agent_statusUpdates agentCfg with
          | Some su => su
          | None => defaultConfig
          end
      | None => defaultConfig
      end
  | _, _ => defaultConfig
  end.

(** [createAgentStatusController]: [None] when status updates are disabled. *)
Definition createAgentStatusController
    (now : Z) (cfg : ClawdbotConfig) (agentId : option jsstring)
    (callbacks : StatusUpdateCallbacks) : option StatusUpdateController.t :=
  let config := resolveStatusUpdateConfigFromConfig cfg agentId in
  if negb (default false (cfg_enabled config)) then None
  else Some (createStatusUpdateController now config callbacks).

(** An agent event: [stream] and [data.phase] when that is a string. *)
Record AgentEvent : Type := {
  stream : jsstring;
  data_phase : option jsstring;
}.

Definition mapAgentEventToPhase (event : AgentEvent) : option StatusPhase :=
  let phase := default [] (data_phase event) in
  let eqs (s : jsstring) (l : string) := bool_decide (s = lit l) in
  if eqs (stream event) "lifecycle" && eqs phase "start" then Some StatusPhase.sending_query
  else if eqs (stream event) "lifecycle" && eqs phase "end" then Some StatusPhase.complete
  else if eqs (stream event) "tool" && eqs phase "start" then Some StatusPhase.processing_tools
  else if eqs (stream event) "thinking" || eqs (stream event) "reasoning"
       then Some StatusPhase.receiving_reasoning
  else if eqs (stream event) "message" && eqs phase "start"
       then Some StatusPhase.generating_response
  else None.

Record StatusUpdateRunContext : Type := {
  controller : option StatusUpdateController.t;
  ctx_startedAt : Z;
  currentPhase : StatusPhase;
}.

Definition set_controller (c : option StatusUpdateController.t)
    (ctx : StatusUpdateRunContext) : StatusUpdateRunContext :=
  {| controller := c; ctx_startedAt := ctx_startedAt ctx;
     currentPhase := currentPhase ctx |}.

Definition set_currentPhase (p : StatusPhase)
    (ctx : StatusUpdateRunContext) : StatusUpdateRunContext :=
  {| controller := controller ctx; ctx_startedAt := ctx_startedAt ctx;
     currentPhase := p |}.

(** Run a method on the context's controller; [dflt] when there is none. *)
Definition onController {A} (dflt : A) (m : StatusUpdateController.M A)
    : Prog StatusUpdateRunContext StatusEffect A :=
  fun ctx =>
    match controller ctx with
    | None => (dflt, ctx, [])
    | Some c => let '(a, c', l) := m c in (a, set_controller (Some c') ctx, l)
    end.

(** [createStatusUpdateRunContext]: the controller, when present, is started
    and not awaited ([controller.start().catch(...)]): the call runs to its
    first [await] and the context is returned, with [start] parked there.
    What is returned here is the context, the parked call and the effects
    so far. *)
Definition createStatusUpdateRunContext
    (now : Z) (c : option StatusUpdateController.t)
    : StatusUpdateRunContext * option StatusUpdateController.Suspended * list StatusEffect :=
  let ctx := {| controller := c; ctx_startedAt := now;
                currentPhase := StatusPhase.sending_query |} in
  let r := onController None (StatusUpdateController.startBegin now) ctx in
  (state_of r, result_of r, effects_of r).

(** What [handleAgentEventForStatus] does: the lines it logs, each with the
    values it prints ([log.debug] at lines 153 and 158, [log.info] at line
    163; [phase] is [event.data.phase] when that is a string), and what the
    controller does in [setPhase]. *)
Inductive AgentEventEffect : Type :=
  | LogNoController (stream : jsstring)
  | LogAgentEvent (stream : jsstring) (phase : option jsstring)
      (mappedPhase : option StatusPhase) (currentPhase : StatusPhase)
  | LogPhaseChange (currentPhase : StatusPhase) (phase : StatusPhase)
  | ByController (e : StatusEffect).

(** [handleAgentEventForStatus(ctx, event)] up to
    [await ctx.controller.setPhase(phase)], after which it has nothing left
    to do: what is returned is [setPhase] parked at its [await], if it got
    there. (The listener of the runner does not await the call.) *)
Definition handleAgentEventForStatus (now : Z) (event : AgentEvent)
    : Prog StatusUpdateRunContext AgentEventEffect
        (option StatusUpdateController.Suspended) :=
  (let* ctx := get in
   match controller ctx with
   | None =>
       emit (LogNoController (stream event)) ;;;
       ret None
   | Some c =>
       let phase := mapAgentEventToPhase event in
       emit (LogAgentEvent (stream event) (data_phase event) phase (currentPhase ctx)) ;;;
       match phase with
       | Some phase =>
           if negb (bool_decide (phase = currentPhase ctx)) then
             emit (LogPhaseChange (currentPhase ctx) phase) ;;;
             modify (set_currentPhase phase) ;;;
             fun ctx =>
               let '(parked, c', l) := StatusUpdateController.setPhaseBegin now phase c in
               (parked, set_controller (Some c') ctx, ByController <$> l)
           else ret None
       | None => ret None
       end
   end)%prog.

Definition completeStatusUpdate (now : Z) (resp : Awaited) (finalText : option jsstring)
    : Prog StatusUpdateRunContext StatusEffect (option jsstring) :=
  onController finalText (StatusUpdateController.complete now resp finalText).

Definition cleanupStatusUpdate (resp : Awaited)
    : Prog StatusUpdateRunContext StatusEffect unit :=
  onController tt (StatusUpdateController.cleanup resp).

Definition noopStatusCallbacks : StatusUpdateCallbacks :=
  {| cb_supportsEdit := Some false; cb_hasEditFinal := false;
     cb_hasDeleteStatus := false |}.

(* ===================================================================== *)
(** * agent-runner.ts: data *)
(* ===================================================================== *)

(** The session record ([SessionEntry] of config/sessions). *)
Record SessionEntry : Type := {
  sessionId : jsstring;
  sessionFile : option jsstring;
  updatedAt : Z;
  systemSent : option bool;
  abortedLastRun : option bool;
  groupActivationNeedsSystemIntro : option bool;
  contextTokens : option Z;
  responseUsage : option jsstring;
  compactionCount : option Z;
}.

Definition with_updatedAt (n : Z) (e : SessionEntry) : SessionEntry :=
  {| sessionId := sessionId e; sessionFile := sessionFile e; updatedAt := n;
     systemSent := systemSent e; abortedLastRun := abortedLastRun e;
     groupActivationNeedsSystemIntro := groupActivationNeedsSystemIntro e;
     contextTokens := contextTokens e; responseUsage := responseUsage e;
     compactionCount := compactionCount e |}.

Definition with_groupIntro (b : option bool) (e : SessionEntry) : SessionEntry :=
  {| sessionId := sessionId e; sessionFile := sessionFile e; updatedAt := updatedAt e;
     systemSent := systemSent e; abortedLastRun := abortedLastRun e;
     groupActivationNeedsSystemIntro := b;
     contextTokens := contextTokens e; responseUsage := responseUsage e;
     compactionCount := compactionCount e |}.

(** [ReplyPayload] of auto-reply/types; [None] is an absent field. *)
Record ReplyPayload : Type := {
  text : option jsstring;
  mediaUrl : option jsstring;
  mediaUrls : option (list jsstring);
  replyToId : option jsstring;
  isStatusMessage : option bool;
  audioAsVoice : option bool;
  editMessageId : option jsstring;
}.

(** [{ text }] *)
Definition textPayload (t : jsstring) : ReplyPayload :=
  {| text := Some t; mediaUrl := None; mediaUrls := None; replyToId := None;
     isStatusMessage := None; audioAsVoice := None; editMessageId := None |}.

(** [{ ...p, text: t }] *)
Definition with_text (t : jsstring) (p : ReplyPayload) : ReplyPayload :=
  {| text := Some t; mediaUrl := mediaUrl p; mediaUrls := mediaUrls p;
     replyToId := replyToId p; isStatusMessage := isStatusMessage p;
     audioAsVoice := audioAsVoice p; editMessageId := editMessageId p |}.

(** [followupRun]: the prompt and the two fields of [followupRun.run] that
    the runner writes. *)
Record FollowupRun : Type := {
  prompt : jsstring;
  run_sessionId : jsstring;
  run_sessionFile : option jsstring;
}.

Record QueueSettings : Type := { queue_mode : jsstring }.

(** What [runReplyAgent] resolves to:
    [ReplyPayload | ReplyPayload[] | undefined]. *)
Inductive ReplyResult : Type :=
  | ReplyUndefined
  | ReplyOne (p : ReplyPayload)
  | ReplyMany (ps : list ReplyPayload).

(** Transcript files: the paths that exist, and those whose removal the
    operating system refuses. *)
Record FileSystem : Type := {
  files : gset jsstring;
  undeletable : gset jsstring;
}.

(** [fs.unlinkSync(path)]; [None] when it throws. *)
Definition unlinkSync (path : jsstring) (fs : FileSystem) : option FileSystem :=
  if bool_decide (path ∈ files fs) && negb (bool_decide (path ∈ undeletable fs))
  then Some {| files := files fs ∖ {[path]}; undeletable := undeletable fs |}
  else None.

(** The parameters of [runReplyAgent] that are never reassigned. *)
Record RunParams : Type := {
  commandBody : jsstring;
  queueKey : jsstring;
  resolvedQueue : QueueSettings;
  shouldSteer : bool;
  shouldFollowup : bool;
  isActive : bool;
  isStreaming : bool;
  sessionKey : option jsstring;
  storePath : option jsstring;
  resolvedVerboseLevel : jsstring;
  shouldInjectGroupIntro : bool;
  sessionCtx_MessageThreadId : option jsstring;
  cfg : ClawdbotConfig;
  hasOnBlockReply : bool;
}.

(** What the run reads and writes. Payload arrays live in [arrays] and are
    named by their index there, so that two variables can hold the same
    array. The session entry is held by value: [activeSessionEntry] and the
    slot of the in-memory store are written together wherever the code
    makes them the same object. [durableStore] is the content of the store
    file at [storePath]. [statusStartParked] is the call of
    [controller.start()] that [createStatusUpdateRunContext] has not
    awaited, as long as it is parked at an [await]. *)
Record RunState : Type := {
  activeSessionEntry : option SessionEntry;
  activeSessionStore : option (gmap jsstring SessionEntry);
  activeIsNewSession : bool;
  followupRun : FollowupRun;
  durableStore : gmap jsstring SessionEntry;
  transcripts : FileSystem;
  arrays : list (list ReplyPayload);
  statusUpdateContext : option StatusUpdateRunContext;
  statusStartParked : option StatusUpdateController.Suspended;
}.

Inductive RunnerEffect : Type :=
  | QueueEmbeddedPiMessage (sessionId prompt : jsstring)
  | EnqueueFollowupRun (queueKey : jsstring) (run : FollowupRun) (settings : QueueSettings)
  | UpdateSessionStoreEntry (storePath sessionKey : jsstring) (now : Z)
  | UpdateSessionStoreIntro (storePath sessionKey : jsstring) (now : Z)
  | UpdateSessionStore (storePath sessionKey : jsstring) (entry : SessionEntry)
  | RuntimeError (message : jsstring)
  | UnlinkSync (path : jsstring) (removed : bool)
  | TypingCleanup
  | TypingSignalRunStart
  | TypingMarkRunComplete
  | ScheduleFollowupDrain (queueKey : jsstring)
  | StatusCall (e : StatusEffect).

Abbreviation Run := (Prog RunState RunnerEffect).

Definition set_session (e : option SessionEntry) (store : option (gmap jsstring SessionEntry))
    (st : RunState) : RunState :=
  {| activeSessionEntry := e; activeSessionStore := store;
     activeIsNewSession := activeIsNewSession st; followupRun := followupRun st;
     durableStore := durableStore st; transcripts := transcripts st;
     arrays := arrays st; statusUpdateContext := statusUpdateContext st;
     statusStartParked := statusStartParked st |}.

Definition set_activeSessionEntry (e : option SessionEntry) (st : RunState) : RunState :=
  set_session e (activeSessionStore st) st.

Definition set_activeIsNewSession (b : bool) (st : RunState) : RunState :=
  {| activeSessionEntry := activeSessionEntry st;
     activeSessionStore := activeSessionStore st;
     activeIsNewSession := b; followupRun := followupRun st;
     durableStore := durableStore st; transcripts := transcripts st;
     arrays := arrays st; statusUpdateContext := statusUpdateContext st;
     statusStartParked := statusStartParked st |}.

Definition set_followupRun (f : FollowupRun) (st : RunState) : RunState :=
  {| activeSessionEntry := activeSessionEntry st;
     activeSessionStore := activeSessionStore st;
     activeIsNewSession := activeIsNewSession st; followupRun := f;
     durableStore := durableStore st; transcripts := transcripts st;
     arrays := arrays st; statusUpdateContext := statusUpdateContext st;
     statusStartParked := statusStartParked st |}.

Definition set_durableStore (d : gmap jsstring SessionEntry) (st : RunState) : RunState :=
  {| activeSessionEntry := activeSessionEntry st;
     activeSessionStore := activeSessionStore st;
     activeIsNewSession := activeIsNewSession st; followupRun := followupRun st;
     durableStore := d; transcripts := transcripts st;
     arrays := arrays st; statusUpdateContext := statusUpdateContext st;
     statusStartParked := statusStartParked st |}.

Definition set_transcripts (fs : FileSystem) (st : RunState) : RunState :=
  {| activeSessionEntry := activeSessionEntry st;
     activeSessionStore := activeSessionStore st;
     activeIsNewSession := activeIsNewSession st; followupRun := followupRun st;
     durableStore := durableStore st; transcripts := fs;
     arrays := arrays st; statusUpdateContext := statusUpdateContext st;
     statusStartParked := statusStartParked st |}.

Definition set_arrays (a : list (list ReplyPayload)) (st : RunState) : RunState :=
  {| activeSessionEntry := activeSessionEntry st;
     activeSessionStore := activeSessionStore st;
     activeIsNewSession := activeIsNewSession st; followupRun := followupRun st;
     durableStore := durableStore st; transcripts := transcripts st;
     arrays := a; statusUpdateContext := statusUpdateContext st;
     statusStartParked := statusStartParked st |}.

Definition set_statusUpdateContext (c : option StatusUpdateRunContext) (st : RunState)
    : RunState :=
  {| activeSessionEntry := activeSessionEntry st;
     activeSessionStore := activeSessionStore st;
     activeIsNewSession := activeIsNewSession st; followupRun := followupRun st;
     durableStore := durableStore st; transcripts := transcripts st;
     arrays := arrays st; statusUpdateContext := c;
     statusStartParked := statusStartParked st |}.

Definition set_statusStartParked (k : option StatusUpdateController.Suspended)
    (st : RunState) : RunState :=
  {| activeSessionEntry := activeSessionEntry st;
     activeSessionStore := activeSessionStore st;
     activeIsNewSession := activeIsNewSession st; followupRun := followupRun st;
     durableStore := durableStore st; transcripts := transcripts st;
     arrays := arrays st; statusUpdateContext := statusUpdateContext st;
     statusStartParked := k |}.

(** Arrays: [newArray l] is an array literal, [readArray a] its current
    content, [writeArray a i x] the assignment [a[i] = x] (for [i] within
    bounds, the only use the runner makes of it). *)
Definition newArray (l : list ReplyPayload) : Run nat :=
  fun st => (length (arrays st), set_arrays (arrays st ++ [l]) st, []).

Definition readArray (a : nat) : Run (list ReplyPayload) :=
  fun st => (default [] (arrays st !! a), st, []).

Definition writeArray (a i : nat) (x : ReplyPayload) : Run unit :=
  modify (fun st => set_arrays (alter (fun l => <[i:=x]> l) a (arrays st)) st).

(** Run a program of the status-update context inside the runner. *)
Definition liftStatus {A} (dflt : A) (m : Prog StatusUpdateRunContext StatusEffect A)
    : Run A :=
  fun st =>
    match statusUpdateContext st with
    | None => (dflt, st, [])
    | Some ctx =>
        let '(a, ctx', l) := m ctx in
        (a, set_statusUpdateContext (Some ctx') st, StatusCall <$> l)
    end.

(* ===================================================================== *)
(** * agent-runner.ts: runReplyAgent *)
(* ===================================================================== *)

(** A string that is defined and not empty (a truthy string). *)
Definition truthyStr (o : option jsstring) : option jsstring :=
  match o with
  | Some ((_ :: _) as s) => Some s
  | _ => None
  end.

Record SessionResetOptions : Type := {
  failureLabel : jsstring;
  buildLogMessage : jsstring -> jsstring;
  cleanupTranscripts : option bool;
}.

(** The outcome of [runAgentTurnWithFallback]: [kind === "final"] with the
    payload to return, or a finished run with [runResult.payloads] (an array,
    when present) and [autoCompactionCompleted]. *)
Inductive TurnOutcome : Type :=
  | TurnFinal (payload : ReplyResult)
  | TurnSuccess (payloads : option nat) (autoCompactionCompleted : bool).

(** The inputs one call of [runReplyAgent] consumes: the answer of
    [queueEmbeddedPiMessage], clock readings, persistence outcomes and
    callback outcomes, in the order of use. The first [sendStatus], made by
    the [start()] that nobody awaits, settles as [respStatusStart];
    [startStepsBeforeTurn] and [startStepsBeforeCleanup] say how many of
    the steps that [start()] has left run while the runner waits before
    the turn, and between the turn and the [finally] block (what is left
    after that runs after the [cleanup()] of the [finally] block). *)
Record RunInputs : Type := {
  steered : bool;
  nowBump : Z;
  persistedBump : bool;
  nowStatusSetup : Z;
  respStatusStart : Awaited;
  startStepsBeforeTurn : nat;
  startStepsBeforeCleanup : nat;
  nowGroupIntro : Z;
  persistedGroupIntro : bool;
  nowComplete : Z;
  respComplete : Awaited;
  respCleanup : Awaited;
}.

Section Runner.

(** Path helpers of config/sessions, whose code is not at hand. *)
Variable resolveAgentIdFromSessionKey : option jsstring -> jsstring.
Variable resolveSessionTranscriptPath : jsstring -> jsstring -> option jsstring -> jsstring.
Variable resolveSessionFilePath : jsstring -> SessionEntry -> jsstring -> jsstring.

(** Collaborators of the run whose code is not at hand; each may read and
    write the run state and make outbound calls. *)
Variable runMemoryFlushIfNeeded : Run (option SessionEntry).
Variable runAgentTurnWithFallback : Run TurnOutcome.
Variable persistSessionUsageUpdate : Run unit.
Variable buildReplyPayloads : nat -> Run nat.
Variable resolveResponseUsageLine : Run (option jsstring).
Variable incrementCompactionCount : Run (option Z).
Variable appendUsageLine : nat -> jsstring -> Run nat.

Variable params : RunParams.

(** Modelled from the spec: [updateSessionStoreEntry] (config/sessions) is
    missing from the sources. Section 4.1: persistence of the session bump is
    best effort; when it fails the error is logged and the caller goes on.
    The patch is merged into the durable entry of the key. *)
Definition updateSessionStoreEntry
    (call : RunnerEffect) (key : jsstring) (patch : SessionEntry -> SessionEntry)
    (persisted : bool) : Run unit :=
  (emit call ;;;
   if persisted
   then modify (fun st => set_durableStore (alter patch key (durableStore st)) st)
   else emit (RuntimeError (lit "session store update failed")))%prog.

(** Modelled from the spec: [updateSessionStore] (config/sessions) is missing
    from the sources. Section 6: an atomic read-modify-write of the store
    file; here the mutator is [store[sessionKey] = entry]. The result is
    [false] when the write throws. *)
Definition updateSessionStore
    (path key : jsstring) (entry : SessionEntry) (persisted : bool) : Run bool :=
  (emit (UpdateSessionStore path key entry) ;;;
   if persisted
   then modify (fun st => set_durableStore (<[key:=entry]> (durableStore st)) st) ;;; ret true
   else ret false)%prog.

(** Modelled from the spec: [finalizeWithFollowup] (agent-runner-helpers) is
    missing from the sources. Section 2: when the turn is over the scheduler
    drains the next queued turn of the key; the value is returned as is. *)
Definition finalizeWithFollowup (value : ReplyResult) (key : jsstring) : Run ReplyResult :=
  (emit (ScheduleFollowupDrain key) ;;; ret value)%prog.

(** Lines 179-190 and 198-209: touch the session record. *)
Definition bumpUpdatedAt (now : Z) (persisted : bool) : Run unit :=
  (let* st := get in
   match activeSessionEntry st, activeSessionStore st, truthyStr (sessionKey params) with
   | Some entry, Some store, Some key =>
       let entry' := with_updatedAt now entry in
       modify (set_session (Some entry') (Some (<[key:=entry']> store))) ;;;
       match truthyStr (storePath params) with
       | Some path =>
           updateSessionStoreEntry (UpdateSessionStoreEntry path key now) key
             (with_updatedAt now) persisted
       | None => ret tt
       end
   | _, _, _ => ret tt
   end)%prog.

(** Lines 176-212. [Some ReplyUndefined] when the function returns there,
    [None] when it goes on to run a turn. *)
Definition steerOrEnqueue (steered : bool) (now : Z) (persisted : bool)
    : Run (option ReplyResult) :=
  (let* st := get in
   let enqueuePath : Run (option ReplyResult) :=
     if isActive params
        && (shouldFollowup params
            || bool_decide (queue_mode (resolvedQueue params) = lit "steer"))
     then
       emit (EnqueueFollowupRun (queueKey params) (followupRun st) (resolvedQueue params)) ;;;
       bumpUpdatedAt now persisted ;;;
       emit TypingCleanup ;;;
       ret (Some ReplyUndefined)
     else ret None in
   if shouldSteer params && isStreaming params then
     emit (QueueEmbeddedPiMessage (run_sessionId (followupRun st)) (prompt (followupRun st))) ;;;
     if steered && negb (shouldFollowup params) then
       bumpUpdatedAt now persisted ;;;
       emit TypingCleanup ;;;
       ret (Some ReplyUndefined)
     else enqueuePath
   else enqueuePath)%prog.

(** The [Set] of transcript paths, in insertion order. *)
Definition transcriptCandidates (resolved canonical : jsstring) : list jsstring :=
  let s := match resolved with [] => [] | _ => [resolved] end in
  if bool_decide (canonical ∈ s) then s else s ++ [canonical].

(** [for (const candidate of ...) { try { fs.unlinkSync(candidate) } catch {} }] *)
Fixpoint unlinkAll (candidates : list jsstring) : Run unit :=
  match candidates with
  | [] => ret tt
  | candidate :: rest =>
      (let* st := get in
       match unlinkSync candidate (transcripts st) with
       | Some fs => modify (set_transcripts fs) ;;; emit (UnlinkSync candidate true)
       | None => emit (UnlinkSync candidate false)
       end ;;;
       unlinkAll rest)%prog
  end.

(** Lines 249-302. [uuid] is what [crypto.randomUUID()] returns, [now] what
    [Date.now()] returns, [persisted] whether [updateSessionStore] succeeds
    and [err] what [String(err)] gives for the error it throws when it does
    not. *)
Definition resetSession (opts : SessionResetOptions)
    (uuid : jsstring) (now : Z) (persisted : bool) (err : jsstring) : Run bool :=
  (let* st := get in
   match truthyStr (sessionKey params), activeSessionStore st, truthyStr (storePath params) with
   | Some key, Some store, Some path =>
       match from_option Some (activeSessionEntry st) (store !! key) with
       | None => ret false
       | Some prevEntry =>
           let prevSessionId :=
             if default false (cleanupTranscripts opts)
             then Some (sessionId prevEntry) else None in
           let nextSessionId := uuid in
           let agentId := resolveAgentIdFromSessionKey (Some key) in
           let nextSessionFile :=
             resolveSessionTranscriptPath nextSessionId agentId
               (sessionCtx_MessageThreadId params) in
           let nextEntry :=
             {| sessionId := nextSessionId;
                sessionFile := Some nextSessionFile;
                updatedAt := now;
                systemSent := Some false;
                abortedLastRun := Some false;
                groupActivationNeedsSystemIntro := groupActivationNeedsSystemIntro prevEntry;
                contextTokens := contextTokens prevEntry;
                responseUsage := responseUsage prevEntry;
                compactionCount := compactionCount prevEntry |} in
           modify (fun st => set_session (activeSessionEntry st)
                               (Some (<[key:=nextEntry]> store)) st) ;;;
           let* ok := updateSessionStore path key nextEntry persisted in
           (if ok then ret tt
            else emit (RuntimeError
                   (lit "Failed to persist session reset after " ++ failureLabel opts
                    ++ lit " (" ++ key ++ lit "): " ++ err))) ;;;
           modify (fun st => set_followupRun
                     {| prompt := prompt (followupRun st);
                        run_sessionId := nextSessionId;
                        run_sessionFile := Some nextSessionFile |} st) ;;;
           modify (set_activeSessionEntry (Some nextEntry)) ;;;
           modify (set_activeIsNewSession true) ;;;
           emit (RuntimeError (buildLogMessage opts nextSessionId)) ;;;
           match truthyStr prevSessionId with
           | Some prevId =>
               let resolved := resolveSessionFilePath prevId prevEntry agentId in
               let canonical := resolveSessionTranscriptPath prevId agentId None in
               unlinkAll (transcriptCandidates resolved canonical)
           | None => ret tt
           end ;;;
           ret true
       end
   | _, _, _ => ret false
   end)%prog.

Definition resetSessionAfterCompactionFailure (reason : jsstring) :
    jsstring -> Z -> bool -> jsstring -> Run bool :=
  resetSession
    {| failureLabel := lit "compaction failure";
       buildLogMessage := fun nextSessionId =>
         lit "Auto-compaction failed (" ++ reason ++ lit "). Restarting session "
         ++ default (lit "undefined") (sessionKey params) ++ lit " -> " ++ nextSessionId
         ++ lit " and retrying.";
       cleanupTranscripts := None |}.

Definition resetSessionAfterRoleOrderingConflict (reason : jsstring) :
    jsstring -> Z -> bool -> jsstring -> Run bool :=
  resetSession
    {| failureLabel := lit "role ordering conflict";
       buildLogMessage := fun nextSessionId =>
         lit "Role ordering conflict (" ++ reason ++ lit "). Restarting session "
         ++ default (lit "undefined") (sessionKey params) ++ lit " -> " ++ nextSessionId
         ++ lit ".";
       cleanupTranscripts := Some true |}.

(** Lines 328-352: the callbacks go through [onBlockReply] when there is one. *)
Definition statusCallbacks : StatusUpdateCallbacks :=
  if hasOnBlockReply params
  then {| cb_supportsEdit := Some true; cb_hasEditFinal := true;
          cb_hasDeleteStatus := false |}
  else noopStatusCallbacks.

(** Lines 319-360: create the controller and its run context. The clock
    readings taken while the controller is set up count as one reading.
    The [start()] called by [createStatusUpdateRunContext] stays parked. *)
Definition setupStatusUpdates (now : Z) : Run unit :=
  fun st =>
    let agentId := resolveAgentIdFromSessionKey (sessionKey params) in
    let statusController :=
      createAgentStatusController now (cfg params) (Some agentId) statusCallbacks in
    let '(ctx, parked, effs) := createStatusUpdateRunContext now statusController in
    (tt, set_statusStartParked parked (set_statusUpdateContext (Some ctx) st),
     StatusCall <$> effs).

(** The parked [start()] goes on by [steps] steps (it has two at most),
    while the runner waits at an [await] of its own. *)
Fixpoint resumeStatusStart (steps : nat) (resp : Awaited) : Run unit :=
  match steps with
  | O => ret tt
  | S steps =>
      (let* st := get in
       match statusStartParked st with
       | None => ret tt
       | Some k =>
           let* next :=
             liftStatus None (onController None (StatusUpdateController.resume k resp)) in
           modify (set_statusStartParked next) ;;;
           resumeStatusStart steps resp
       end)%prog
  end.

(** Lines 417-438. *)
Definition injectGroupIntro (now : Z) (persisted : bool) : Run unit :=
  (let* st := get in
   if negb (shouldInjectGroupIntro params) then ret tt else
   match activeSessionEntry st, activeSessionStore st, truthyStr (sessionKey params) with
   | Some entry, Some store, Some key =>
       if default false (groupActivationNeedsSystemIntro entry) then
         let patch e := with_updatedAt now (with_groupIntro (Some false) e) in
         modify (set_session (Some (patch entry)) (Some (<[key:=patch entry]> store))) ;;;
         match truthyStr (storePath params) with
         | Some path =>
             updateSessionStoreEntry (UpdateSessionStoreIntro path key now) key patch persisted
         | None => ret tt
         end
       else ret tt
   | _, _, _ => ret tt
   end)%prog.

(** Lines 566-606: hint lines, usage line, status completion, return value.
    [replyPayloads] is the array built from the agent's payloads;
    [finalPayloads] starts as the very same array. *)
Definition assembleFinalPayloads
    (replyPayloads : nat) (autoCompactionCompleted : bool)
    (responseUsageLine : option jsstring) (now : Z) (resp : Awaited)
    : Run ReplyResult :=
  (let finalPayloads := replyPayloads in
   let verboseEnabled := negb (bool_decide (resolvedVerboseLevel params = lit "off")) in
   let* finalPayloads :=
     (if autoCompactionCompleted then
        let* count := incrementCompactionCount in
        if verboseEnabled then
          let suffix :=
            match count with
            | Some n => lit " (count " ++ numToString n ++ lit ")"
            | None => []
            end in
          let* old := readArray finalPayloads in
          newArray (textPayload ([0xD83E; 0xDDF9]%N ++ lit " Auto-compaction complete"
                                 ++ suffix ++ lit ".") :: old)
        else ret finalPayloads
      else ret finalPayloads) in
   let* st := get in
   let* finalPayloads :=
     (if verboseEnabled && activeIsNewSession st then
        let* old := readArray finalPayloads in
        newArray (textPayload ([0xD83E; 0xDDED]%N ++ lit " New session: "
                               ++ run_sessionId (followupRun st)) :: old)
      else ret finalPayloads) in
   let* finalPayloads :=
     match truthyStr responseUsageLine with
     | Some line => appendUsageLine finalPayloads line
     | None => ret finalPayloads
     end in
   let* st := get in
   let* rp := readArray replyPayloads in
   match statusUpdateContext st, last rp with
   | Some _, Some lastPayload =>
       if truthy (text lastPayload) then
         let* markedText :=
           liftStatus (text lastPayload) (completeStatusUpdate now resp (text lastPayload)) in
         match truthyStr markedText with
         | Some marked =>
             writeArray replyPayloads (length rp - 1) (with_text marked lastPayload)
         | None => ret tt
         end
       else ret tt
   | _, _ => ret tt
   end ;;;
   let* fp := readArray finalPayloads in
   finalizeWithFollowup
     match fp with
     | [only] => ReplyOne only
     | _ => ReplyMany fp
     end
     (queueKey params))%prog.

(** Lines 384-606, the body of the [try]. Typing signals, the block-reply
    pipeline, pending tool tasks and diagnostic events belong to
    collaborators and leave no trace here. *)
Definition runTurn (i : RunInputs) : Run ReplyResult :=
  (let* runOutcome := runAgentTurnWithFallback in
   match runOutcome with
   | TurnFinal payload => finalizeWithFollowup payload (queueKey params)
   | TurnSuccess payloads autoCompactionCompleted =>
       injectGroupIntro (nowGroupIntro i) (persistedGroupIntro i) ;;;
       let* payloadArray :=
         match payloads with
         | Some a => ret a
         | None => newArray []
         end in
       persistSessionUsageUpdate ;;;
       let* pa := readArray payloadArray in
       if bool_decide (length pa = 0%nat)
       then finalizeWithFollowup ReplyUndefined (queueKey params)
       else
         let* replyPayloads := buildReplyPayloads payloadArray in
         let* rp := readArray replyPayloads in
         if bool_decide (length rp = 0%nat)
         then finalizeWithFollowup ReplyUndefined (queueKey params)
         else
           let* responseUsageLine := resolveResponseUsageLine in
           assembleFinalPayloads replyPayloads autoCompactionCompleted
             responseUsageLine (nowComplete i) (respComplete i)
   end)%prog.

(** [runReplyAgent]: the early returns, then the turn inside [try], then the
    [finally] block. (A collaborator that throws is outside this model: the
    turn is taken to finish. The ticks of the controller's interval and the
    agent events fall into the time the collaborators take. The [start()]
    of the status controller, which nobody awaits, goes on while the runner
    waits, by as many steps as the inputs say.) *)
Definition runReplyAgent (i : RunInputs) : Run ReplyResult :=
  (let* early := steerOrEnqueue (steered i) (nowBump i) (persistedBump i) in
   match early with
   | Some r => ret r
   | None =>
       emit TypingSignalRunStart ;;;
       let* entry := runMemoryFlushIfNeeded in
       modify (set_activeSessionEntry entry) ;;;
       setupStatusUpdates (nowStatusSetup i) ;;;
       resumeStatusStart (startStepsBeforeTurn i) (respStatusStart i) ;;;
       let* r := runTurn i in
       resumeStatusStart (startStepsBeforeCleanup i) (respStatusStart i) ;;;
       emit TypingMarkRunComplete ;;;
       liftStatus tt (cleanupStatusUpdate (respCleanup i)) ;;;
       ret r
   end)%prog.

End Runner.

(* ===================================================================== *)
(** * telegram/sent-message-cache.ts *)
(* ===================================================================== *)

Definition TTL_MS : Z := 24 * 60 * 60 * 1000.

Record LastSent : Type := {
  ls_messageId : Z;
  ls_timestamp : Z;
  ls_isStatus : bool;
}.

Record CacheEntry : Type := {
  messageIds : gset Z;
  timestamps : gmap Z Z;
  lastSent : option LastSent;
}.

(** [String(chatId)]; chat ids are held as strings. *)
Definition getChatKey (chatId : jsstring) : jsstring := chatId.

Definition cleanupExpired (now : Z) (entry : CacheEntry) : CacheEntry :=
  let expired : gmap Z Z := filter (fun kv => TTL_MS <? now - kv.2) (timestamps entry) in
  {| messageIds := messageIds entry ∖ dom expired;
     timestamps := timestamps entry ∖ expired;
     lastSent := lastSent entry |}.

(** [recordSentMessage]; [now] and [now'] are the two clock readings (the
    second one is taken only when the periodic cleanup runs). *)
Definition recordSentMessage (chatId : jsstring) (messageId : Z) (isStatus : bool)
    (now now' : Z) (sentMessages : gmap jsstring CacheEntry) : gmap jsstring CacheEntry :=
  let key := getChatKey chatId in
  let entry :=
    default {| messageIds := ∅; timestamps := ∅; lastSent := None |} (sentMessages !! key) in
  let entry :=
    {| messageIds := {[messageId]} ∪ messageIds entry;
       timestamps := <[messageId:=now]> (timestamps entry);
       lastSent := Some {| ls_messageId := messageId; ls_timestamp := now;
                           ls_isStatus := isStatus |} |} in
  let entry :=
    if (100 <? size (messageIds entry))%nat then cleanupExpired now' entry else entry in
  <[key:=entry]> sentMessages.

Definition invalidateLastStatus (chatId : jsstring)
    (sentMessages : gmap jsstring CacheEntry) : gmap jsstring CacheEntry :=
  match sentMessages !! getChatKey chatId with
  | Some entry =>
      match lastSent entry with
      | Some ls =>
          <[getChatKey chatId :=
              {| messageIds := messageIds entry; timestamps := timestamps entry;
                 lastSent := Some {| ls_messageId := ls_messageId ls;
                                     ls_timestamp := ls_timestamp ls;
                                     ls_isStatus := false |} |}]> sentMessages
      | None => sentMessages
      end
  | None => sentMessages
  end.

Definition getLastSentMessage (chatId : jsstring)
    (sentMessages : gmap jsstring CacheEntry) : option LastSent :=
  sentMessages !! getChatKey chatId ≫= lastSent.

Definition wasSentByBot (chatId : jsstring) (messageId : Z) (now : Z)
    (sentMessages : gmap jsstring CacheEntry) : bool * gmap jsstring CacheEntry :=
  match sentMessages !! getChatKey chatId with
  | None => (false, sentMessages)
  | Some entry =>
      let entry := cleanupExpired now entry in
      (bool_decide (messageId ∈ messageIds entry), <[getChatKey chatId:=entry]> sentMessages)
  end.

Definition clearSentMessageCache : gmap jsstring CacheEntry := ∅.

(* ===================================================================== *)
(** * Programs that may throw *)
(* ===================================================================== *)

(** As [Prog], with [None] for a thrown exception; the state and the log up
    to the throw are kept. *)
Definition ProgE (S E A : Type) : Type := S -> option A * S * list E.

Definition retE {S E A} (a : A) : ProgE S E A := fun s => (Some a, s, []).

Definition throwE {S E A} : ProgE S E A := fun s => (None, s, []).

Definition bindE {S E A B} (m : ProgE S E A) (k : A -> ProgE S E B) : ProgE S E B :=
  fun s =>
    let '(a, s1, l1) := m s in
    match a with
    | None => (None, s1, l1)
    | Some a =>
        let '(b, s2, l2) := k a s1 in
        (b, s2, l1 ++ l2)
    end.

Definition getE {S E} : ProgE S E S := fun s => (Some s, s, []).
Definition modifyE {S E} (f : S -> S) : ProgE S E unit := fun s => (Some tt, f s, []).
Definition emitE {S E} (e : E) : ProgE S E unit := fun s => (Some tt, s, [e]).

Declare Scope exn_scope.
Delimit Scope exn_scope with exn.
Notation "'let*' x ':=' m 'in' k" := (bindE m (fun x => k))
  (at level 10, x name, m at level 100, k at level 200, only parsing) : exn_scope.
Notation "m ';;;' k" := (bindE m (fun _ => k))
  (at level 100, k at level 200, right associativity, only parsing) : exn_scope.

(** [for (const x of xs) body(x)] *)
Fixpoint forEachE {S E A} (body : A -> ProgE S E unit) (xs : list A) : ProgE S E unit :=
  match xs with
  | [] => retE tt
  | x :: rest => bindE (body x) (fun _ => forEachE body rest)
  end.

(* ===================================================================== *)
(** * telegram/bot/delivery.ts *)
(* ===================================================================== *)

Inductive ReplyToMode : Type := reply_off | reply_first | reply_all.

#[global] Instance ReplyToMode_eq_dec : EqDecision ReplyToMode.
Proof. solve_decision. Defined.

Inductive ChunkMode : Type := chunk_length | chunk_newline.

#[global] Instance ChunkMode_eq_dec : EqDecision ChunkMode.
Proof. solve_decision. Defined.

Inductive MediaKind : Type := kind_image | kind_video | kind_audio | kind_other.

Inductive MediaMethod : Type :=
  | sendAnimation | sendPhoto | sendVideo | sendVoice | sendAudio | sendDocument.

(** One element of [markdownToTelegramChunks]. *)
Record Chunk : Type := {
  html : jsstring;
  chunk_text : jsstring;
}.

Record WebMedia : Type := {
  media_buffer : list N;
  media_contentType : option jsstring;
  media_fileName : option jsstring;
}.

(** [bot.api.sendMessage(chatId, text, params)] *)
Record SendMessageCall : Type := {
  sm_chatId : jsstring;
  sm_text : jsstring;
  sm_parse_mode_html : bool;
  sm_link_preview_disabled : bool;
  sm_reply_to_message_id : option Z;
  sm_message_thread_id : option Z;
}.

(** What a [sendMessage] call does: it returns a message, or throws an error
    whose text matches [PARSE_ERR_RE], or throws another error. *)
Inductive SendOutcome : Type :=
  | Sent (message_id : Z)
  | ParseError
  | OtherError.

(** [bot.api.sendPhoto] and the like. *)
Record MediaCall : Type := {
  mc_method : MediaMethod;
  mc_chatId : jsstring;
  mc_buffer : list N;
  mc_fileName : jsstring;
  mc_caption : option jsstring;
  mc_reply_to_message_id : option Z;
  mc_parse_mode_html : bool;
  mc_message_thread_id : option Z;
}.

(** Outbound calls and log lines of a delivery, with what came back. (The
    diagnostic [console.error] lines of the text path are left out.) *)
Inductive DeliveryEffect : Type :=
  | LogVerbose (message : jsstring)
  | RuntimeErrorLine (message : jsstring)
  | RuntimeLogLine (message : jsstring)
  | EditMessageTelegram (chatId editId text : jsstring) (ok : bool)
  | SendMessageTelegram (chatId text : jsstring) (messageThreadId : option Z)
      (result : option Z)
  | BotSendMessage (call : SendMessageCall) (outcome : SendOutcome)
  | BotSendMedia (call : MediaCall) (ok : bool)
  | LoadWebMedia (url : jsstring) (ok : bool)
  | OnVoiceRecording (ok : bool).

(** [hasReplied] is the local variable of [deliverReplies]; [sentMessages] is
    the module-level cache; [ticks] counts the interactions with the outside
    (clock readings and awaited calls) made so far. *)
Record DeliveryState : Type := {
  hasReplied : bool;
  sentMessages : gmap jsstring CacheEntry;
  ticks : nat;
}.

Definition set_hasReplied (b : bool) (st : DeliveryState) : DeliveryState :=
  {| hasReplied := b; sentMessages := sentMessages st; ticks := ticks st |}.

Definition set_sentMessages (m : gmap jsstring CacheEntry) (st : DeliveryState)
    : DeliveryState :=
  {| hasReplied := hasReplied st; sentMessages := m; ticks := ticks st |}.

Record DeliveryParams : Type := {
  chatId : jsstring;
  token : jsstring;
  accountId : option jsstring;
  runtime_hasLog : bool;
  replyToMode : ReplyToMode;
  textLimit : Z;
  messageThreadId : option Z;
  tableMode : option jsstring;
  chunkMode : option ChunkMode;
  hasOnVoiceRecording : bool;
  linkPreview : option bool;
}.

Abbreviation Deliv := (ProgE DeliveryState DeliveryEffect).

(** The next interaction with the outside: its index. *)
Definition tick : Deliv nat :=
  fun st => (Some (ticks st),
             {| hasReplied := hasReplied st; sentMessages := sentMessages st;
                ticks := S (ticks st) |}, []).

(** A number that is defined and not zero (a truthy number). *)
Definition truthyNum (o : option Z) : option Z :=
  match o with
  | Some n => if n =? 0 then None else Some n
  | None => None
  end.

Section Delivery.

(** The outside world, indexed by the interaction count: clock readings and
    the outcomes of awaited calls. *)
Variable now : nat -> Z.
Variable editMessageTelegram : nat -> jsstring -> jsstring -> jsstring -> bool.
Variable sendMessageTelegram : nat -> jsstring -> jsstring -> option Z -> option Z.
Variable bot_sendMessage : nat -> SendMessageCall -> SendOutcome.
Variable bot_sendMedia : nat -> MediaCall -> bool.
Variable loadWebMedia : nat -> jsstring -> option WebMedia.
Variable onVoiceRecording : nat -> bool.

(** Pure helpers whose code is not at hand. *)
Variable resolveTelegramReplyId : option jsstring -> option Z.
Variable buildTelegramThreadParams : option Z -> option Z.
Variable chunkMarkdownTextWithMode : jsstring -> Z -> ChunkMode -> list jsstring.
Variable markdownToTelegramChunks : jsstring -> Z -> option jsstring -> list Chunk.
Variable markdownToTelegramHtml : jsstring -> option jsstring -> jsstring.
Variable renderTelegramHtmlText : jsstring -> option jsstring -> jsstring.
Variable splitTelegramCaption : option jsstring -> option jsstring * option jsstring.
Variable mediaKindFromMime : option jsstring -> MediaKind.
Variable isGifMedia : option jsstring -> option jsstring -> bool.
Variable resolveTelegramVoiceSend : bool -> option jsstring -> jsstring -> bool.

Variable params : DeliveryParams.

Definition dateNow : Deliv Z := (let* t := tick in retE (now t))%exn.

(** [chunkText] (lines 50-68). *)
Definition chunkText (markdown : jsstring) : list Chunk :=
  let mode := default chunk_length (chunkMode params) in
  let markdownChunks :=
    if bool_decide (mode = chunk_newline)
    then chunkMarkdownTextWithMode markdown (textLimit params) mode
    else [markdown] in
  flat_map
    (fun chunk =>
       let nested := markdownToTelegramChunks chunk (textLimit params) (tableMode params) in
       match nested, chunk with
       | [], _ :: _ =>
           [{| html := markdownToTelegramHtml chunk (tableMode params);
               chunk_text := chunk |}]
       | _, _ => nested
       end)
    markdownChunks.

(** [sendTelegramText] with [buildTelegramSendParams] (lines 285-342). *)
Definition sendTelegramText (text : jsstring) (replyToMessageId : option Z)
    (textModeHtml : bool) (plainText : option jsstring) : Deliv Z :=
  (let linkPreviewEnabled := default true (linkPreview params) in
   let htmlText := if textModeHtml then text else markdownToTelegramHtml text None in
   let call parse body :=
     {| sm_chatId := chatId params; sm_text := body; sm_parse_mode_html := parse;
        sm_link_preview_disabled := negb linkPreviewEnabled;
        sm_reply_to_message_id := truthyNum replyToMessageId;
        sm_message_thread_id := buildTelegramThreadParams (messageThreadId params) |} in
   let* t := tick in
   let outcome := bot_sendMessage t (call true htmlText) in
   emitE (BotSendMessage (call true htmlText) outcome) ;;;
   match outcome with
   | Sent id => retE id
   | ParseError =>
       (if runtime_hasLog params
        then emitE (RuntimeLogLine
                      (lit "telegram HTML parse failed; retrying without formatting"))
        else retE tt) ;;;
       let fallbackText := default text plainText in
       let* t := tick in
       let outcome := bot_sendMessage t (call false fallbackText) in
       emitE (BotSendMessage (call false fallbackText) outcome) ;;;
       match outcome with
       | Sent id => retE id
       | _ => throwE
       end
   | OtherError => throwE
   end)%exn.

(** [replyToId && (replyToMode === "all" || !hasReplied) ? replyToId : undefined] *)
Definition replyTarget (replyToId : option Z) : Deliv (option Z) :=
  (let* st := getE in
   retE (match truthyNum replyToId with
         | Some r =>
             if bool_decide (replyToMode params = reply_all) || negb (hasReplied st)
             then Some r else None
         | None => None
         end))%exn.

(** [if (replyToId && !hasReplied) hasReplied = true] *)
Definition markReplied (replyToId : option Z) : Deliv unit :=
  modifyE (fun st =>
             match truthyNum replyToId with
             | Some _ => if hasReplied st then st else set_hasReplied true st
             | None => st
             end).

(** The chunk loop of a text reply (lines 128-144); the result is the
    [sentMessageId] it leaves. *)
Fixpoint sendTextChunks (replyToId : option Z) (chunks : list Chunk)
    (sentMessageId : option Z) : Deliv (option Z) :=
  match chunks with
  | [] => retE sentMessageId
  | chunk :: rest =>
      (let* target := replyTarget replyToId in
       let* msgId := sendTelegramText (html chunk) target true (Some (chunk_text chunk)) in
       let sentMessageId := if msgId =? 0 then sentMessageId else Some msgId in
       markReplied replyToId ;;;
       sendTextChunks replyToId rest sentMessageId)%exn
  end.

(** The chunk loop of a follow-up text after media (lines 233-246). *)
Definition sendFollowUpChunks (replyToId : option Z) (chunks : list Chunk) : Deliv unit :=
  forEachE
    (fun chunk =>
       (let* target := replyTarget replyToId in
        let* _ := sendTelegramText (html chunk) target true (Some (chunk_text chunk)) in
        markReplied replyToId)%exn)
    chunks.

(** [recordSentMessage] on the module cache, taking its clock readings. *)
Definition recordSent (messageId : Z) (isStatus : bool) : Deliv unit :=
  (let* st := getE in
   let* n := dateNow in
   let entry :=
     default {| messageIds := ∅; timestamps := ∅; lastSent := None |}
       (sentMessages st !! getChatKey (chatId params)) in
   if (100 <? size ({[messageId]} ∪ messageIds entry))%nat then
     let* n' := dateNow in
     modifyE (fun st => set_sentMessages
                (recordSentMessage (chatId params) messageId isStatus n n' (sentMessages st)) st)
   else
     modifyE (fun st => set_sentMessages
                (recordSentMessage (chatId params) messageId isStatus n n (sentMessages st)) st))%exn.

(** A reply without media (lines 86-151). *)
Definition deliverText (reply : ReplyPayload) (replyToId : option Z) : Deliv unit :=
  (let* st := getE in
   let lastSent := getLastSentMessage (chatId params) (sentMessages st) in
   let* shouldEditLast :=
     match lastSent with
     | Some ls =>
         if ls_isStatus ls && negb (ls_messageId ls =? 0) then
           let* n := dateNow in
           retE (bool_decide (n - ls_timestamp ls < 120000))
         else retE false
     | None => retE false
     end in
   let* sentMessageId :=
     match lastSent, truthyStr (text reply) with
     | Some ls, Some body =>
         if shouldEditLast then
           let editId := numToString (ls_messageId ls) in
           let* t := tick in
           let ok := editMessageTelegram t (chatId params) editId body in
           emitE (EditMessageTelegram (chatId params) editId body ok) ;;;
           retE (if ok then Some (ls_messageId ls) else None)
         else retE None
     | _, _ => retE None
     end in
   let* sentMessageId :=
     match sentMessageId, default false (isStatusMessage reply), truthyStr (text reply) with
     | None, true, Some body =>
         let* t := tick in
         let result := sendMessageTelegram t (chatId params) body (messageThreadId params) in
         emitE (SendMessageTelegram (chatId params) body (messageThreadId params) result) ;;;
         match result with
         | Some id => retE (Some id)
         | None => throwE
         end
     | None, _, _ =>
         sendTextChunks replyToId (chunkText (default [] (text reply))) None
     | Some id, _, _ => retE (Some id)
     end in
   match sentMessageId with
   | Some id => recordSent id (default false (isStatusMessage reply))
   | None => retE tt
   end)%exn.

(** One media item of a reply (the body of the loop at lines 158-249).
    [pendingFollowUpText] is set and consumed within the first item, so it
    is not carried from one item to the next. *)
Definition deliverMediaItem (reply : ReplyPayload) (replyTo : option Z)
    (url : jsstring) (isFirstMedia : bool) : Deliv unit :=
  (let* t := tick in
   match loadWebMedia t url with
   | None => emitE (LoadWebMedia url false) ;;; throwE
   | Some media =>
       emitE (LoadWebMedia url true) ;;;
       let kind := mediaKindFromMime (media_contentType media) in
       let isGif := isGifMedia (media_contentType media) (media_fileName media) in
       let fileName :=
         default (if isGif then lit "animation.gif" else lit "file") (media_fileName media) in
       let split := splitTelegramCaption (if isFirstMedia then text reply else None) in
       let htmlCaption :=
         match truthyStr split.1 with
         | Some caption => Some (renderTelegramHtmlText caption (tableMode params))
         | None => None
         end in
       let* target := replyTarget replyTo in
       let call method :=
         {| mc_method := method; mc_chatId := chatId params;
            mc_buffer := media_buffer media; mc_fileName := fileName;
            mc_caption := htmlCaption; mc_reply_to_message_id := target;
            mc_parse_mode_html := truthy htmlCaption;
            mc_message_thread_id := buildTelegramThreadParams (messageThreadId params) |} in
       let send method : Deliv unit :=
         (let* t := tick in
          let ok := bot_sendMedia t (call method) in
          emitE (BotSendMedia (call method) ok) ;;;
          if ok then retE tt else throwE) in
       (if isGif then send sendAnimation
        else
          match kind with
          | kind_image => send sendPhoto
          | kind_video => send sendVideo
          | kind_audio =>
              let useVoice :=
                resolveTelegramVoiceSend
                  (bool_decide (audioAsVoice reply = Some true))
                  (media_contentType media) fileName in
              if useVoice then
                (if hasOnVoiceRecording params then
                   let* t := tick in
                   emitE (OnVoiceRecording (onVoiceRecording t)) ;;;
                   if onVoiceRecording t then retE tt else throwE
                 else retE tt) ;;;
                send sendVoice
              else send sendAudio
          | kind_other => send sendDocument
          end) ;;;
       markReplied replyTo ;;;
       match truthyStr split.2 with
       | Some pendingFollowUpText =>
           if isFirstMedia
           then sendFollowUpChunks replyTo (chunkText pendingFollowUpText)
           else retE tt
       | None => retE tt
       end
   end)%exn.

(** [mediaUrls] when it is not empty, else [mediaUrl] alone when set. *)
Definition mediaListOf (reply : ReplyPayload) : list jsstring :=
  match mediaUrls reply with
  | Some ((_ :: _) as urls) => urls
  | _ =>
      match truthyStr (mediaUrl reply) with
      | Some url => [url]
      | None => []
      end
  end.

Definition hasMediaOf (reply : ReplyPayload) : bool :=
  truthy (mediaUrl reply) || (0 <? length (default [] (mediaUrls reply)))%nat.

(** The body of [for (const reply of replies)] (lines 69-250).
    ([runtime.error] is taken to be there, as [RuntimeEnv] declares it and
    every caller at hand provides it; [danger] only colours the text.) *)
Definition deliverReply (reply : ReplyPayload) : Deliv unit :=
  (if negb (truthy (text reply)) && negb (hasMediaOf reply) then
     if default false (audioAsVoice reply) then
       emitE (LogVerbose (lit "telegram reply has audioAsVoice without media/text; skipping"))
     else
       emitE (RuntimeErrorLine (lit "reply missing text/media"))
   else
     let replyTo :=
       if bool_decide (replyToMode params = reply_off) then None
       else resolveTelegramReplyId (replyToId reply) in
     match mediaListOf reply with
     | [] => deliverText reply replyTo
     | first :: rest =>
         deliverMediaItem reply replyTo first true ;;;
         forEachE (fun url => deliverMediaItem reply replyTo url false) rest
     end)%exn.

(** [deliverReplies]: [hasReplied] starts out [false]. *)
Definition deliverReplies (replies : list ReplyPayload) : Deliv unit :=
  (modifyE (set_hasReplied false) ;;; forEachE deliverReply replies)%exn.

End Delivery.

(* ===================================================================== *)
(** * Specification-level notions *)
(* ===================================================================== *)

(** A controller that still reacts to [setPhase]. *)
Definition live (c : StatusUpdateController.t) : bool :=
  StatusUpdateController.isEnabled c
  && negb (StatusUpdateController.stopped c)
  && negb (isComplete (StatusUpdateController.state c)).

(** A sequence of [setPhase] calls, each with its clock reading and the
    outcome of the render it may await. *)
Fixpoint setPhases (calls : list (Z * Awaited * StatusPhase)) : StatusUpdateController.M unit :=
  match calls with
  | [] => ret tt
  | (now, resp, p) :: rest =>
      bind (StatusUpdateController.setPhase now resp p) (fun _ => setPhases rest)
  end.


(** The check mark U+2705. *)
Definition checkmark : jsstring := [0x2705%N].

(** A config with status updates switched on and the rest left to the
    defaults. *)
Definition enabledConfig : StatusUpdateConfig :=
  {| cfg_enabled := Some true; cfg_mode := None; cfg_updateIntervalMs := None;
     cfg_showPhases := None; cfg_showElapsedTime := None;
     cfg_markFinalWithCheckmark := None; cfg_elapsedTimeThresholdMs := None |}.

(** A controller created at time 1000 with status updates switched on, for
    a channel that posts each status as a new message. *)
Definition freshController : StatusUpdateController.t :=
  createStatusUpdateController 1000 enabledConfig createInlineStatusCallbacks.

(** The [UnlinkSync] attempts of an effect log, in order. *)
Definition unlinkAttempts (effects : list RunnerEffect) : list jsstring :=
  omap (fun e => match e with UnlinkSync path _ => Some path | _ => None end) effects.


(** ** Concrete runs of the agent runner *)

(** Stand-ins for the path helpers: one agent, transcripts by session id,
    and the entry's own [sessionFile] when it has one. *)
Definition demoAgentId (sessionKey : option jsstring) : jsstring := lit "main".

Definition demoTranscriptPath (sessionId agentId : jsstring) (topic : option jsstring)
    : jsstring :=
  lit "/sessions/" ++ sessionId ++ lit ".jsonl".

Definition demoSessionFilePath (sessionId : jsstring) (entry : SessionEntry)
    (agentId : jsstring) : jsstring :=
  default [] (sessionFile entry).

Definition demoEntry : SessionEntry :=
  {| sessionId := lit "old-session"; sessionFile := Some (lit "/custom/old.jsonl");
     updatedAt := 1; systemSent := Some true; abortedLastRun := Some true;
     groupActivationNeedsSystemIntro := None; contextTokens := None;
     responseUsage := None; compactionCount := None |}.

Definition demoParams : RunParams :=
  {| commandBody := lit "hello"; queueKey := lit "telegram:42";
     resolvedQueue := {| queue_mode := lit "steer" |};
     shouldSteer := true; shouldFollowup := false; isActive := true; isStreaming := true;
     sessionKey := Some (lit "agent:main:42"); storePath := Some (lit "/store.json");
     resolvedVerboseLevel := lit "on"; shouldInjectGroupIntro := false;
     sessionCtx_MessageThreadId := None;
     cfg := {| agents_list := None; agents_defaults_statusUpdates := Some enabledConfig |};
     hasOnBlockReply := false |}.

(** [demoParams] without a session key. *)
Definition demoParamsNoKey : RunParams :=
  {| commandBody := commandBody demoParams; queueKey := queueKey demoParams;
     resolvedQueue := resolvedQueue demoParams;
     shouldSteer := true; shouldFollowup := false; isActive := true; isStreaming := true;
     sessionKey := None; storePath := storePath demoParams;
     resolvedVerboseLevel := lit "on"; shouldInjectGroupIntro := false;
     sessionCtx_MessageThreadId := None; cfg := cfg demoParams;
     hasOnBlockReply := false |}.

(** [demoParams] for a conversation with no turn running. *)
Definition demoParamsIdle : RunParams :=
  {| commandBody := commandBody demoParams; queueKey := queueKey demoParams;
     resolvedQueue := resolvedQueue demoParams;
     shouldSteer := false; shouldFollowup := false; isActive := false; isStreaming := false;
     sessionKey := sessionKey demoParams; storePath := storePath demoParams;
     resolvedVerboseLevel := lit "on"; shouldInjectGroupIntro := false;
     sessionCtx_MessageThreadId := None; cfg := cfg demoParams;
     hasOnBlockReply := false |}.

Definition demoInputs : RunInputs :=
  {| steered := true; nowBump := 2; persistedBump := true;
     nowStatusSetup := 1000; respStatusStart := Resolved None;
     startStepsBeforeTurn := 2; startStepsBeforeCleanup := 0;
     nowGroupIntro := 1500; persistedGroupIntro := true;
     nowComplete := 6000; respComplete := Resolved None;
     respCleanup := Resolved None |}.

(** A run state whose store holds [demoEntry] under the key of
    [demoParams], with both transcript files of the old session on disk and
    one array holding the single payload ["hi"]. *)
Definition demoState : RunState :=
  {| activeSessionEntry := Some demoEntry;
     activeSessionStore := Some {[ lit "agent:main:42" := demoEntry ]};
     activeIsNewSession := true;
     followupRun := {| prompt := lit "hello"; run_sessionId := lit "old-session";
                       run_sessionFile := None |};
     durableStore := {[ lit "agent:main:42" := demoEntry ]};
     transcripts := {| files := {[ lit "/custom/old.jsonl"; lit "/sessions/old-session.jsonl" ]};
                       undeletable := {[ lit "/custom/old.jsonl" ]} |};
     arrays := [[textPayload (lit "hi")]];
     statusUpdateContext := None;
     statusStartParked := None |}.


(** [runReplyAgent] with collaborators that do the least: no memory flush,
    a turn that finishes with the payloads of array 0, payloads copied into a
    fresh array, no usage line. *)
Definition demoRunReplyAgent (params : RunParams) (i : RunInputs) : Run ReplyResult :=
  runReplyAgent demoAgentId
    (fun st => (activeSessionEntry st, st, []))
    (ret (TurnSuccess (Some 0%nat) false))
    (ret tt)
    (fun a => bind (readArray a) newArray)
    (ret None)
    (ret None)
    (fun a _ => ret a)
    params i.

(** The last payload of what [runReplyAgent] returned. *)
Definition lastPayloadOf (r : ReplyResult) : option ReplyPayload :=
  match r with
  | ReplyUndefined => None
  | ReplyOne p => Some p
  | ReplyMany ps => last ps
  end.

(** [demoParamsIdle] with verbose mode switched off. *)
Definition demoParamsQuiet : RunParams :=
  {| commandBody := commandBody demoParams; queueKey := queueKey demoParams;
     resolvedQueue := resolvedQueue demoParams;
     shouldSteer := false; shouldFollowup := false; isActive := false; isStreaming := false;
     sessionKey := sessionKey demoParams; storePath := storePath demoParams;
     resolvedVerboseLevel := lit "off"; shouldInjectGroupIntro := false;
     sessionCtx_MessageThreadId := None; cfg := cfg demoParams;
     hasOnBlockReply := false |}.

(** The new-session hint line. *)
Definition newSessionHint (sessionId : jsstring) : ReplyPayload :=
  textPayload ([0xD83E; 0xDDED]%N ++ lit " New session: " ++ sessionId).

(** ** Delivery: what was sent *)

(** The reply target of every message that went out ([sendMessage] and media
    sends that returned), in order. *)
Definition sentTargets (effects : list DeliveryEffect) : list (option Z) :=
  omap (fun e =>
          match e with
          | BotSendMessage call (Sent _) => Some (sm_reply_to_message_id call)
          | BotSendMedia call true => Some (mc_reply_to_message_id call)
          | _ => None
          end) effects.


(** The last message sent to the chat, if any, is not a status message. *)
Definition noStatusToEdit (chatId : jsstring) (st : DeliveryState) : Prop :=
  match getLastSentMessage chatId (sentMessages st) with
  | Some ls => ls_isStatus ls = false
  | None => True
  end.


(** ** A concrete delivery *)

(** Stand-in for [resolveTelegramReplyId]: the decimal value of the id. *)
Definition demoResolveReplyId (raw : option jsstring) : option Z :=
  match truthyStr raw with
  | Some s => Some (fold_left (fun acc c => acc * 10 + (Z.of_N c - 48)) s 0)
  | None => None
  end.

Definition demoChunks (markdown : jsstring) (limit : Z) (tableMode : option jsstring)
    : list Chunk :=
  [{| html := markdown; chunk_text := markdown |}].

Definition demoDeliveryParams (mode : ReplyToMode) : DeliveryParams :=
  {| chatId := lit "42"; token := lit "tok"; accountId := None; runtime_hasLog := true;
     replyToMode := mode; textLimit := 4000; messageThreadId := None; tableMode := None;
     chunkMode := None; hasOnVoiceRecording := false; linkPreview := None |}.

(** [deliverReplies] in a world where the clock reads 100000, every call
    succeeds and message ids count up from 100. *)
Definition demoDeliverReplies (mode : ReplyToMode) (replies : list ReplyPayload)
    : Deliv unit :=
  deliverReplies
    (fun _ => 100000)
    (fun _ _ _ _ => true)
    (fun t _ _ _ => Some (100 + Z.of_nat t))
    (fun t _ => Sent (100 + Z.of_nat t))
    (fun _ _ => true)
    (fun _ _ => None)
    (fun _ => true)
    demoResolveReplyId
    (fun thread => thread)
    (fun markdown _ _ => [markdown])
    demoChunks
    (fun markdown _ => markdown)
    (fun markdown _ => markdown)
    (fun caption => (caption, None))
    (fun _ => kind_other)
    (fun _ _ => false)
    (fun wantsVoice _ _ => wantsVoice)
    (demoDeliveryParams mode)
    replies.

(** A text reply to message 77. *)
Definition demoReply (body : string) : ReplyPayload :=
  {| text := Some (lit body); mediaUrl := None; mediaUrls := None;
     replyToId := Some (lit "77"); isStatusMessage := None; audioAsVoice := None;
     editMessageId := None |}.


(** Nothing sent yet. *)
Definition demoDeliveryState : DeliveryState :=
  {| hasReplied := false; sentMessages := ∅; ticks := 0 |}.

(** The status message 5 was sent to the chat one second ago. *)
Definition demoDeliveryStateAfterStatus : DeliveryState :=
  {| hasReplied := false;
     sentMessages :=
       {[ lit "42" := {| messageIds := {[ 5 ]}; timestamps := {[ 5 := 99000 ]};
                         lastSent := Some {| ls_messageId := 5; ls_timestamp := 99000;
                                             ls_isStatus := true |} |} ]};
     ticks := 0 |}.

(** A payload that asks for a voice note but has neither text nor media yet,
    and a payload with nothing at all. *)
Definition voicePlaceholder : ReplyPayload :=
  {| text := None; mediaUrl := None; mediaUrls := None; replyToId := None;
     isStatusMessage := None; audioAsVoice := Some true; editMessageId := None |}.

Definition emptyPayload : ReplyPayload :=
  {| text := None; mediaUrl := None; mediaUrls := None; replyToId := None;
     isStatusMessage := None; audioAsVoice := None; editMessageId := None |}.



(* ===================================================================== *)
(** * Life cycle of a controller *)
(* ===================================================================== *)

(** One call on a controller: a public method, or the interval callback. *)
Inductive ControllerCall : Type :=
  | CallStart
  | CallSetPhase (p : StatusPhase)
  | CallTimerTick
  | CallComplete (finalText : option jsstring)
  | CallCleanup.

(** The call, with the clock reading and the outcome of the callback it may
    await. *)
Definition runCall (now : Z) (resp : Awaited) (call : ControllerCall)
    : StatusUpdateController.M unit :=
  match call with
  | CallStart => StatusUpdateController.start now resp
  | CallSetPhase p => StatusUpdateController.setPhase now resp p
  | CallTimerTick => StatusUpdateController.timerTick now resp
  | CallComplete finalText =>
      bind (StatusUpdateController.complete now resp finalText) (fun _ => ret tt)
  | CallCleanup => StatusUpdateController.cleanup resp
  end.

Fixpoint runCalls (calls : list (Z * Awaited * ControllerCall))
    : StatusUpdateController.M unit :=
  match calls with
  | [] => ret tt
  | (now, resp, call) :: rest => bind (runCall now resp call) (fun _ => runCalls rest)
  end.

(** The timer is armed only on an enabled controller that shows the elapsed
    time. *)
Definition timerJustified (c : StatusUpdateController.t) : Prop :=
  StatusUpdateController.updateTimer c = true ->
  StatusUpdateController.isEnabled c = true
  /\ showElapsedTime (StatusUpdateController.config c) = true.

(** The phase is [complete] only on a controller marked complete. *)
Definition completeIsMarked (c : StatusUpdateController.t) : Prop :=
  phase (StatusUpdateController.state c) = StatusPhase.complete ->
  isComplete (StatusUpdateController.state c) = true.

(** [text] is the status line of a phase other than [complete]. *)
Definition progressText (config : ResolvedConfig) (text : jsstring) : Prop :=
  exists (p : StatusPhase) (elapsedSeconds : Z),
    p <> StatusPhase.complete /\ text = formatStatusMessage p elapsedSeconds config.

(** The status texts a log shows as rendered, in order. *)
Definition renderedTexts (effects : list StatusEffect) : list jsstring :=
  omap (fun e => match e with SendStatus text _ => Some text | _ => None end) effects.

Definition isCallStart (call : ControllerCall) : bool :=
  match call with CallStart => true | _ => false end.

(** The event that ends an agent run. *)
Definition lifecycleEnd : AgentEvent :=
  {| stream := lit "lifecycle"; data_phase := Some (lit "end") |}.

(** A run context whose controller, if any, no longer reacts to [setPhase]. *)
Definition quietContext (ctx : StatusUpdateRunContext) : Prop :=
  forall c, controller ctx = Some c -> live c = false.

(** While the controller reacts to [setPhase], neither its phase nor the
    phase the context tracks is [complete]. *)
Definition trackedContext (ctx : StatusUpdateRunContext) : Prop :=
  forall c, controller ctx = Some c -> live c = true ->
    phase (StatusUpdateController.state c) <> StatusPhase.complete
    /\ currentPhase ctx <> StatusPhase.complete.

(* ===================================================================== *)
(** * Calls that overlap *)
(* ===================================================================== *)

(** The controller with the calls that are parked at an [await]. *)
Definition Loop : Type :=
  StatusUpdateController.t * list StatusUpdateController.Suspended.

(** What happens next: a method is called (or the interval fires) and runs
    to its first [await], or the parked call number [n] goes on, the
    callback it waits for having settled as [resp]. *)
Inductive LoopStep : Type :=
  | Enters (call : ControllerCall)
  | Resumes (n : nat) (resp : Awaited).

(** A call up to its first [await]. *)
Definition enter (now : Z) (call : ControllerCall)
    : StatusUpdateController.M (option StatusUpdateController.Suspended) :=
  match call with
  | CallStart => StatusUpdateController.startBegin now
  | CallSetPhase p => StatusUpdateController.setPhaseBegin now p
  | CallTimerTick => StatusUpdateController.timerTickBegin now
  | CallComplete finalText =>
      bind (StatusUpdateController.completeBegin now finalText) (fun r => ret r.2)
  | CallCleanup => StatusUpdateController.cleanupBegin
  end.

Definition loopStep (now : Z) (s : LoopStep) : Prog Loop StatusEffect unit :=
  fun w =>
    match s with
    | Enters call =>
        let '(parked, c, l) := enter now call w.1 in
        (tt, (c, w.2 ++ option_list parked), l)
    | Resumes n resp =>
        match w.2 !! n with
        | None => (tt, w, [])
        | Some k =>
            let '(next, c, l) := StatusUpdateController.resume k resp w.1 in
            (tt, (c, delete n w.2 ++ option_list next), l)
        end
    end.

Fixpoint loopSteps (steps : list (Z * LoopStep)) : Prog Loop StatusEffect unit :=
  match steps with
  | [] => ret tt
  | (now, s) :: rest => bind (loopStep now s) (fun _ => loopSteps rest)
  end.

(** The callbacks a log shows as invoked: [sendStatus] and [deleteStatus]. *)
Definition outboundCalls (effects : list StatusEffect) : list StatusEffect :=
  omap (fun e => match e with
                 | SendStatus _ _ | DeleteStatus _ => Some e
                 | _ => None
                 end) effects.

(** [k] is what is left of a call of [start]. *)
Definition ofStart (k : StatusUpdateController.Suspended) : Prop :=
  match k with
  | StatusUpdateController.AwaitSendStatus _ true
  | StatusUpdateController.AwaitSendUpdate => True
  | _ => False
  end.

(** A parked [start] is there only on an enabled controller. *)
Definition startJustified (w : Loop) : Prop :=
  (exists k, k ∈ w.2 /\ ofStart k) -> StatusUpdateController.isEnabled w.1 = true.

(** ** The same for a run context

    The run context with the calls on its controller that are parked. *)
Definition RunLoop : Type :=
  StatusUpdateRunContext * list StatusUpdateController.Suspended.

(** What happens in a run after [createStatusUpdateRunContext]: an agent
    event reaches the listener, which calls [handleAgentEventForStatus];
    the interval fires; a parked call goes on; the runner has [complete] or
    [cleanup] called on the controller (by [completeStatusUpdate] and
    [cleanupStatusUpdate]; a step shows what the controller does, the trace
    lines of these two functions are left out). *)
Inductive RunLoopStep : Type :=
  | EventArrives (event : AgentEvent)
  | TimerFires
  | ParkedResumes (n : nat) (resp : Awaited)
  | RunnerCompletes (finalText : option jsstring)
  | RunnerCleansUp.

(** A step of the controller, in the context that holds it. *)
Definition onControllerLoop (now : Z) (s : LoopStep)
    : Prog RunLoop AgentEventEffect unit :=
  fun w =>
    match controller w.1 with
    | None => (tt, w, [])
    | Some c =>
        let '(_, (c', parked), l) := loopStep now s (c, w.2) in
        (tt, (set_controller (Some c') w.1, parked), ByController <$> l)
    end.

Definition runLoopStep (now : Z) (s : RunLoopStep) : Prog RunLoop AgentEventEffect unit :=
  match s with
  | EventArrives event =>
      fun w =>
        let '(parked, ctx, l) := handleAgentEventForStatus now event w.1 in
        (tt, (ctx, w.2 ++ option_list parked), l)
  | TimerFires => onControllerLoop now (Enters CallTimerTick)
  | ParkedResumes n resp => onControllerLoop now (Resumes n resp)
  | RunnerCompletes finalText => onControllerLoop now (Enters (CallComplete finalText))
  | RunnerCleansUp => onControllerLoop now (Enters CallCleanup)
  end.

Fixpoint runLoopSteps (steps : list (Z * RunLoopStep))
    : Prog RunLoop AgentEventEffect unit :=
  match steps with
  | [] => ret tt
  | (now, s) :: rest => bind (runLoopStep now s) (fun _ => runLoopSteps rest)
  end.

(** The run context as [createStatusUpdateRunContext] returns it, with the
    [start()] it has called and not awaited. *)
Definition startRunLoop (now : Z) (c : option StatusUpdateController.t) : RunLoop :=
  let '(ctx, parked, _) := createStatusUpdateRunContext now c in
  (ctx, option_list parked).

(** The step of the controller that a step of the run comes down to, if
    any: [setPhase] for an event that changes the tracked phase. *)
Definition controllerStepOf (ctx : StatusUpdateRunContext) (s : RunLoopStep)
    : option LoopStep :=
  match s with
  | EventArrives event =>
      match mapAgentEventToPhase event with
      | Some p =>
          if bool_decide (p = currentPhase ctx) then None else Some (Enters (CallSetPhase p))
      | None => None
      end
  | TimerFires => Some (Enters CallTimerTick)
  | ParkedResumes n resp => Some (Resumes n resp)
  | RunnerCompletes finalText => Some (Enters (CallComplete finalText))
  | RunnerCleansUp => Some (Enters CallCleanup)
  end.

(** The phase the context tracks after a step of the run. *)
Definition trackedPhaseAfter (ctx : StatusUpdateRunContext) (s : RunLoopStep)
    : StatusPhase :=
  match s with
  | EventArrives event => default (currentPhase ctx) (mapAgentEventToPhase event)
  | _ => currentPhase ctx
  end.

(** In a run, the interval and a parked [start] are there only on an
    enabled controller. *)
Definition justifiedRun (w : RunLoop) : Prop :=
  forall c, controller w.1 = Some c -> timerJustified c /\ startJustified (c, w.2).

(** The texts handed to [sendStatus], in order. *)
Definition sentTexts (effects : list AgentEventEffect) : list jsstring :=
  omap (fun e => match e with
                 | ByController (SendStatus text _) => Some text
                 | _ => None
                 end) effects.

(** A line that [handleAgentEventForStatus] logs itself. *)
Definition ownLogLine (e : AgentEventEffect) : Prop :=
  match e with
  | ByController _ => False
  | _ => True
  end.

(* ===================================================================== *)
(** * Use of the sent-message cache *)
(* ===================================================================== *)

(** One call on the cache, with the clock readings it takes. *)
Inductive CacheCall : Type :=
  | CallRecordSentMessage (chatId : jsstring) (messageId : Z) (isStatus : bool) (now now' : Z)
  | CallInvalidateLastStatus (chatId : jsstring)
  | CallWasSentByBot (chatId : jsstring) (messageId : Z) (now : Z)
  | CallClearSentMessageCache.

Definition runCacheCall (sentMessages : gmap jsstring CacheEntry) (call : CacheCall)
    : gmap jsstring CacheEntry :=
  match call with
  | CallRecordSentMessage chatId messageId isStatus now now' =>
      recordSentMessage chatId messageId isStatus now now' sentMessages
  | CallInvalidateLastStatus chatId => invalidateLastStatus chatId sentMessages
  | CallWasSentByBot chatId messageId now => (wasSentByBot chatId messageId now sentMessages).2
  | CallClearSentMessageCache => clearSentMessageCache
  end.

(** In every entry the set of ids and the table of timestamps name the same
    messages. *)
Definition cacheConsistent (sentMessages : gmap jsstring CacheEntry) : Prop :=
  forall key entry, sentMessages !! key = Some entry ->
    dom (timestamps entry) = messageIds entry.

(* ===================================================================== *)
(** * Reply threading of a delivery *)
(* ===================================================================== *)

(** Every effect a program may log satisfies [P], from every state. *)
Definition effectsAll {S E A} (P : E -> Prop) (m : ProgE S E A) : Prop :=
  forall st, Forall P (effects_of (m st)).

(** A call to the bot API that names no message to reply to. *)
Definition noReplyTarget (e : DeliveryEffect) : Prop :=
  match e with
  | BotSendMessage call _ => sm_reply_to_message_id call = None
  | BotSendMedia call _ => mc_reply_to_message_id call = None
  | _ => True
  end.

(** How many of the messages that went out carry a reply target. *)
Definition threadedCount (effects : list DeliveryEffect) : nat :=
  length (omap (fun target : option Z => target) (sentTargets effects)).

(** A step that sends nothing with a reply target and leaves [hasReplied]. *)
Definition threadNeutral {A} (m : Deliv A) : Prop :=
  forall st,
    threadedCount (effects_of (m st)) = 0%nat
    /\ hasReplied (state_of (m st)) = hasReplied st.

(** A send: it leaves [hasReplied]; it carries a reply target on at most one
    message that goes out, and only when it is given one and does not throw. *)
Definition threadedSend {A} (target : option Z) (m : Deliv A) : Prop :=
  forall st,
    hasReplied (state_of (m st)) = hasReplied st
    /\ (threadedCount (effects_of (m st))
        <= match target, result_of (m st) with
           | Some _, Some _ => 1
           | _, _ => 0
           end)%nat.

(** A step that keeps the threading budget of mode "first": a message with a
    reply target goes out only while [hasReplied] is unset, and sets it. *)
Definition threadBudget {A} (m : Deliv A) : Prop :=
  forall st,
    (threadedCount (effects_of (m st)) + Nat.b2n (hasReplied st)
     <= Nat.b2n (hasReplied (state_of (m st))))%nat.

(** [{ text, isStatusMessage: true }] *)
Definition statusPayload (t : jsstring) : ReplyPayload :=
  {| text := Some t; mediaUrl := None; mediaUrls := None; replyToId := None;
     isStatusMessage := Some true; audioAsVoice := None; editMessageId := None |}.

(** An effect other than an edit of a message. *)
Definition notAnEdit (e : DeliveryEffect) : Prop :=
  match e with
  | EditMessageTelegram _ _ _ _ => False
  | _ => True
  end.

(** [demoDeliverReplies] in a world where every media url loads as a PNG
    image. *)
Definition demoDeliverMedia (mode : ReplyToMode) (replies : list ReplyPayload)
    : Deliv unit :=
  deliverReplies
    (fun _ => 100000)
    (fun _ _ _ _ => true)
    (fun t _ _ _ => Some (100 + Z.of_nat t))
    (fun t _ => Sent (100 + Z.of_nat t))
    (fun _ _ => true)
    (fun _ _ => Some {| media_buffer := [137; 80; 78; 71]%N;
                        media_contentType := Some (lit "image/png");
                        media_fileName := None |})
    (fun _ => true)
    demoResolveReplyId
    (fun thread => thread)
    (fun markdown _ _ => [markdown])
    demoChunks
    (fun markdown _ => markdown)
    (fun markdown _ => markdown)
    (fun caption => (caption, None))
    (fun _ => kind_image)
    (fun _ _ => false)
    (fun wantsVoice _ _ => wantsVoice)
    (demoDeliveryParams mode)
    replies.

(** A reply to message 77 with a caption and two pictures. *)
Definition demoMediaReply : ReplyPayload :=
  {| text := Some (lit "look"); mediaUrl := None;
     mediaUrls := Some [lit "https://example.org/a.png"; lit "https://example.org/b.png"];
     replyToId := Some (lit "77"); isStatusMessage := None; audioAsVoice := None;
     editMessageId := None |}.

(** [demoParams] for a message that also asks for a follow-up turn. *)
Definition demoParamsFollowup : RunParams :=
  {| commandBody := commandBody demoParams; queueKey := queueKey demoParams;
     resolvedQueue := resolvedQueue demoParams;
     shouldSteer := true; shouldFollowup := true; isActive := true; isStreaming := true;
     sessionKey := sessionKey demoParams; storePath := storePath demoParams;
     resolvedVerboseLevel := lit "on"; shouldInjectGroupIntro := false;
     sessionCtx_MessageThreadId := None; cfg := cfg demoParams;
     hasOnBlockReply := false |}.


(** [demoState] with a second session in the store. *)
Definition demoTwoSessions : RunState :=
  set_durableStore
    (<[ lit "agent:main:43" := with_updatedAt 7 demoEntry ]> (durableStore demoState))
    (set_session (activeSessionEntry demoState)
       (Some (<[ lit "agent:main:43" := with_updatedAt 7 demoEntry ]>
                {[ lit "agent:main:42" := demoEntry ]}))
       demoState).

(* ===================================================================== *)
(** * More of JavaScript: strings and numbers *)
(* ===================================================================== *)

From Stdlib Require QArith.QArith_base QArith.Qround DecimalPos DecimalZ.

(** [s.trimStart()] *)
Fixpoint trimStart (s : jsstring) : jsstring :=
  match s with
  | [] => []
  | c :: r => if isWhiteSpace c then trimStart r else s
  end.

(** [s.trim()] *)
Definition trim (s : jsstring) : jsstring := trimStart (trimEnd s).

(** [s.startsWith(search)] *)
Definition startsWith (s search : jsstring) : bool :=
  bool_decide (take (length search) s = search).

(** A JavaScript number: NaN, an infinity, or a finite value (every finite
    double is a rational). *)
Inductive jsnumber : Type :=
  | NumNaN
  | NumInfinity (negative : bool)
  | NumFinite (q : QArith_base.Q).

(** [Number.isFinite(x)] *)
Definition isFiniteNumber (x : jsnumber) : bool :=
  match x with
  | NumFinite _ => true
  | _ => false
  end.

(** [Math.trunc(q)] for a finite [q]: rounding towards zero. *)
Definition mathTrunc (q : QArith_base.Q) : Z :=
  if QArith_base.Qle_bool (QArith_base.inject_Z 0) q
  then Qround.Qfloor q else Qround.Qceiling q.

(* ===================================================================== *)
(** * telegram/outbound-status.ts *)
(* ===================================================================== *)

(** [isTelegramHourglassStatusText]: the text, once leading white space is
    dropped, starts with the hourglass U+23F3. *)
Definition isTelegramHourglassStatusText (text : option jsstring) : bool :=
  startsWith (trimStart (default [] text)) [0x23F3%N].

(** [buildTelegramHourglassKey]; a thread id is an integer. *)
Definition buildTelegramHourglassKey (chatId : jsstring) (messageThreadId : option Z)
    : jsstring :=
  let threadPart :=
    match messageThreadId with
    | None => []
    | Some n => numToString n
    end in
  chatId ++ lit "|" ++ threadPart.

(** Outbound calls and log lines of the hourglass tracker. *)
Inductive HourglassEffect : Type :=
  | ApiDeleteMessage (chatId : jsstring) (messageId : Z) (ok : bool)
  | HourglassLogDeleting (messageId : Z) (chatId : jsstring)
  | HourglassLogFailed (messageId : Z) (chatId : jsstring).

(** The state is the module-level map [lastHourglassByTarget]. *)
Abbreviation Hourglass := (Prog (gmap jsstring Z) HourglassEffect).

(** [deletePriorTelegramHourglass]; [deleted] tells whether the awaited
    [api.deleteMessage] resolves. ([params.log] itself is taken not to
    throw.) *)
Definition deletePriorTelegramHourglass
    (hasLog : bool) (chatId key : jsstring) (deleted : bool) : Hourglass unit :=
  (let* lastHourglassByTarget := get in
   match lastHourglassByTarget !! key with
   | None => ret tt
   | Some prior =>
       if prior =? 0 then ret tt else
       modify (delete key) ;;;
       (if hasLog then emit (HourglassLogDeleting prior chatId) else ret tt) ;;;
       emit (ApiDeleteMessage chatId prior deleted) ;;;
       if deleted then ret tt
       else if hasLog then emit (HourglassLogFailed prior chatId) else ret tt
   end)%prog.

(** [trackTelegramHourglass] *)
Definition trackTelegramHourglass (key : jsstring) (messageId : jsnumber) : Hourglass unit :=
  match messageId with
  | NumFinite q =>
      if QArith_base.Qle_bool q (QArith_base.inject_Z 0) then ret tt
      else modify (<[key := mathTrunc q]>)
  | _ => ret tt
  end.

(** [clearTelegramHourglass] *)
Definition clearTelegramHourglass (key : jsstring) : Hourglass unit :=
  modify (delete key).

(** The [deleteMessage] calls of a log: chat and message id, in order. *)
Definition apiDeletes (effects : list HourglassEffect) : list (jsstring * Z) :=
  omap (fun e =>
          match e with
          | ApiDeleteMessage chatId messageId _ => Some (chatId, messageId)
          | _ => None
          end) effects.

(* ===================================================================== *)
(** * slack/actions.ts *)
(* ===================================================================== *)

(** [s.replace(/^:+|:+$/g, "")]: the colons at the start go, then the
    colons at the end. *)
Fixpoint dropLeadingColons (s : jsstring) : jsstring :=
  match s with
  | [] => []
  | c :: r => if (c =? 58)%N then dropLeadingColons r else s
  end.

Fixpoint dropTrailingColons (s : jsstring) : jsstring :=
  match s with
  | [] => []
  | c :: r =>
      match dropTrailingColons r with
      | [] => if (c =? 58)%N then [] else [c]
      | r' => c :: r'
      end
  end.

Inductive SlackError : Type :=
  | SlackTokenRequired
  | SlackEmojiRequired
  | SlackApiError.

(** [normalizeEmoji] *)
Definition normalizeEmoji (raw : jsstring) : SlackError + jsstring :=
  let trimmed := trim raw in
  match trimmed with
  | [] => inl SlackEmojiRequired
  | _ => inr (dropTrailingColons (dropLeadingColons trimmed))
  end.

(** Calls to the Slack Web API. *)
Inductive SlackCall : Type :=
  | ReactionsAdd (channel timestamp name : jsstring)
  | ChatUpdate (channel ts text : jsstring)
  | ChatDelete (channel ts : jsstring).

(** What [deleteStatusMessage] does to the outside. *)
Inductive StatusDeleteEffect : Type :=
  | DeleteMessageTelegram (to messageId : jsstring) (ok : bool)
  | DeleteMessageDiscord (to messageId : jsstring) (ok : bool)
  | SlackAction (call : SlackCall) (ok : bool)
  | StatusDeleteLog (message : jsstring).

Section SlackActions.

(** [resolveSlackBotToken] (slack/token), whose code is not at hand, and
    the two places a token is looked up when none is passed:
    [process.env.SLACK_BOT_TOKEN] and [loadConfig().slack?.botToken]. *)
Variable resolveSlackBotToken : option jsstring -> option jsstring.
Variable envToken : option jsstring.
Variable cfgToken : option jsstring.

(** [resolveToken]: [a ?? b] is [a] unless [a] is null or undefined; the
    resolved token must be truthy. *)
Definition resolveToken (explicit : option jsstring) : SlackError + jsstring :=
  let raw :=
    match explicit with
    | Some t => Some t
    | None =>
        match envToken with
        | Some t => Some t
        | None => cfgToken
        end
    end in
  match truthyStr (resolveSlackBotToken raw) with
  | Some token => inr token
  | None => inl SlackTokenRequired
  end.

(** An action: [getClient(opts)], then the arguments of the API call, then
    the call, whose outcome is [ok]. The result is the error thrown, if any;
    the log holds the call when it was made. *)
Definition reactSlackMessage (channelId messageId emoji : jsstring)
    (token : option jsstring) (ok : bool) : option SlackError * list SlackCall :=
  match resolveToken token with
  | inl e => (Some e, [])
  | inr _ =>
      match normalizeEmoji emoji with
      | inl e => (Some e, [])
      | inr name =>
          (if ok then None else Some SlackApiError,
           [ReactionsAdd channelId messageId name])
      end
  end.

Definition editSlackMessage (channelId messageId content : jsstring)
    (token : option jsstring) (ok : bool) : option SlackError * list SlackCall :=
  match resolveToken token with
  | inl e => (Some e, [])
  | inr _ =>
      (if ok then None else Some SlackApiError, [ChatUpdate channelId messageId content])
  end.

Definition deleteSlackMessage (channelId messageId : jsstring)
    (token : option jsstring) (ok : bool) : option SlackError * list SlackCall :=
  match resolveToken token with
  | inl e => (Some e, [])
  | inr _ => (if ok then None else Some SlackApiError, [ChatDelete channelId messageId])
  end.

(* ===================================================================== *)
(** * deleteStatusMessage *)
(* ===================================================================== *)

(** [deleteStatusMessage(channel, to, messageId)]; [ok] is the outcome of
    the one delete call it may await. [deleteMessageTelegram] and
    [deleteMessageDiscord] are not at hand: each is one call that resolves
    or throws. (The text of the caught error is left out of the log line.) *)
Definition deleteStatusMessage (channel to messageId : jsstring) (ok : bool)
    : bool * list StatusDeleteEffect :=
  let failed :=
    StatusDeleteLog (lit "[status-message] Failed to delete messageId=" ++ messageId
                     ++ lit " channel=" ++ channel ++ lit " to=" ++ to) in
  if bool_decide (channel = lit "telegram") then
    if ok
    then (true, [DeleteMessageTelegram to messageId true;
                 StatusDeleteLog (lit "[status-message] Deleted telegram message "
                                  ++ messageId ++ lit " (" ++ to ++ lit ")")])
    else (false, [DeleteMessageTelegram to messageId false; failed])
  else if bool_decide (channel = lit "discord") then
    if ok
    then (true, [DeleteMessageDiscord to messageId true;
                 StatusDeleteLog (lit "[status-message] Deleted discord message "
                                  ++ messageId ++ lit " (" ++ to ++ lit ")")])
    else (false, [DeleteMessageDiscord to messageId false; failed])
  else if bool_decide (channel = lit "slack") then
    match deleteSlackMessage to messageId None ok with
    | (None, calls) =>
        (true, ((fun call => SlackAction call true) <$> calls)
               ++ [StatusDeleteLog (lit "[status-message] Deleted slack message "
                                    ++ messageId ++ lit " (" ++ to ++ lit ")")])
    | (Some _, calls) =>
        (false, ((fun call => SlackAction call false) <$> calls) ++ [failed])
    end
  else
    (false, [StatusDeleteLog (lit "[status-message] Delete unsupported for channel="
                              ++ channel)]).

End SlackActions.

(** The delete calls of a log that reached a platform. *)
Definition platformDeletes (effects : list StatusDeleteEffect) : list StatusDeleteEffect :=
  omap (fun e => match e with StatusDeleteLog _ => None | _ => Some e end) effects.

(** One delete call that went through. *)
Definition deleteSucceeded (e : StatusDeleteEffect) : bool :=
  match e with
  | DeleteMessageTelegram _ _ ok => ok
  | DeleteMessageDiscord _ _ ok => ok
  | SlackAction _ ok => ok
  | StatusDeleteLog _ => false
  end.

(** One call on the hourglass tracker. *)
Inductive HourglassCall : Type :=
  | CallTrack (key : jsstring) (messageId : jsnumber)
  | CallDeletePrior (hasLog : bool) (chatId key : jsstring) (deleted : bool)
  | CallClear (key : jsstring).

Definition runHourglassCall (call : HourglassCall) : Hourglass unit :=
  match call with
  | CallTrack key messageId => trackTelegramHourglass key messageId
  | CallDeletePrior hasLog chatId key deleted =>
      deletePriorTelegramHourglass hasLog chatId key deleted
  | CallClear key => clearTelegramHourglass key
  end.

Fixpoint runHourglassCalls (calls : list HourglassCall) : Hourglass unit :=
  match calls with
  | [] => ret tt
  | call :: rest => bind (runHourglassCall call) (fun _ => runHourglassCalls rest)
  end.

(* ===================================================================== *)
(** * config/schema.ts: hints for sensitive fields *)
(* ===================================================================== *)

Record ConfigUiHint : Type := {
  hint_label : option jsstring;
  hint_help : option jsstring;
  hint_group : option jsstring;
  hint_order : option Z;
  hint_advanced : option bool;
  hint_sensitive : option bool;
  hint_placeholder : option jsstring;
  hint_itemTemplate : option jsstring;
}.

(** [{ ...hint, sensitive: true }] *)
Definition with_sensitive (h : ConfigUiHint) : ConfigUiHint :=
  {| hint_label := hint_label h; hint_help := hint_help h; hint_group := hint_group h;
     hint_order := hint_order h; hint_advanced := hint_advanced h;
     hint_sensitive := Some true; hint_placeholder := hint_placeholder h;
     hint_itemTemplate := hint_itemTemplate h |}.

(** Matching under the flag [i] without the flag [u]: a code unit is
    compared through its upper-case form, and a code unit outside ASCII
    never matches an ASCII letter. For the ASCII patterns used here this is
    equality up to the case of ASCII letters. *)
Definition canonicalize (c : N) : N :=
  if ((97 <=? c) && (c <=? 122))%N then (c - 32)%N else c.

(** The pattern matches at the start of [s]. *)
Definition matchesHere (pattern : string) (s : jsstring) : bool :=
  bool_decide (canonicalize <$> take (length (lit pattern)) s = canonicalize <$> lit pattern).

(** LineTerminator code points, which [.] does not match. *)
Definition isLineTerminator (c : N) : bool :=
  ((c =? 10) || (c =? 13) || (c =? 8232) || (c =? 8233))%N.

(** [/api.?key/i] at the start of [s]. *)
Definition matchesApiKeyHere (s : jsstring) : bool :=
  matchesHere "api" s
  && (matchesHere "key" (drop 3 s)
      || match drop 3 s with
         | c :: r => negb (isLineTerminator c) && matchesHere "key" r
         | [] => false
         end).

(** [pattern.test(s)] for a pattern without anchors: a match at some
    position. *)
Fixpoint testAnywhere (here : jsstring -> bool) (s : jsstring) : bool :=
  here s || match s with
            | [] => false
            | _ :: r => testAnywhere here r
            end.

(** [SENSITIVE_PATTERNS.some((pattern) => pattern.test(path))] *)
Definition isSensitivePath (path : jsstring) : bool :=
  testAnywhere (matchesHere "token") path
  || testAnywhere (matchesHere "password") path
  || testAnywhere (matchesHere "secret") path
  || testAnywhere matchesApiKeyHere path.

(** [ConfigUiHints] is a record from paths to hints. *)
Definition applySensitiveHints (hints : gmap jsstring ConfigUiHint)
    : gmap jsstring ConfigUiHint :=
  map_imap (fun key hint => Some (if isSensitivePath key then with_sensitive hint else hint))
    hints.

(** A hint with a label only. *)
Definition demoHint : ConfigUiHint :=
  {| hint_label := Some (lit "Slack Bot Token"); hint_help := None; hint_group := None;
     hint_order := None; hint_advanced := None; hint_sensitive := None;
     hint_placeholder := None; hint_itemTemplate := None |}.
(* ===================================================================== *)
(** * Facts about JavaScript strings *)
(* ===================================================================== *)

(** Unfold the plumbing of [Prog]. *)
Ltac run_prog :=
  unfold result_of, state_of, effects_of, bind, ret, get, modify, emit in *; simpl in *.

#[local] Set Warnings "-clear-no-such-hyp".

(** String literals stay folded while proofs simplify. *)
#[global] Opaque lit.

Section JSFacts.

Implicit Types s t : jsstring.

Lemma trimEnd_app_keep s (c : N) :
  isWhiteSpace c = false -> trimEnd (s ++ [c]) = s ++ [c].
Proof.
  intros Hc. induction s as [|a s IH]; simpl.
  - by rewrite Hc.
  - rewrite IH. destruct (s ++ [c]) eqn:E; [|done].
    by destruct s.
Qed.

Lemma trimEnd_app_keeps s t (c : N) :
  isWhiteSpace c = false -> trimEnd (s ++ t ++ [c]) = s ++ t ++ [c].
Proof. intros Hc. rewrite app_assoc. by apply trimEnd_app_keep. Qed.

Lemma endsWith_app s (search : jsstring) : endsWith (s ++ search) search = true.
Proof.
  unfold endsWith. rewrite length_app.
  apply andb_true_intro; split.
  - apply Nat.leb_le. lia.
  - apply bool_decide_eq_true.
    replace (length s + length search - length search)%nat with (length s) by lia.
    by rewrite drop_app_length.
Qed.

(** Two decimal digits for a number of seconds below sixty. *)
Lemma padded_seconds (r : Z) :
  0 <= r < 60 ->
  padStart 2 48%N (numToString r) = [digit (r / 10); digit (r mod 10)].
Proof.
  intros Hr.
  assert (Hcases : Forall (fun k =>
            padStart 2 48%N (numToString k) = [digit (k / 10); digit (k mod 10)])
            (Z.of_nat <$> seq 0 60)).
  { vm_compute. repeat constructor. }
  rewrite Forall_forall in Hcases. apply Hcases.
  apply list_elem_of_fmap. exists (Z.to_nat r). split; [lia|].
  apply elem_of_seq. lia.
Qed.

End JSFacts.

(* ===================================================================== *)
(** * Status text and completion mark *)
(* ===================================================================== *)

Section StatusText.

Lemma PHASE_EMOJI_nonempty (p : StatusPhase) : PHASE_EMOJI p <> [].
Proof. by destruct p. Qed.

Lemma formatElapsedTime_nonneg (seconds : Z) :
  0 <= seconds ->
  formatElapsedTime seconds =
    numToString (seconds / 60) ++ lit ":"
    ++ [digit (seconds mod 60 / 10); digit (seconds mod 60 mod 10)].
Proof.
  intros Hs. unfold formatElapsedTime. cbv zeta.
  rewrite Z.rem_mod_nonneg by lia.
  rewrite padded_seconds; [done|].
  apply Z.mod_pos_bound. lia.
Qed.

Lemma formatStatusMessage_cases (phase : StatusPhase) (seconds : Z) (config : ResolvedConfig) :
  formatStatusMessage phase seconds config =
    match showPhases config,
          showElapsedTime config && (elapsedTimeThresholdMs config <=? seconds * 1000) with
    | true, true =>
        (PHASE_EMOJI phase ++ lit " " ++ PHASE_MESSAGES phase) ++ lit " "
        ++ (lit "(" ++ formatElapsedTime seconds ++ lit ")")
    | true, false => PHASE_EMOJI phase ++ lit " " ++ PHASE_MESSAGES phase
    | false, true => lit "(" ++ formatElapsedTime seconds ++ lit ")"
    | false, false => lit "Processing..."
    end.
Proof.
  unfold formatStatusMessage.
  destruct (showPhases config);
    destruct (showElapsedTime config && (elapsedTimeThresholdMs config <=? seconds * 1000));
    simpl; try done.
  - pose proof (PHASE_EMOJI_nonempty phase) as Hne.
    destruct (PHASE_EMOJI phase) as [|c e]; [done|]. by simpl.
  - pose proof (PHASE_EMOJI_nonempty phase) as Hne.
    destruct (PHASE_EMOJI phase) as [|c e]; [done|]. by simpl.
Qed.

(** C6. The rendered status text is the phase part (emoji, a space, the
    label) when phases are shown, followed by the parenthesised elapsed
    time when elapsed time is shown and [elapsedSeconds * 1000] has reached
    [elapsedTimeThresholdMs]; the two parts are joined by one space. Below
    the threshold the elapsed part is absent. With neither part enabled the
    text is the literal "Processing...". For a non-negative number of
    seconds the elapsed time reads M:SS, minutes in decimal and seconds on
    two digits. *)
Theorem formatStatusMessage_composition
    (phase : StatusPhase) (elapsedSeconds : Z) (config : ResolvedConfig) :
  formatStatusMessage phase elapsedSeconds config =
    match showPhases config,
          showElapsedTime config
          && (elapsedTimeThresholdMs config <=? elapsedSeconds * 1000) with
    | true, true =>
        (PHASE_EMOJI phase ++ lit " " ++ PHASE_MESSAGES phase) ++ lit " "
        ++ (lit "(" ++ formatElapsedTime elapsedSeconds ++ lit ")")
    | true, false => PHASE_EMOJI phase ++ lit " " ++ PHASE_MESSAGES phase
    | false, true => lit "(" ++ formatElapsedTime elapsedSeconds ++ lit ")"
    | false, false => lit "Processing..."
    end
  /\ (elapsedSeconds * 1000 < elapsedTimeThresholdMs config ->
      formatStatusMessage phase elapsedSeconds config =
        if showPhases config
        then PHASE_EMOJI phase ++ lit " " ++ PHASE_MESSAGES phase
        else lit "Processing...")
  /\ (showPhases config = false -> showElapsedTime config = false ->
      formatStatusMessage phase elapsedSeconds config = lit "Processing...")
  /\ (0 <= elapsedSeconds ->
      formatElapsedTime elapsedSeconds =
        numToString (elapsedSeconds / 60) ++ lit ":"
        ++ [digit (elapsedSeconds mod 60 / 10); digit (elapsedSeconds mod 60 mod 10)]).
Proof.
  repeat split.
  - apply formatStatusMessage_cases.
  - intros Hlt. rewrite formatStatusMessage_cases.
    replace (elapsedTimeThresholdMs config <=? elapsedSeconds * 1000) with false
      by (symmetry; apply Z.leb_gt; lia).
    rewrite andb_false_r. by destruct (showPhases config).
  - intros Hp He. rewrite formatStatusMessage_cases, Hp, He. done.
  - apply formatElapsedTime_nonneg.
Qed.

(** The statement of [formatStatusMessage_composition] at two seconds of
    elapsed time with both parts switched off. *)
Lemma formatStatusMessage_composition_witness :
  formatStatusMessage StatusPhase.processing_tools 2
    {| enabled := true; mode := mode_edit; updateIntervalMs := 5000;
       showPhases := false; showElapsedTime := false;
       markFinalWithCheckmark := true; elapsedTimeThresholdMs := 3000 |}
  = lit "Processing..."
  /\ formatElapsedTime 2 = lit "0:02".
Proof.
  pose (config := {| enabled := true; mode := mode_edit; updateIntervalMs := 5000;
       showPhases := false; showElapsedTime := false;
       markFinalWithCheckmark := true; elapsedTimeThresholdMs := 3000 |}).
  destruct (formatStatusMessage_composition StatusPhase.processing_tools 2 config)
    as (_ & Hbelow & Hnone & Hfmt).
  split.
  - assert (H1 := Hbelow ltac:(simpl; lia)).
    assert (H2 := Hnone eq_refl eq_refl).
    exact H2.
  - rewrite (Hfmt ltac:(lia)). reflexivity.
Defined.

End StatusText.

(* ===================================================================== *)
(** * The embedding on concrete inputs *)
(* ===================================================================== *)

Section Examples.

Example trimEnd_strips_js_whitespace :
  trimEnd (lit "hi" ++ [32; 9; 160; 8239; 10]%N) = lit "hi".
Proof. vm_compute. reflexivity. Qed.

Example trimEnd_keeps_inner_whitespace : trimEnd (lit " a b ") = lit " a b".
Proof. vm_compute. reflexivity. Qed.

Example formatElapsedTime_125 : formatElapsedTime 125 = lit "2:05".
Proof. vm_compute. reflexivity. Qed.

Example formatElapsedTime_3600 : formatElapsedTime 3600 = lit "60:00".
Proof. vm_compute. reflexivity. Qed.

Example formatStatusMessage_below_threshold :
  formatStatusMessage StatusPhase.sending_query 2 (resolveStatusUpdateConfig (Some enabledConfig))
  = [0x23F3%N] ++ lit " Sending query to AI model".
Proof. vm_compute. reflexivity. Qed.

Example formatStatusMessage_at_threshold :
  formatStatusMessage StatusPhase.processing_tools 3 (resolveStatusUpdateConfig (Some enabledConfig))
  = [0xD83D; 0xDD27]%N ++ lit " Executing tools (0:03)".
Proof. vm_compute. reflexivity. Qed.

Example markResponseComplete_marks :
  markResponseComplete (Some (lit "done  ")) (Some enabledConfig)
  = Some (lit "done " ++ checkmark).
Proof. vm_compute. reflexivity. Qed.

Example markResponseComplete_default_config_is_off :
  markResponseComplete (Some (lit "done")) None = Some (lit "done").
Proof. vm_compute. reflexivity. Qed.

Example mapAgentEventToPhase_lifecycle_end :
  mapAgentEventToPhase {| stream := lit "lifecycle"; data_phase := Some (lit "end") |}
  = Some StatusPhase.complete.
Proof. vm_compute. reflexivity. Qed.

Example mapAgentEventToPhase_unmapped :
  mapAgentEventToPhase {| stream := lit "tool"; data_phase := Some (lit "end") |} = None.
Proof. vm_compute. reflexivity. Qed.

(** [start] renders the first phase and arms the timer. *)
Example start_renders_and_arms_timer :
  StatusUpdateController.start 1000 (Resolved (Some (lit "m1"))) freshController
  = (tt,
     StatusUpdateController.set_updateTimer true
       (StatusUpdateController.set_state
          (StatusUpdateController.with_statusMessageId (Some (lit "m1")))
          freshController),
     [SendStatus ([0x23F3%N] ++ lit " Sending query to AI model") None]).
Proof. vm_compute. reflexivity. Qed.

(** Scenario E: with status updates disabled [start] and [setPhase] do
    nothing and [complete("hi")] returns "hi". *)
Example disabled_controller_is_inert :
  StatusUpdateController.start 5 (Resolved None)
    (createStatusUpdateController 0 emptyConfig createInlineStatusCallbacks)
  = (tt, createStatusUpdateController 0 emptyConfig createInlineStatusCallbacks, [])
  /\ StatusUpdateController.setPhase 5 (Resolved None) StatusPhase.processing_tools
       (createStatusUpdateController 0 emptyConfig createInlineStatusCallbacks)
     = (tt, createStatusUpdateController 0 emptyConfig createInlineStatusCallbacks, [])
  /\ result_of (StatusUpdateController.complete 5 (Resolved None) (Some (lit "hi"))
                  (createStatusUpdateController 0 emptyConfig createInlineStatusCallbacks))
     = Some (lit "hi").
Proof. vm_compute. repeat split; reflexivity. Qed.

Example transcriptCandidates_distinct :
  transcriptCandidates (lit "/a") (lit "/b") = [lit "/a"; lit "/b"].
Proof. vm_compute. reflexivity. Qed.

Example transcriptCandidates_same :
  transcriptCandidates (lit "/a") (lit "/a") = [lit "/a"].
Proof. vm_compute. reflexivity. Qed.

(** The test of delivery.test.ts: a payload that only asks for a voice note
    is skipped without a call to [runtime.error]. *)
Example deliverReplies_skips_voice_placeholder :
  demoDeliverReplies reply_off [voicePlaceholder] demoDeliveryState
  = (Some tt, demoDeliveryState,
     [LogVerbose (lit "telegram reply has audioAsVoice without media/text; skipping")]).
Proof. vm_compute. reflexivity. Qed.

(** A queued message: with a turn active and no steering the run is
    enqueued and the function returns [undefined]. *)
Example runReplyAgent_enqueues_when_active :
  effects_of
    (demoRunReplyAgent
       {| commandBody := lit "hello"; queueKey := lit "telegram:42";
          resolvedQueue := {| queue_mode := lit "queue" |};
          shouldSteer := false; shouldFollowup := true; isActive := true;
          isStreaming := true; sessionKey := None; storePath := None;
          resolvedVerboseLevel := lit "off"; shouldInjectGroupIntro := false;
          sessionCtx_MessageThreadId := None; cfg := cfg demoParams;
          hasOnBlockReply := false |}
       demoInputs demoState)
  = [EnqueueFollowupRun (lit "telegram:42") (followupRun demoState)
       {| queue_mode := lit "queue" |};
     TypingCleanup].
Proof. vm_compute. reflexivity. Qed.

End Examples.

(* ===================================================================== *)
(** * markResponseComplete *)
(* ===================================================================== *)

Section MarkResponse.

Lemma isWhiteSpace_checkmark : isWhiteSpace 0x2705%N = false.
Proof. reflexivity. Qed.

Lemma markResponseComplete_marked (t : jsstring) (config : option StatusUpdateConfig) :
  markResponseComplete (Some (trimEnd t ++ lit " " ++ checkmark)) config
  = Some (trimEnd t ++ lit " " ++ checkmark).
Proof.
  unfold markResponseComplete.
  destruct (trimEnd t ++ lit " " ++ checkmark) as [|c r] eqn:E.
  { by destruct (trimEnd t). }
  destruct (negb (enabled (resolveStatusUpdateConfig config))
            || negb (markFinalWithCheckmark (resolveStatusUpdateConfig config))); [done|].
  rewrite <- E.
  unfold checkmark. rewrite trimEnd_app_keeps by apply isWhiteSpace_checkmark.
  by rewrite app_assoc, endsWith_app.
Qed.

(** C10. [markResponseComplete] leaves the text as it is when status
    updates or the check mark are switched off, and when the trimmed text
    already ends with the check mark; applying it twice gives what applying
    it once gives; an undefined or empty text comes back as it is. *)
Theorem markResponseComplete_idempotent
    (text : option jsstring) (config : option StatusUpdateConfig) :
  (enabled (resolveStatusUpdateConfig config) = false
   \/ markFinalWithCheckmark (resolveStatusUpdateConfig config) = false ->
   markResponseComplete text config = text)
  /\ (forall t, text = Some t -> endsWith (trimEnd t) checkmark = true ->
      markResponseComplete text config = text)
  /\ markResponseComplete (markResponseComplete text config) config
     = markResponseComplete text config
  /\ markResponseComplete None config = None
  /\ markResponseComplete (Some []) config = Some [].
Proof.
  repeat split.
  - intros Hoff. destruct text as [[|c t]|]; try done.
    unfold markResponseComplete.
    destruct Hoff as [-> | ->]; simpl; [done|]. by rewrite orb_true_r.
  - intros t -> Hends. destruct t as [|c t]; [done|].
    unfold markResponseComplete. fold checkmark. rewrite Hends.
    by destruct (negb _ || negb _).
  - destruct text as [[|c t]|]; try done.
    destruct (negb (enabled (resolveStatusUpdateConfig config))
              || negb (markFinalWithCheckmark (resolveStatusUpdateConfig config)))
      eqn:Hoff.
    { assert (Hsame : markResponseComplete (Some (c :: t)) config = Some (c :: t)).
      { unfold markResponseComplete. by rewrite Hoff. }
      by rewrite !Hsame. }
    destruct (endsWith (trimEnd (c :: t)) checkmark) eqn:Hends.
    { assert (Hsame : markResponseComplete (Some (c :: t)) config = Some (c :: t)).
      { unfold markResponseComplete. fold checkmark. by rewrite Hoff, Hends. }
      by rewrite !Hsame. }
    assert (Hmark : markResponseComplete (Some (c :: t)) config
                    = Some (trimEnd (c :: t) ++ lit " " ++ checkmark)).
    { unfold markResponseComplete. fold checkmark. by rewrite Hoff, Hends. }
    rewrite Hmark. apply markResponseComplete_marked.
Qed.

(** The statement of [markResponseComplete_idempotent] for the text "ok ✅"
    under the default config, where status updates are off. *)
Lemma markResponseComplete_idempotent_witness :
  markResponseComplete (Some (lit "ok " ++ checkmark)) None
  = Some (lit "ok " ++ checkmark).
Proof.
  destruct (markResponseComplete_idempotent (Some (lit "ok " ++ checkmark)) None)
    as (Hoff & Hends & _).
  assert (H1 := Hends (lit "ok " ++ checkmark) eq_refl ltac:(vm_compute; reflexivity)).
  exact (Hoff (or_introl eq_refl)).
Defined.

End MarkResponse.

(* ===================================================================== *)
(** * The status-update controller *)
(* ===================================================================== *)

Section Controller.

Import StatusUpdateController.






End Controller.

Section SetPhase.

Import StatusUpdateController.

Lemma setPhase_ignored (now : Z) (resp : Awaited) (p : StatusPhase) (c : t) :
  live c = false -> setPhase now resp p c = (tt, c, []).
Proof.
  unfold live, setPhase. intros Hl. run_prog.
  destruct (isEnabled c), (stopped c), (isComplete (state c)); simpl in *; done.
Qed.

Lemma setPhases_ignored (calls : list (Z * Awaited * StatusPhase)) (c : t) :
  live c = false -> setPhases calls c = (tt, c, []).
Proof.
  intros Hl. induction calls as [|[[now resp] p] calls IH]; [done|].
  simpl. unfold bind. by rewrite setPhase_ignored, IH.
Qed.

Lemma setPhase_same (now : Z) (resp : Awaited) (c : t) :
  setPhase now resp (phase (state c)) c = (tt, c, []).
Proof.
  unfold setPhase. run_prog.
  destruct (negb (isEnabled c) || stopped c || isComplete (state c)); [done|].
  by rewrite bool_decide_eq_true_2.
Qed.

Lemma setPhase_complete (now : Z) (resp : Awaited) (c : t) :
  live c = true -> phase (state c) <> StatusPhase.complete ->
  setPhase now resp StatusPhase.complete c
  = (tt,
     set_updateTimer false
       (set_state (with_isComplete true) (set_state (with_phase StatusPhase.complete) c)),
     []).
Proof.
  unfold live, setPhase. intros Hl Hp. run_prog.
  destruct (isEnabled c), (stopped c), (isComplete (state c)); simpl in *; try done.
  rewrite bool_decide_eq_false_2 by congruence.
  destruct c as [cf cb st tm sp ed]; by destruct tm.
Qed.

Lemma setPhase_complete_silent (now : Z) (resp : Awaited) (c : t) :
  effects_of (setPhase now resp StatusPhase.complete c) = [].
Proof.
  destruct (live c) eqn:Hl.
  - destruct (decide (phase (state c) = StatusPhase.complete)) as [Heq|Hne].
    + rewrite <- Heq. by rewrite setPhase_same.
    + by rewrite setPhase_complete.
  - by rewrite setPhase_ignored.
Qed.

(** C5. For a controller in any state: [setPhase] with the current phase
    renders nothing and changes nothing; [setPhase("complete")] never makes
    an outbound call; on a controller that still reacts (enabled, not
    stopped, not complete) and is in another phase, it sets the phase to
    [complete], marks the state complete and leaves the timer disarmed, and
    every later sequence of [setPhase] calls is ignored; and on a controller
    that is complete or stopped every sequence of [setPhase] calls changes
    nothing and renders nothing. *)
Theorem setPhase_transitions (c : t) (now : Z) (resp : Awaited) :
  setPhase now resp (phase (state c)) c = (tt, c, [])
  /\ effects_of (setPhase now resp StatusPhase.complete c) = []
  /\ (live c = true -> phase (state c) <> StatusPhase.complete ->
      phase (state (state_of (setPhase now resp StatusPhase.complete c)))
      = StatusPhase.complete
      /\ isComplete (state (state_of (setPhase now resp StatusPhase.complete c))) = true
      /\ updateTimer (state_of (setPhase now resp StatusPhase.complete c)) = false
      /\ forall calls,
           setPhases calls (state_of (setPhase now resp StatusPhase.complete c))
           = (tt, state_of (setPhase now resp StatusPhase.complete c), []))
  /\ (isComplete (state c) = true \/ stopped c = true ->
      forall calls, setPhases calls c = (tt, c, [])).
Proof.
  repeat split.
  - apply setPhase_same.
  - apply setPhase_complete_silent.
  - by rewrite setPhase_complete.
  - by rewrite setPhase_complete.
  - by rewrite setPhase_complete.
  - rewrite setPhase_complete by done. intros calls. apply setPhases_ignored.
    unfold live. simpl. by rewrite andb_false_r.
  - intros Hdone calls. apply setPhases_ignored. unfold live.
    destruct Hdone as [-> | ->]; simpl; [by rewrite andb_false_r|].
    by rewrite andb_false_r.
Qed.

(** The statement of [setPhase_transitions] on a started controller with its
    timer armed, then on the completed controller it leads to. *)
Lemma setPhase_transitions_witness :
  updateTimer (state_of (setPhase 2000 Rejected StatusPhase.complete
                 (state_of (start 1000 (Resolved None) freshController)))) = false
  /\ setPhases [(3000, Resolved None, StatusPhase.processing_tools)]
       (state_of (setPhase 2000 Rejected StatusPhase.complete
                    (state_of (start 1000 (Resolved None) freshController))))
     = (tt, state_of (setPhase 2000 Rejected StatusPhase.complete
                        (state_of (start 1000 (Resolved None) freshController))), []).
Proof.
  destruct (setPhase_transitions
              (state_of (start 1000 (Resolved None) freshController)) 2000 Rejected)
    as (_ & _ & Hto & _).
  destruct (Hto ltac:(vm_compute; reflexivity) ltac:(vm_compute; discriminate))
    as (_ & Hc & Htimer & Hseq).
  split; [exact Htimer|].
  destruct (setPhase_transitions
              (state_of (setPhase 2000 Rejected StatusPhase.complete
                 (state_of (start 1000 (Resolved None) freshController)))) 0 Rejected)
    as (_ & _ & _ & Hdone).
  exact (Hdone (or_introl Hc) _).
Defined.

End SetPhase.

(* ===================================================================== *)
(** * runReplyAgent: steering, session reset *)
(* ===================================================================== *)

Section RunnerFacts.

Variable resolveAgentIdFromSessionKey : option jsstring -> jsstring.
Variable resolveSessionTranscriptPath : jsstring -> jsstring -> option jsstring -> jsstring.
Variable resolveSessionFilePath : jsstring -> SessionEntry -> jsstring -> jsstring.
Variable runMemoryFlushIfNeeded : Run (option SessionEntry).
Variable runAgentTurnWithFallback : Run TurnOutcome.
Variable persistSessionUsageUpdate : Run unit.
Variable buildReplyPayloads : nat -> Run nat.
Variable resolveResponseUsageLine : Run (option jsstring).
Variable incrementCompactionCount : Run (option Z).
Variable appendUsageLine : nat -> jsstring -> Run nat.
Variable params : RunParams.

Local Abbreviation runReplyAgent :=
  (runReplyAgent resolveAgentIdFromSessionKey runMemoryFlushIfNeeded
     runAgentTurnWithFallback persistSessionUsageUpdate buildReplyPayloads
     resolveResponseUsageLine incrementCompactionCount appendUsageLine params).
Local Abbreviation resetSession :=
  (resetSession resolveAgentIdFromSessionKey resolveSessionTranscriptPath
     resolveSessionFilePath params).
Local Abbreviation resetSessionAfterRoleOrderingConflict :=
  (resetSessionAfterRoleOrderingConflict resolveAgentIdFromSessionKey
     resolveSessionTranscriptPath resolveSessionFilePath params).

(** What the bump of [updatedAt] does to the session, case by case. *)
Lemma bumpUpdatedAt_spec (now : Z) (persisted : bool) (st : RunState) :
  (forall k f s, EnqueueFollowupRun k f s ∉ effects_of (bumpUpdatedAt params now persisted st))
  /\ arrays (state_of (bumpUpdatedAt params now persisted st)) = arrays st
  /\ match activeSessionEntry st, activeSessionStore st, truthyStr (sessionKey params) with
     | Some entry, Some store, Some key =>
         activeSessionEntry (state_of (bumpUpdatedAt params now persisted st))
         = Some (with_updatedAt now entry)
         /\ activeSessionStore (state_of (bumpUpdatedAt params now persisted st))
            = Some (<[key:=with_updatedAt now entry]> store)
         /\ durableStore (state_of (bumpUpdatedAt params now persisted st))
            = match truthyStr (storePath params) with
              | Some _ =>
                  if persisted then alter (with_updatedAt now) key (durableStore st)
                  else durableStore st
              | None => durableStore st
              end
     | _, _, _ => state_of (bumpUpdatedAt params now persisted st) = st
     end.
Proof.
  unfold bumpUpdatedAt, updateSessionStoreEntry. run_prog.
  destruct (activeSessionEntry st) as [entry|] eqn:He;
    destruct (activeSessionStore st) as [store|] eqn:Hs;
    destruct (truthyStr (sessionKey params)) as [key|] eqn:Hk; simpl;
    try (split; [intros; apply not_elem_of_nil | done]).
  destruct (truthyStr (storePath params)) as [path|] eqn:Hp; simpl.
  - destruct persisted; simpl; (split; [|done]);
      intros k f s Hin; repeat (apply elem_of_cons in Hin as [Hin|Hin]; [done|]);
      by apply not_elem_of_nil in Hin.
  - split; [intros; apply not_elem_of_nil | done].
Qed.

Lemma steerOrEnqueue_accepted (now : Z) (persisted : bool) (st : RunState) :
  shouldSteer params = true ->
  isStreaming params = true ->
  shouldFollowup params = false ->
  steerOrEnqueue params true now persisted st
  = (Some ReplyUndefined,
     state_of (bumpUpdatedAt params now persisted st),
     QueueEmbeddedPiMessage (run_sessionId (followupRun st)) (prompt (followupRun st))
     :: effects_of (bumpUpdatedAt params now persisted st) ++ [TypingCleanup]).
Proof.
  intros Hsteer Hstream Hnofollow. unfold steerOrEnqueue.
  rewrite Hsteer, Hstream, Hnofollow. run_prog.
  by destruct (bumpUpdatedAt params now persisted st) as [[[] st1] l1].
Qed.

(** C1, as the code has it. When the caller asks to steer ([shouldSteer],
    derived from the queue mode), the active turn is streaming, the engine
    accepts the injection and no followup is requested, [runReplyAgent]
    returns [undefined] and never calls [enqueueFollowupRun]. The session
    record's [updatedAt] is set to the current time, in the active entry and
    in the in-memory store under the session key (and in the durable store
    when there is a store path and the write succeeds), provided the session
    entry, the session store and the session key are all there; otherwise
    the run state is left as it was. *)
Theorem runReplyAgent_steer_accepted (i : RunInputs) (st : RunState) :
  shouldSteer params = true ->
  isStreaming params = true ->
  steered i = true ->
  shouldFollowup params = false ->
  result_of (runReplyAgent i st) = ReplyUndefined
  /\ (forall k f s, EnqueueFollowupRun k f s ∉ effects_of (runReplyAgent i st))
  /\ match activeSessionEntry st, activeSessionStore st, truthyStr (sessionKey params) with
     | Some entry, Some store, Some key =>
         activeSessionEntry (state_of (runReplyAgent i st))
         = Some (with_updatedAt (nowBump i) entry)
         /\ activeSessionStore (state_of (runReplyAgent i st))
            = Some (<[key:=with_updatedAt (nowBump i) entry]> store)
         /\ durableStore (state_of (runReplyAgent i st))
            = match truthyStr (storePath params) with
              | Some _ =>
                  if persistedBump i
                  then alter (with_updatedAt (nowBump i)) key (durableStore st)
                  else durableStore st
              | None => durableStore st
              end
     | _, _, _ => state_of (runReplyAgent i st) = st
     end.
Proof.
  intros Hsteer Hstream Haccept Hnofollow.
  pose proof (bumpUpdatedAt_spec (nowBump i) (persistedBump i) st) as (Hnoenq & _ & Hbump).
  assert (Hrun : runReplyAgent i st
                 = (ReplyUndefined,
                    state_of (bumpUpdatedAt params (nowBump i) (persistedBump i) st),
                    (QueueEmbeddedPiMessage (run_sessionId (followupRun st))
                       (prompt (followupRun st))
                     :: effects_of (bumpUpdatedAt params (nowBump i) (persistedBump i) st)
                     ++ [TypingCleanup]) ++ [])).
  { unfold runReplyAgent. unfold bind at 1.
    rewrite Haccept, steerOrEnqueue_accepted by done. done. }
  rewrite Hrun. unfold result_of, state_of, effects_of in *. cbn [fst snd].
  split; [done|]. split.
  - intros k f s Hin. rewrite app_nil_r in Hin.
    apply elem_of_cons in Hin as [Hin|Hin]; [done|].
    apply elem_of_app in Hin as [Hin|Hin]; [by eapply Hnoenq|].
    apply elem_of_cons in Hin as [Hin|Hin]; [done|]. by apply not_elem_of_nil in Hin.
  - exact Hbump.
Qed.


Lemma transcriptCandidates_spec (resolved canonical p : jsstring) :
  p ∈ transcriptCandidates resolved canonical
  <-> p = canonical \/ (p = resolved /\ resolved <> []).
Proof.
  unfold transcriptCandidates. destruct resolved as [|c r].
  - case_bool_decide as Hd; [by apply not_elem_of_nil in Hd|].
    simpl. rewrite list_elem_of_singleton. naive_solver.
  - case_bool_decide as Hd.
    + apply list_elem_of_singleton in Hd.
      rewrite list_elem_of_singleton. naive_solver.
    + rewrite elem_of_app, !list_elem_of_singleton. naive_solver.
Qed.

(** C3. When the session key, the session store or the store path is
    missing (the key or the path may also be the empty string),
    [resetSession] returns [false]; the run state, which holds the session
    record, the in-memory and the durable store and the transcript files, is
    unchanged, and no outbound call is made. *)
Theorem resetSession_unavailable
    (opts : SessionResetOptions) (uuid : jsstring) (now : Z) (persisted : bool)
    (err : jsstring) (st : RunState) :
  truthyStr (sessionKey params) = None
  \/ activeSessionStore st = None
  \/ truthyStr (storePath params) = None ->
  resetSession opts uuid now persisted err st = (false, st, []).
Proof.
  intros Hmissing. unfold resetSession. run_prog.
  destruct Hmissing as [-> | [-> | ->]]; try done.
  - by destruct (truthyStr (sessionKey params)).
  - by destruct (truthyStr (sessionKey params)), (activeSessionStore st).
Qed.






End RunnerFacts.

(** The statement of [runReplyAgent_steer_accepted] for a steered message
    with the session record at hand: the record is touched at time 2. *)
Lemma runReplyAgent_steer_accepted_witness :
  result_of (demoRunReplyAgent demoParams demoInputs demoState) = ReplyUndefined
  /\ activeSessionEntry (state_of (demoRunReplyAgent demoParams demoInputs demoState))
     = Some (with_updatedAt 2 demoEntry).
Proof.
  destruct (runReplyAgent_steer_accepted demoAgentId
              (fun st => (activeSessionEntry st, st, []))
              (ret (TurnSuccess (Some 0%nat) false)) (ret tt)
              (fun a => bind (readArray a) newArray) (ret None) (ret None)
              (fun a _ => ret a) demoParams demoInputs demoState
              eq_refl eq_refl eq_refl eq_refl)
    as (Hresult & _ & Hsession).
  split; [exact Hresult | exact (proj1 Hsession)].
Defined.

(** C1, as the specification words it, fails: a steered message that the
    engine accepts, with no followup requested, for a caller that passes the
    session entry and store but no session key. The function returns
    [undefined] and leaves the run state as it was: [updatedAt] stays 1 while
    the clock reads 2. *)
Lemma runReplyAgent_steer_counterexample :
  queue_mode (resolvedQueue demoParamsNoKey) = lit "steer"
  /\ shouldSteer demoParamsNoKey = true
  /\ isActive demoParamsNoKey = true
  /\ isStreaming demoParamsNoKey = true
  /\ shouldFollowup demoParamsNoKey = false
  /\ steered demoInputs = true
  /\ nowBump demoInputs = 2
  /\ result_of (demoRunReplyAgent demoParamsNoKey demoInputs demoState) = ReplyUndefined
  /\ updatedAt <$> activeSessionEntry
                     (state_of (demoRunReplyAgent demoParamsNoKey demoInputs demoState))
     = Some 1.
Proof. vm_compute. repeat split; reflexivity. Qed.

(** The statement of [resetSession_unavailable] for a caller without a
    session key. *)
Lemma resetSession_unavailable_witness :
  resetSessionAfterRoleOrderingConflict demoAgentId demoTranscriptPath demoSessionFilePath
    demoParamsNoKey (lit "bad roles") (lit "new-session") 5 true (lit "Error: EACCES")
    demoState
  = (false, demoState, []).
Proof.
  apply (resetSession_unavailable demoAgentId demoTranscriptPath demoSessionFilePath
           demoParamsNoKey).
  left. reflexivity.
Defined.



(* ===================================================================== *)
(** * runReplyAgent: the final payload list *)
(* ===================================================================== *)

Section FinalPayloads.

Variable incrementCompactionCount : Run (option Z).
Variable appendUsageLine : nat -> jsstring -> Run nat.
Variable params : RunParams.

Local Abbreviation assembleFinalPayloads :=
  (assembleFinalPayloads incrementCompactionCount appendUsageLine params).

(** With a new-session hint prepended (verbose mode, new session, no
    compaction notice, no usage line) the returned list is a fresh array: the
    hint, then the reply payloads as they were before the status completion
    ran. The completion mark, written into the original array afterwards,
    does not reach it. *)
Lemma assembleFinalPayloads_hint_unmarked
    (replyPayloads : nat) (now : Z) (resp : Awaited) (st : RunState)
    (payloads : list ReplyPayload) :
  resolvedVerboseLevel params <> lit "off" ->
  activeIsNewSession st = true ->
  arrays st !! replyPayloads = Some payloads ->
  payloads <> [] ->
  result_of (assembleFinalPayloads replyPayloads false None now resp st)
  = ReplyMany (newSessionHint (run_sessionId (followupRun st)) :: payloads).
Proof.
  intros Hverbose Hnew Harr Hne.
  assert (Hlt : (replyPayloads < length (arrays st))%nat) by by eapply lookup_lt_Some.
  unfold assembleFinalPayloads.
  rewrite bool_decide_eq_false_2 by done.
  unfold newArray, readArray, writeArray, finalizeWithFollowup.
  run_prog. rewrite Hnew. simpl. rewrite Harr. simpl.
  rewrite lookup_app_l, Harr by done. simpl.
  assert (Hfinal : forall (f : list ReplyPayload -> list ReplyPayload),
            alter f replyPayloads
              (arrays st ++ [newSessionHint (run_sessionId (followupRun st)) :: payloads])
            !! length (arrays st)
            = Some (newSessionHint (run_sessionId (followupRun st)) :: payloads)).
  { intros f. rewrite list_lookup_alter_ne by lia.
    by rewrite lookup_app_r, Nat.sub_diag by lia. }
  assert (Hkeep : (arrays st ++ [newSessionHint (run_sessionId (followupRun st)) :: payloads])
                  !! length (arrays st)
                  = Some (newSessionHint (run_sessionId (followupRun st)) :: payloads)).
  { by rewrite lookup_app_r, Nat.sub_diag by lia. }
  assert (Hhint : textPayload (55358%N :: 56813%N :: lit " New session: "
                               ++ run_sessionId (followupRun st))
                  = newSessionHint (run_sessionId (followupRun st))) by reflexivity.
  rewrite !Hhint.
  destruct (statusUpdateContext st) as [ctx|] eqn:Hctx; simpl.
  2:{ rewrite Hkeep. simpl. by destruct payloads. }
  destruct (last payloads) as [lastPayload|] eqn:Hlast; simpl.
  2:{ rewrite Hkeep. simpl. by destruct payloads. }
  destruct (truthy (text lastPayload)) eqn:Htext; simpl.
  2:{ rewrite Hkeep. simpl. by destruct payloads. }
  unfold liftStatus. simpl. rewrite Hctx.
  destruct (completeStatusUpdate now resp (text lastPayload) ctx) as [[marked ctx'] l].
  simpl.
  destruct (truthyStr marked) as [m|]; simpl.
  - rewrite Hfinal. simpl. by destruct payloads.
  - rewrite Hkeep. simpl. by destruct payloads.
Qed.

End FinalPayloads.

(** C7 fails on the code. A finished turn in verbose mode on a new session,
    with status updates on and the single reply payload "hi": the
    controller's [complete] marks the text as "hi _(0:05)_" and the runner
    writes it into the reply-payload array, but the list it returns is the
    copy made when the hint line was prepended, whose last payload still
    reads "hi". *)
Theorem runReplyAgent_hint_drops_completion_mark :
  result_of (demoRunReplyAgent demoParamsIdle demoInputs demoState)
  = ReplyMany [newSessionHint (lit "old-session"); textPayload (lit "hi")]
  /\ text <$> lastPayloadOf (result_of (demoRunReplyAgent demoParamsIdle demoInputs demoState))
     = Some (Some (lit "hi"))
  /\ arrays (state_of (demoRunReplyAgent demoParamsIdle demoInputs demoState)) !! 1%nat
     = Some [textPayload (lit "hi _(0:05)_")].
Proof. vm_compute. repeat split; reflexivity. Qed.

(** The same turn with verbose mode off: no line is prepended, the returned
    payload is the one of the reply-payload array and carries the mark. *)
Lemma runReplyAgent_quiet_keeps_completion_mark :
  result_of (demoRunReplyAgent demoParamsQuiet demoInputs demoState)
  = ReplyOne (textPayload (lit "hi _(0:05)_")).
Proof. vm_compute. reflexivity. Qed.

(* ===================================================================== *)
(** * deliverReplies *)
(* ===================================================================== *)

(** Unfold the plumbing of [ProgE]. *)
Ltac run_exn :=
  unfold result_of, state_of, effects_of, bindE, retE, throwE, getE, modifyE, emitE in *;
  simpl in *.

Lemma forEachE_app {S E A} (body : A -> ProgE S E unit) (xs ys : list A) (st : S) :
  forEachE body (xs ++ ys) st
  = bindE (forEachE body xs) (fun _ => forEachE body ys) st.
Proof.
  revert st. induction xs as [|x xs IH]; intros st; simpl.
  - unfold bindE, retE. by destruct (forEachE body ys st) as [[r s] l].
  - unfold bindE. destruct (body x st) as [[[[]|] s1] l1]; [|done].
    rewrite IH. unfold bindE.
    destruct (forEachE body xs s1) as [[[[]|] s2] l2]; [|done].
    destruct (forEachE body ys s2) as [[r s3] l3]. by rewrite app_assoc.
Qed.

Section DeliveryFacts.

Variable now : nat -> Z.
Variable editMessageTelegram : nat -> jsstring -> jsstring -> jsstring -> bool.
Variable sendMessageTelegram : nat -> jsstring -> jsstring -> option Z -> option Z.
Variable bot_sendMessage : nat -> SendMessageCall -> SendOutcome.
Variable bot_sendMedia : nat -> MediaCall -> bool.
Variable loadWebMedia : nat -> jsstring -> option WebMedia.
Variable onVoiceRecording : nat -> bool.
Variable resolveTelegramReplyId : option jsstring -> option Z.
Variable buildTelegramThreadParams : option Z -> option Z.
Variable chunkMarkdownTextWithMode : jsstring -> Z -> ChunkMode -> list jsstring.
Variable markdownToTelegramChunks : jsstring -> Z -> option jsstring -> list Chunk.
Variable markdownToTelegramHtml : jsstring -> option jsstring -> jsstring.
Variable renderTelegramHtmlText : jsstring -> option jsstring -> jsstring.
Variable splitTelegramCaption : option jsstring -> option jsstring * option jsstring.
Variable mediaKindFromMime : option jsstring -> MediaKind.
Variable isGifMedia : option jsstring -> option jsstring -> bool.
Variable resolveTelegramVoiceSend : bool -> option jsstring -> jsstring -> bool.
Variable params : DeliveryParams.

Local Abbreviation deliverReply :=
  (deliverReply now editMessageTelegram sendMessageTelegram bot_sendMessage bot_sendMedia
     loadWebMedia onVoiceRecording resolveTelegramReplyId buildTelegramThreadParams
     chunkMarkdownTextWithMode markdownToTelegramChunks markdownToTelegramHtml
     renderTelegramHtmlText splitTelegramCaption mediaKindFromMime isGifMedia
     resolveTelegramVoiceSend params).
Local Abbreviation deliverReplies :=
  (deliverReplies now editMessageTelegram sendMessageTelegram bot_sendMessage bot_sendMedia
     loadWebMedia onVoiceRecording resolveTelegramReplyId buildTelegramThreadParams
     chunkMarkdownTextWithMode markdownToTelegramChunks markdownToTelegramHtml
     renderTelegramHtmlText splitTelegramCaption mediaKindFromMime isGifMedia
     resolveTelegramVoiceSend params).
Local Abbreviation chunkText :=
  (chunkText chunkMarkdownTextWithMode markdownToTelegramChunks markdownToTelegramHtml params).
Local Abbreviation sendTelegramText :=
  (sendTelegramText bot_sendMessage buildTelegramThreadParams markdownToTelegramHtml params).
Local Abbreviation sendTextChunks :=
  (sendTextChunks bot_sendMessage buildTelegramThreadParams markdownToTelegramHtml params).
Local Abbreviation deliverText :=
  (deliverText now editMessageTelegram sendMessageTelegram bot_sendMessage
     buildTelegramThreadParams chunkMarkdownTextWithMode markdownToTelegramChunks
     markdownToTelegramHtml params).

Lemma deliverReplies_run (replies : list ReplyPayload) (st : DeliveryState) :
  deliverReplies replies st = forEachE deliverReply replies (set_hasReplied false st).
Proof.
  unfold deliverReplies. run_exn.
  by destruct (forEachE _ replies _) as [[r s] l].
Qed.

Lemma deliverReply_invalid (reply : ReplyPayload) (st : DeliveryState) :
  truthy (text reply) = false ->
  hasMediaOf reply = false ->
  deliverReply reply st
  = (Some tt, st,
     [if default false (audioAsVoice reply)
      then LogVerbose (lit "telegram reply has audioAsVoice without media/text; skipping")
      else RuntimeErrorLine (lit "reply missing text/media")]).
Proof.
  intros Ht Hm. unfold deliverReply. rewrite Ht, Hm. simpl.
  by destruct (default false (audioAsVoice reply)).
Qed.

(** C9. A payload with neither text nor media is dropped: handling it sends
    nothing, changes no state and raises no exception; it logs one line, an
    error through [runtime.error], or, for a payload flagged [audioAsVoice],
    only a verbose line. Wherever it stands in the list, the payloads before
    it are delivered as without it, and once they are through, the payloads
    after it are delivered from the very state they would have started from
    without it; the outcome and the final state of the whole delivery are
    those of the list without the payload. *)
Theorem deliverReplies_drops_invalid_payload
    (before after : list ReplyPayload) (reply : ReplyPayload) (st : DeliveryState) :
  truthy (text reply) = false ->
  hasMediaOf reply = false ->
  deliverReply reply st
  = (Some tt, st,
     [if default false (audioAsVoice reply)
      then LogVerbose (lit "telegram reply has audioAsVoice without media/text; skipping")
      else RuntimeErrorLine (lit "reply missing text/media")])
  /\ (forall reached sent,
        deliverReplies before st = (Some tt, reached, sent) ->
        deliverReplies (before ++ reply :: after) st
        = (result_of (forEachE deliverReply after reached),
           state_of (forEachE deliverReply after reached),
           sent
           ++ [if default false (audioAsVoice reply)
               then LogVerbose
                      (lit "telegram reply has audioAsVoice without media/text; skipping")
               else RuntimeErrorLine (lit "reply missing text/media")]
           ++ effects_of (forEachE deliverReply after reached))
        /\ deliverReplies (before ++ after) st
           = (result_of (forEachE deliverReply after reached),
              state_of (forEachE deliverReply after reached),
              sent ++ effects_of (forEachE deliverReply after reached)))
  /\ result_of (deliverReplies (before ++ reply :: after) st)
     = result_of (deliverReplies (before ++ after) st)
  /\ state_of (deliverReplies (before ++ reply :: after) st)
     = state_of (deliverReplies (before ++ after) st).
Proof.
  intros Ht Hm.
  split; [by apply deliverReply_invalid|].
  rewrite !deliverReplies_run, !forEachE_app.
  split.
  - intros reached sent Hbefore. cbn [forEachE]. unfold bindE. rewrite Hbefore.
    rewrite deliverReply_invalid by done.
    unfold result_of, state_of, effects_of.
    by destruct (forEachE _ after reached) as [[r s] l].
  - cbn [forEachE]. unfold bindE.
    destruct (forEachE _ before _) as [[[[]|] s1] l1]; [|done].
    rewrite deliverReply_invalid by done.
    unfold result_of, state_of.
    by destruct (forEachE _ after s1) as [[r s] l].
Qed.

(** ** Reply threading *)










End DeliveryFacts.



(** The statement of [deliverReplies_drops_invalid_payload] for an empty
    payload standing between two text replies. *)
Lemma deliverReplies_drops_invalid_payload_witness :
  result_of (demoDeliverReplies reply_first
               ([demoReply "one"] ++ emptyPayload :: [demoReply "two"]) demoDeliveryState)
  = result_of (demoDeliverReplies reply_first
                 ([demoReply "one"] ++ [demoReply "two"]) demoDeliveryState).
Proof.
  exact (proj1 (proj2 (proj2
    (deliverReplies_drops_invalid_payload
       (fun _ => 100000) (fun _ _ _ _ => true)
       (fun t _ _ _ => Some (100 + Z.of_nat t))
       (fun t _ => Sent (100 + Z.of_nat t))
       (fun _ _ => true) (fun _ _ => None) (fun _ => true)
       demoResolveReplyId (fun thread => thread) (fun markdown _ _ => [markdown])
       demoChunks (fun markdown _ => markdown) (fun markdown _ => markdown)
       (fun caption => (caption, None)) (fun _ => kind_other) (fun _ _ => false)
       (fun wantsVoice _ _ => wantsVoice) (demoDeliveryParams reply_first)
       [demoReply "one"] [demoReply "two"] emptyPayload demoDeliveryState
       eq_refl eq_refl)))).
Defined.

(* ===================================================================== *)
(** * Life cycle of the status-update controller *)
(* ===================================================================== *)

Lemma effects_bind {S E A B} (m : Prog S E A) (k : A -> Prog S E B) (s : S) :
  effects_of (bind m k s) = effects_of (m s) ++ effects_of (k (result_of (m s)) (state_of (m s))).
Proof.
  unfold effects_of, result_of, state_of, bind.
  destruct (m s) as [[a s1] l1]; simpl. by destruct (k a s1) as [[b s2] l2].
Qed.

Lemma state_bind {S E A B} (m : Prog S E A) (k : A -> Prog S E B) (s : S) :
  state_of (bind m k s) = state_of (k (result_of (m s)) (state_of (m s))).
Proof.
  unfold effects_of, result_of, state_of, bind.
  destruct (m s) as [[a s1] l1]; simpl. by destruct (k a s1) as [[b s2] l2].
Qed.

(** What [sendUpdate] leaves alone, and what it renders. *)
Lemma sendUpdate_frame (now : Z) (resp : Awaited) (c : StatusUpdateController.t) :
  let c' := state_of (StatusUpdateController.sendUpdate now resp c) in
  StatusUpdateController.config c' = StatusUpdateController.config c
  /\ StatusUpdateController.callbacks c' = StatusUpdateController.callbacks c
  /\ StatusUpdateController.updateTimer c' = StatusUpdateController.updateTimer c
  /\ StatusUpdateController.stopped c' = StatusUpdateController.stopped c
  /\ phase (StatusUpdateController.state c') = phase (StatusUpdateController.state c)
  /\ isComplete (StatusUpdateController.state c')
     = isComplete (StatusUpdateController.state c)
  /\ startedAt (StatusUpdateController.state c')
     = startedAt (StatusUpdateController.state c)
  /\ renderedTexts (effects_of (StatusUpdateController.sendUpdate now resp c))
     = if StatusUpdateController.stopped c then []
       else [formatStatusMessage (phase (StatusUpdateController.state c))
               ((now - startedAt (StatusUpdateController.state c)) / 1000)
               (StatusUpdateController.config c)].
Proof.
  unfold StatusUpdateController.sendUpdate. run_prog.
  destruct (StatusUpdateController.stopped c) eqn:Hs; simpl; [done|].
  destruct (_ && _); destruct resp as [r|]; simpl; try done.
  by destruct (truthy r).
Qed.

Ltac frame_sendUpdate :=
  match goal with
  | |- context [StatusUpdateController.sendUpdate ?n ?r ?c] =>
      let H := fresh "Hframe" in
      pose proof (sendUpdate_frame n r c) as H;
      unfold state_of, effects_of in H;
      destruct (StatusUpdateController.sendUpdate n r c) as [[[] ?] ?]; simpl in H;
      destruct H as (? & ? & ? & ? & ? & ? & ? & ?)
  end.

Ltac split_call :=
  repeat (simpl in *;
          first
            [ frame_sendUpdate
            | match goal with
              | |- context [if ?b then _ else _] => destruct b eqn:?
              end
            | match goal with
              | |- context [match ?x with Resolved _ => _ | Rejected => _ end] => destruct x
              end
            | match goal with
              | |- context [match ?x with Some _ => _ | None => _ end] =>
                  destruct x as [[|? ?]|] eqn:?
              end ]).

Ltac bool_hyps :=
  repeat match goal with
         | H : _ || _ = false |- _ => apply orb_false_iff in H as [? ?]
         | H : _ || _ = true |- _ => apply orb_true_iff in H as [?|?]
         | H : _ && _ = true |- _ => apply andb_true_iff in H as [? ?]
         | H : negb _ = false |- _ => apply negb_false_iff in H
         | H : negb _ = true |- _ => apply negb_true_iff in H
         | H : bool_decide _ = true |- _ => apply bool_decide_eq_true in H
         | H : bool_decide _ = false |- _ => apply bool_decide_eq_false in H
         end.

Ltac use_premises :=
  repeat match goal with
         | H : ?A -> _ |- _ =>
             let HA := fresh in assert (HA : A) by congruence; specialize (H HA)
         end.

(** [start], awaited, is its guard, [sendUpdate] run to its end, and the
    arming of the interval. *)
Lemma start_awaited (now : Z) (resp : Awaited) (c : StatusUpdateController.t) :
  StatusUpdateController.start now resp c
  = (if negb (StatusUpdateController.isEnabled c) || StatusUpdateController.stopped c
     then ret tt
     else
       bind (StatusUpdateController.sendUpdate now resp)
         (fun _ =>
            if showElapsedTime (StatusUpdateController.config c)
            then StatusUpdateController.startUpdateTimer else ret tt)) c.
Proof.
  unfold StatusUpdateController.start, StatusUpdateController.startBegin,
    StatusUpdateController.finish, StatusUpdateController.resume,
    StatusUpdateController.sendUpdate, StatusUpdateController.sendUpdateBegin,
    StatusUpdateController.sendUpdateResume, StatusUpdateController.startUpdateTimer.
  run_prog.
  destruct (negb (StatusUpdateController.isEnabled c)); simpl; [done|].
  destruct (StatusUpdateController.stopped c) eqn:Hs; simpl; [done|].
  rewrite Hs. simpl.
  destruct (_ && _); destruct resp as [r|]; simpl;
    try destruct (truthy r); simpl;
    destruct (showElapsedTime (StatusUpdateController.config c)); simpl;
    try destruct (StatusUpdateController.updateTimer c); simpl;
    rewrite ?app_nil_r; done.
Qed.

Ltac unfold_call :=
  unfold runCall; rewrite ?start_awaited;
  unfold StatusUpdateController.setPhase,
    StatusUpdateController.timerTick, StatusUpdateController.complete,
    StatusUpdateController.cleanup, StatusUpdateController.stopUpdateTimer,
    StatusUpdateController.startUpdateTimer; run_prog.

Section ControllerLifeCycle.

Import StatusUpdateController.

Lemma runCalls_app (calls calls' : list (Z * Awaited * ControllerCall)) (c : t) :
  effects_of (runCalls (calls ++ calls') c)
  = effects_of (runCalls calls c) ++ effects_of (runCalls calls' (state_of (runCalls calls c)))
  /\ state_of (runCalls (calls ++ calls') c)
     = state_of (runCalls calls' (state_of (runCalls calls c))).
Proof.
  revert c. induction calls as [|[[now resp] call] calls IH]; intros c; simpl.
  - done.
  - rewrite !effects_bind, !state_bind.
    destruct (IH (state_of (runCall now resp call c))) as [-> ->].
    by rewrite app_assoc.
Qed.

Lemma sendUpdate_stopped (now : Z) (resp : Awaited) (c : t) :
  stopped c = true -> sendUpdate now resp c = (tt, c, []).
Proof. intros Hs. unfold sendUpdate. run_prog. by rewrite Hs. Qed.

Lemma runCall_stopped (now : Z) (resp : Awaited) (call : ControllerCall) (c : t) :
  stopped c = true ->
  stopped (state_of (runCall now resp call c)) = true
  /\ renderedTexts (effects_of (runCall now resp call c)) = [].
Proof.
  intros Hs. destruct c as [cf cb st tm sp ed]; simpl in *; subst.
  destruct call; unfold runCall; rewrite ?start_awaited;
    unfold setPhase, timerTick, complete, cleanup,
    stopUpdateTimer; run_prog; rewrite ?orb_true_r; simpl; try done.
  all: try (destruct tm; simpl; done).
  all: try (destruct (negb _); simpl; done).
  - destruct tm; simpl; destruct (statusMessageId st) as [[|? ?]|]; simpl; try done;
      destruct (negb (isComplete st) && cb_hasDeleteStatus cb); simpl; try done;
      by destruct resp.
Qed.

(** X2. A stopped controller never renders again. Once [stopped] is set (by
    [complete] or by [cleanup]), no call of [start], [setPhase], the timer
    callback, [complete] or [cleanup] reaches [sendStatus], and the
    controller stays stopped. *)
Theorem stopped_never_renders
    (c : t) (calls : list (Z * Awaited * ControllerCall)) :
  stopped c = true ->
  renderedTexts (effects_of (runCalls calls c)) = []
  /\ stopped (state_of (runCalls calls c)) = true.
Proof.
  revert c. induction calls as [|[[now resp] call] calls IH]; intros c Hs; simpl.
  - done.
  - rewrite effects_bind, state_bind.
    destruct (runCall_stopped now resp call c Hs) as [Hs' Hr].
    destruct (IH _ Hs') as [Hr' Hs''].
    unfold renderedTexts in *. by rewrite omap_app, Hr, Hr'.
Qed.

Lemma runCall_config (now : Z) (resp : Awaited) (call : ControllerCall) (c : t) :
  config (state_of (runCall now resp call c)) = config c
  /\ callbacks (state_of (runCall now resp call c)) = callbacks c.
Proof. destruct call; unfold_call; split_call; try done; by split; congruence. Qed.

Lemma runCalls_config (calls : list (Z * Awaited * ControllerCall)) (c : t) :
  config (state_of (runCalls calls c)) = config c.
Proof.
  revert c. induction calls as [|[[now resp] call] calls IH]; intros c; simpl; [done|].
  rewrite state_bind, IH. apply runCall_config.
Qed.

Lemma runCall_completeIsMarked (now : Z) (resp : Awaited) (call : ControllerCall) (c : t) :
  completeIsMarked c -> completeIsMarked (state_of (runCall now resp call c)).
Proof.
  unfold completeIsMarked. intros Hc.
  destruct call; unfold_call; split_call; try done;
    simpl in *; intros; bool_hyps; try done; use_premises; try (intuition congruence).
Qed.

Lemma runCall_progressText (now : Z) (resp : Awaited) (call : ControllerCall) (c : t) :
  completeIsMarked c ->
  (isCallStart call = true -> phase (state c) <> StatusPhase.complete) ->
  Forall (progressText (config c)) (renderedTexts (effects_of (runCall now resp call c))).
Proof.
  unfold completeIsMarked, progressText. intros Hc Hn.
  destruct call; unfold_call; split_call;
    rewrite ?app_nil_r; try (by constructor);
    simpl in *; bool_hyps;
    repeat match goal with H : renderedTexts _ = _ |- _ => rewrite H; clear H end;
    simpl; try (by constructor).
  all: destruct (stopped c); constructor; [|by constructor].
  all: eexists _, _; split; [|reflexivity]; intuition congruence.
Qed.

Lemma runCalls_progressText (calls : list (Z * Awaited * ControllerCall)) (c : t) :
  completeIsMarked c -> forallb (fun x => negb (isCallStart x.2)) calls = true ->
  Forall (progressText (config c)) (renderedTexts (effects_of (runCalls calls c))).
Proof.
  revert c. induction calls as [|[[now resp] call] calls IH]; intros c Hc Hn; simpl in *.
  - constructor.
  - apply andb_true_iff in Hn as [Hn Hn']. apply negb_true_iff in Hn.
    rewrite effects_bind. unfold renderedTexts. rewrite omap_app. apply Forall_app. split.
    + apply runCall_progressText; [done|]. by rewrite Hn.
    + pose proof (runCall_config now resp call c) as [<- _].
      apply IH; [by apply runCall_completeIsMarked | done].
Qed.

(** X4. The status message never shows the [complete] phase. When [start]
    is the first call on a new controller and is not called again, every
    text handed to [sendStatus], by [start], by [setPhase] or by the timer,
    is the status line of a phase other than [complete]: [setPhase] to
    [complete] renders nothing, and the timer stops rendering once the
    controller is complete. *)
Theorem status_never_shows_complete
    (now0 now1 : Z) (resp1 : Awaited) (cfg : StatusUpdateConfig)
    (cbs : StatusUpdateCallbacks) (calls : list (Z * Awaited * ControllerCall)) :
  forallb (fun x => negb (isCallStart x.2)) calls = true ->
  Forall (progressText (resolveStatusUpdateConfig (Some cfg)))
    (renderedTexts (effects_of (runCalls ((now1, resp1, CallStart) :: calls)
                                  (new now0 cfg cbs)))).
Proof.
  intros Hn.
  change (resolveStatusUpdateConfig (Some cfg)) with (config (new now0 cfg cbs)).
  assert (Hm : completeIsMarked (new now0 cfg cbs)) by done.
  assert (Hp : phase (state (new now0 cfg cbs)) <> StatusPhase.complete) by done.
  generalize dependent (new now0 cfg cbs). intros c Hm Hp.
  cbn [runCalls]. rewrite effects_bind. unfold renderedTexts. rewrite omap_app.
  apply Forall_app. split.
  - by apply runCall_progressText.
  - pose proof (runCall_config now1 resp1 CallStart c) as [<- _].
    apply runCalls_progressText; [by apply runCall_completeIsMarked | done].
Qed.

Lemma new_disabled_inert (calls : list (Z * Awaited * ControllerCall)) (c : t) :
  isEnabled c = false -> statusMessageId (state c) = None -> updateTimer c = false ->
  effects_of (runCalls calls c) = [].
Proof.
  revert c. induction calls as [|[[now resp] call] calls IH]; intros c He Hi Ht; simpl; [done|].
  rewrite effects_bind.
  assert (effects_of (runCall now resp call c) = []
          /\ isEnabled (state_of (runCall now resp call c)) = false
          /\ statusMessageId (state (state_of (runCall now resp call c))) = None
          /\ updateTimer (state_of (runCall now resp call c)) = false) as (-> & ? & ? & ?).
  { destruct call; unfold_call; unfold isEnabled in *;
      rewrite ?He, ?Hi, ?Ht; simpl; rewrite ?He, ?Hi, ?Ht; try done.
    destruct (stopped c); simpl; by rewrite ?He, ?Hi, ?Ht. }
  by apply IH.
Qed.

(** X5. A disabled controller is inert. When the resolved configuration has
    [enabled] false or mode "off", no call on the controller (start,
    setPhase, timer, complete, cleanup, in any number and order) makes an
    outbound call or writes a log line, and [complete] hands the final text
    back unchanged. *)
Theorem disabled_controller_inert
    (now : Z) (cfg : StatusUpdateConfig) (cbs : StatusUpdateCallbacks)
    (calls : list (Z * Awaited * ControllerCall))
    (now' : Z) (resp : Awaited) (finalText : option jsstring) :
  isEnabled (new now cfg cbs) = false ->
  effects_of (runCalls calls (new now cfg cbs)) = []
  /\ result_of (complete now' resp finalText (new now cfg cbs)) = finalText.
Proof.
  intros He. split; [by apply new_disabled_inert|].
  unfold complete. run_prog. by rewrite He.
Qed.

End ControllerLifeCycle.

Lemma stopped_never_renders_witness :
  StatusUpdateController.stopped
    (state_of (StatusUpdateController.cleanup (Resolved None) freshController)) = true
  /\ renderedTexts
       (effects_of
          (runCalls [(9000, Resolved None, CallStart);
                     (9500, Resolved None, CallSetPhase StatusPhase.processing_tools)]
             (state_of (StatusUpdateController.cleanup (Resolved None) freshController))))
     = [].
Proof.
  split; [reflexivity|].
  apply (stopped_never_renders
           (state_of (StatusUpdateController.cleanup (Resolved None) freshController))).
  reflexivity.
Defined.

Lemma status_never_shows_complete_witness :
  forallb (fun x => negb (isCallStart x.2))
    [(3000, Resolved None, CallSetPhase StatusPhase.processing_tools);
     (4000, Resolved None, CallSetPhase StatusPhase.complete);
     (6000, Resolved None, CallTimerTick)] = true
  /\ Forall (progressText (resolveStatusUpdateConfig (Some enabledConfig)))
       (renderedTexts
          (effects_of
             (runCalls
                ((2000, Resolved (Some (lit "m1")), CallStart)
                 :: [(3000, Resolved None, CallSetPhase StatusPhase.processing_tools);
                     (4000, Resolved None, CallSetPhase StatusPhase.complete);
                     (6000, Resolved None, CallTimerTick)])
                (StatusUpdateController.new 1000 enabledConfig
                   createInlineStatusCallbacks)))).
Proof.
  split; [reflexivity|].
  apply (status_never_shows_complete 1000 2000 (Resolved (Some (lit "m1"))) enabledConfig
           createInlineStatusCallbacks).
  reflexivity.
Defined.

Lemma disabled_controller_inert_witness :
  StatusUpdateController.isEnabled
    (StatusUpdateController.new 1000 emptyConfig createInlineStatusCallbacks) = false
  /\ effects_of
       (runCalls [(2000, Resolved None, CallStart); (3000, Rejected, CallCleanup)]
          (StatusUpdateController.new 1000 emptyConfig createInlineStatusCallbacks)) = []
  /\ result_of
       (StatusUpdateController.complete 4000 (Resolved None) (Some (lit "hi"))
          (StatusUpdateController.new 1000 emptyConfig createInlineStatusCallbacks))
     = Some (lit "hi").
Proof.
  split; [reflexivity|].
  apply (disabled_controller_inert 1000 emptyConfig createInlineStatusCallbacks
           [(2000, Resolved None, CallStart); (3000, Rejected, CallCleanup)]
           4000 (Resolved None) (Some (lit "hi"))).
  reflexivity.
Defined.
(* ===================================================================== *)
(** * Calls on a controller that overlap *)
(* ===================================================================== *)

Ltac unfold_enter :=
  unfold enter, StatusUpdateController.startBegin, StatusUpdateController.setPhaseBegin,
    StatusUpdateController.timerTickBegin, StatusUpdateController.completeBegin,
    StatusUpdateController.cleanupBegin, StatusUpdateController.sendUpdateBegin,
    StatusUpdateController.stopUpdateTimer; run_prog.

Ltac unfold_resume :=
  unfold StatusUpdateController.resume, StatusUpdateController.sendUpdateResume,
    StatusUpdateController.startUpdateTimer; run_prog.

Ltac split_ifs :=
  repeat (simpl in *;
          match goal with
          | |- context [if ?b then _ else _] => destruct b eqn:?
          | |- context [match ?x with Resolved _ => _ | Rejected => _ end] => destruct x
          | |- context [match ?x with Some _ => _ | None => _ end] =>
              destruct x as [[|? ?]|] eqn:?
          end).

Section Overlap.

Import StatusUpdateController.

(** The methods run to their end are their pieces run one after the other. *)
Lemma sendUpdate_pieces (now : Z) (resp : Awaited) (c : t) :
  sendUpdate now resp c
  = bind (sendUpdateBegin now)
      (fun sent => match sent with
                   | Some editing => sendUpdateResume editing resp
                   | None => ret tt
                   end) c.
Proof.
  unfold sendUpdate, sendUpdateBegin, sendUpdateResume. run_prog.
  destruct (stopped c); simpl; [done|].
  destruct (_ && _); destruct resp as [r|]; simpl; try destruct (truthy r); done.
Qed.

Lemma setPhase_pieces (now : Z) (resp : Awaited) (p : StatusPhase) (c : t) :
  setPhase now resp p c = bind (setPhaseBegin now p) (fun parked => finish parked resp) c.
Proof.
  unfold setPhase, setPhaseBegin, finish, resume, sendUpdate, sendUpdateBegin,
    sendUpdateResume, stopUpdateTimer. run_prog.
  split_ifs; rewrite ?app_nil_r; done.
Qed.

Lemma timerTick_pieces (now : Z) (resp : Awaited) (c : t) :
  timerTick now resp c = bind (timerTickBegin now) (fun parked => finish parked resp) c.
Proof.
  unfold timerTick, timerTickBegin, finish, resume, sendUpdate, sendUpdateBegin,
    sendUpdateResume, stopUpdateTimer. run_prog.
  split_ifs; rewrite ?app_nil_r; done.
Qed.

Lemma complete_pieces (now : Z) (resp : Awaited) (finalText : option jsstring) (c : t) :
  complete now resp finalText c
  = bind (completeBegin now finalText)
      (fun r => bind (finish r.2 resp) (fun _ => ret r.1)) c.
Proof.
  unfold complete, completeBegin, finish, resume, stopUpdateTimer. run_prog.
  split_ifs; rewrite ?app_nil_r; done.
Qed.

Lemma cleanup_pieces (resp : Awaited) (c : t) :
  cleanup resp c = bind cleanupBegin (fun parked => finish parked resp) c.
Proof.
  unfold cleanup, cleanupBegin, finish, resume, stopUpdateTimer. run_prog.
  split_ifs; rewrite ?app_nil_r; done.
Qed.

Lemma state_of_tuple {S E A} (a : A) (s : S) (l : list E) : state_of (a, s, l) = s.
Proof. done. Qed.

Lemma effects_of_tuple {S E A} (a : A) (s : S) (l : list E) : effects_of (a, s, l) = l.
Proof. done. Qed.

Lemma loopStep_enters (now : Z) (call : ControllerCall) (w : Loop) :
  loopStep now (Enters call) w
  = (tt, (state_of (enter now call w.1), w.2 ++ option_list (result_of (enter now call w.1))),
     effects_of (enter now call w.1)).
Proof.
  unfold loopStep, state_of, result_of, effects_of.
  by destruct (enter now call w.1) as [[parked c] l].
Qed.

Lemma loopStep_resumes (now : Z) (n : nat) (resp : Awaited) (w : Loop) :
  loopStep now (Resumes n resp) w
  = match w.2 !! n with
    | None => (tt, w, [])
    | Some k =>
        (tt, (state_of (resume k resp w.1),
              delete n w.2 ++ option_list (result_of (resume k resp w.1))),
         effects_of (resume k resp w.1))
    end.
Proof.
  unfold loopStep, state_of, result_of, effects_of.
  destruct (w.2 !! n) as [k|]; [|done].
  by destruct (resume k resp w.1) as [[next c] l].
Qed.

(** A parked call that goes on invokes no callback and changes neither
    [stopped] nor [isComplete], the phase or the configuration. *)
Lemma resume_frame (k : Suspended) (resp : Awaited) (c : t) :
  outboundCalls (effects_of (resume k resp c)) = []
  /\ stopped (state_of (resume k resp c)) = stopped c
  /\ isComplete (state (state_of (resume k resp c))) = isComplete (state c)
  /\ phase (state (state_of (resume k resp c))) = phase (state c)
  /\ config (state_of (resume k resp c)) = config c
  /\ callbacks (state_of (resume k resp c)) = callbacks c.
Proof. destruct k; unfold_resume; split_ifs; done. Qed.

(** No call changes the configuration or the callbacks, or takes back
    [stopped] or [isComplete]. *)
Lemma enter_frame (now : Z) (call : ControllerCall) (c : t) :
  config (state_of (enter now call c)) = config c
  /\ callbacks (state_of (enter now call c)) = callbacks c
  /\ (stopped c = true -> stopped (state_of (enter now call c)) = true)
  /\ (isComplete (state c) = true -> isComplete (state (state_of (enter now call c))) = true).
Proof. destruct call; unfold_enter; split_ifs; done. Qed.

(** On a controller that is stopped and complete no call invokes a
    callback. *)
Lemma enter_final (now : Z) (call : ControllerCall) (c : t) :
  stopped c = true -> isComplete (state c) = true ->
  outboundCalls (effects_of (enter now call c)) = [].
Proof.
  intros Hs Hc. destruct call; unfold_enter; rewrite ?Hs, ?Hc, ?orb_true_r; simpl; try done.
  - destruct (updateTimer c); simpl; [destruct (updateTimer c)|]; done.
  - destruct (updateTimer c); simpl; rewrite ?Hc; simpl;
      by destruct (statusMessageId (state c)) as [[|? ?]|].
Qed.

Lemma completeBegin_stops (now : Z) (finalText : option jsstring) (c : t) :
  stopped c = false ->
  stopped (state_of (enter now (CallComplete finalText) c)) = true
  /\ isComplete (state (state_of (enter now (CallComplete finalText) c))) = true.
Proof. intros Hs. unfold_enter. rewrite Hs. split_ifs; done. Qed.

Lemma loopStep_final (now : Z) (s : LoopStep) (w : Loop) :
  stopped w.1 = true -> isComplete (state w.1) = true ->
  outboundCalls (effects_of (loopStep now s w)) = []
  /\ stopped (state_of (loopStep now s w)).1 = true
  /\ isComplete (state (state_of (loopStep now s w)).1) = true.
Proof.
  intros Hs Hc. destruct s as [call|n resp].
  - rewrite loopStep_enters, effects_of_tuple, !state_of_tuple. cbn [fst snd].
    destruct (enter_frame now call w.1) as (_ & _ & Hs' & Hc').
    split; [by apply enter_final|]. auto.
  - rewrite loopStep_resumes. destruct (w.2 !! n) as [k|]; [|done].
    rewrite effects_of_tuple, !state_of_tuple. cbn [fst snd].
    destruct (resume_frame k resp w.1) as (He & Hs' & Hc' & _).
    split; [done|]. by rewrite Hs', Hc'.
Qed.

(** X1. [complete()] is final. When [complete] is called on a controller
    that was not stopped before, then whatever happens afterwards, in any
    number and order (a new call of [start], [setPhase], [complete] or
    [cleanup], a tick of the interval, a call parked at an [await] going
    on, such as a [start] that nobody awaited), the controller invokes
    neither [sendStatus] nor [deleteStatus] again, and it stays stopped and
    complete. In particular [cleanup()] in the [finally] block of the
    runner does not delete the message that [complete] has left for the
    final reply. *)
Theorem complete_is_final
    (c : t) (parked : list Suspended) (now : Z) (finalText : option jsstring)
    (later : list (Z * LoopStep)) :
  stopped c = false ->
  outboundCalls
    (effects_of
       (loopSteps later
          (state_of (loopStep now (Enters (CallComplete finalText)) (c, parked)))))
  = []
  /\ stopped
       (state_of
          (loopSteps later
             (state_of (loopStep now (Enters (CallComplete finalText)) (c, parked))))).1
     = true
  /\ isComplete
       (state
          (state_of
             (loopSteps later
                (state_of (loopStep now (Enters (CallComplete finalText)) (c, parked))))).1)
     = true.
Proof.
  intros Hs. rewrite loopStep_enters, !state_of_tuple. cbn [fst snd].
  destruct (completeBegin_stops now finalText c Hs) as [Hs' Hc'].
  generalize dependent (state_of (enter now (CallComplete finalText) c)).
  intros c' Hs' Hc'.
  generalize (parked ++ option_list (result_of (enter now (CallComplete finalText) c))).
  clear Hs. revert c' Hs' Hc'.
  induction later as [|[now' s] later IH]; intros c' Hs' Hc' q; [done|].
  cbn [loopSteps]. rewrite effects_bind, state_bind.
  destruct (loopStep_final now' s (c', q) Hs' Hc') as (He & Hs'' & Hc'').
  destruct (state_of (loopStep now' s (c', q))) as [c'' q''] eqn:Hw.
  destruct (IH c'' Hs'' Hc'' q'') as (He' & ? & ?).
  unfold outboundCalls in *. by rewrite omap_app, He, He'.
Qed.

(** No call arms the interval on entry; [start] is parked only on an
    enabled controller. *)
Lemma enter_timer (now : Z) (call : ControllerCall) (c : t) :
  (updateTimer (state_of (enter now call c)) = true -> updateTimer c = true)
  /\ (forall k, result_of (enter now call c) = Some k -> ofStart k -> isEnabled c = true).
Proof.
  destruct call; unfold_enter; split_ifs; split; try done;
    intros; simpl in *; simplify_eq; simpl in *; try done;
    repeat match goal with
           | H : _ || _ = false |- _ => apply orb_false_iff in H as [? ?]
           | H : negb _ = false |- _ => apply negb_false_iff in H
           end; try done; congruence.
Qed.

(** Only what is left of [start] arms the interval, and only when the
    elapsed time is shown. *)
Lemma resume_timer (k : Suspended) (resp : Awaited) (c : t) :
  (updateTimer (state_of (resume k resp c)) = true ->
   updateTimer c = true \/ (ofStart k /\ showElapsedTime (config c) = true))
  /\ (forall k', result_of (resume k resp c) = Some k' -> ofStart k).
Proof.
  destruct k as [editing [|]| |inCleanup]; unfold_resume; split_ifs; split;
    try done; intros; simplify_eq; simpl in *; auto.
Qed.

Lemma isEnabled_config (c c' : t) : config c' = config c -> isEnabled c' = isEnabled c.
Proof. unfold isEnabled. by intros ->. Qed.

Lemma loopStep_timerJustified (now : Z) (s : LoopStep) (w : Loop) :
  timerJustified w.1 -> startJustified w ->
  timerJustified (state_of (loopStep now s w)).1
  /\ startJustified (state_of (loopStep now s w))
  /\ config (state_of (loopStep now s w)).1 = config w.1.
Proof.
  unfold timerJustified, startJustified. intros Ht Hq.
  destruct s as [call|n resp].
  - rewrite loopStep_enters, !state_of_tuple. cbn [fst snd].
    destruct (enter_frame now call w.1) as (Hcf & _ & _ & _).
    destruct (enter_timer now call w.1) as (Htm & Hpark).
    rewrite (isEnabled_config _ _ Hcf), Hcf. repeat split; try (by intuition).
    intros (k & Hin & Hk). apply elem_of_app in Hin as [Hin|Hin]; [by eauto|].
    destruct (result_of (enter now call w.1)) as [k'|] eqn:Hr; simpl in Hin.
    + apply list_elem_of_singleton in Hin as ->. by eapply Hpark.
    + by apply not_elem_of_nil in Hin.
  - rewrite loopStep_resumes. destruct (w.2 !! n) as [k|] eqn:Hn; [|by intuition].
    rewrite !state_of_tuple. cbn [fst snd].
    destruct (resume_frame k resp w.1) as (_ & _ & _ & _ & Hcf & _).
    destruct (resume_timer k resp w.1) as (Htm & Hnext).
    assert (Hk : ofStart k -> isEnabled w.1 = true).
    { intros Hk. apply Hq. exists k. split; [|done]. by eapply list_elem_of_lookup_2. }
    rewrite (isEnabled_config _ _ Hcf), Hcf. repeat split; try (by intuition).
    intros (k' & Hin & Hk'). apply elem_of_app in Hin as [Hin|Hin].
    + apply Hq. exists k'. split; [|done].
      by eapply list_elem_of_delete_inv.
    + destruct (result_of (resume k resp w.1)) as [k''|] eqn:Hr; simpl in Hin.
      * apply Hk. by eapply Hnext.
      * by apply not_elem_of_nil in Hin.
Qed.

Lemma loopSteps_timerJustified (steps : list (Z * LoopStep)) (w : Loop) :
  timerJustified w.1 -> startJustified w ->
  timerJustified (state_of (loopSteps steps w)).1
  /\ startJustified (state_of (loopSteps steps w))
  /\ config (state_of (loopSteps steps w)).1 = config w.1.
Proof.
  revert w. induction steps as [|[now s] steps IH]; intros w Ht Hq; [done|].
  cbn [loopSteps]. rewrite state_bind.
  destruct (loopStep_timerJustified now s w Ht Hq) as (Ht' & Hq' & Hcf).
  destruct (IH _ Ht' Hq') as (? & ? & Hcf'). by rewrite Hcf', Hcf.
Qed.

(** X3. The interval is armed only where it is configured, and a tick
    takes it off a finished controller. Whatever happens to a controller
    after its creation, in any number and order (calls of its methods,
    ticks, calls parked at an [await] going on), the interval is armed only
    if the controller is enabled and shows the elapsed time: a controller
    that is disabled or in mode "off" never arms one. And when the
    controller is stopped or complete, the next tick disarms the interval
    and invokes no callback. (The interval can be armed on a stopped
    controller: what is left of [start] arms it without looking at
    [stopped], see [start_resumes_after_complete].) *)
Theorem timer_armed_only_when_configured
    (now0 : Z) (cfg : StatusUpdateConfig) (cbs : StatusUpdateCallbacks)
    (steps : list (Z * LoopStep)) (now : Z) :
  let w := state_of (loopSteps steps (new now0 cfg cbs, [])) in
  (updateTimer w.1 = true ->
   isEnabled (new now0 cfg cbs) = true
   /\ showElapsedTime (resolveStatusUpdateConfig (Some cfg)) = true)
  /\ (stopped w.1 = true \/ isComplete (state w.1) = true ->
      effects_of (loopStep now (Enters CallTimerTick) w) = []
      /\ updateTimer (state_of (loopStep now (Enters CallTimerTick) w)).1 = false).
Proof.
  intros w.
  destruct (loopSteps_timerJustified steps (new now0 cfg cbs, [])) as (Ht & _ & Hcf).
  { done. }
  { intros (k & Hin & _). by apply not_elem_of_nil in Hin. }
  fold w in Ht, Hcf. split.
  - intros Hon. destruct (Ht Hon) as [He Hs].
    rewrite (isEnabled_config _ _ Hcf) in He. by rewrite Hcf in Hs.
  - intros Hdone. rewrite loopStep_enters, effects_of_tuple, state_of_tuple. cbn [fst snd].
    unfold_enter. destruct (updateTimer w.1) eqn:Htm; simpl; [|done].
    destruct Hdone as [-> | ->]; rewrite ?orb_true_r; simpl; by rewrite Htm.
Qed.

End Overlap.

(** The statement of [complete_is_final] for a controller whose [start] is
    still parked when [complete] is called: the first send settles
    afterwards, the interval fires, and the runner cleans up. *)
Lemma complete_is_final_witness :
  outboundCalls
    (effects_of
       (loopSteps [(6500, Resumes 0 (Resolved (Some (lit "m1"))));
                   (6600, Resumes 0 (Resolved None));
                   (7000, Enters CallTimerTick);
                   (7500, Enters CallCleanup)]
          (state_of
             (loopStep 6000 (Enters (CallComplete None))
                (state_of (loopStep 1000 (Enters CallStart) (freshController, [])))))))
  = [].
Proof.
  refine (proj1 (complete_is_final
                   (state_of (loopStep 1000 (Enters CallStart) (freshController, []))).1
                   (state_of (loopStep 1000 (Enters CallStart) (freshController, []))).2
                   6000 None _ _)).
  reflexivity.
Defined.

(** What is left of a [start] that nobody awaited arms the interval on a
    controller that [complete] has stopped in the meantime; the next tick
    takes it off again. *)
Example start_resumes_after_complete :
  let w :=
    state_of
      (loopSteps [(1000, Enters CallStart);
                  (6000, Enters (CallComplete (Some (lit "hi"))));
                  (6500, Resumes 0 (Resolved (Some (lit "m1"))));
                  (6600, Resumes 0 (Resolved None))]
         (freshController, [])) in
  StatusUpdateController.stopped w.1 = true
  /\ StatusUpdateController.updateTimer w.1 = true
  /\ StatusUpdateController.updateTimer
       (state_of (loopStep 7000 (Enters CallTimerTick) w)).1 = false.
Proof. vm_compute. repeat split; reflexivity. Qed.

(** The statement of [timer_armed_only_when_configured] for that run. *)
Lemma timer_armed_only_when_configured_witness :
  StatusUpdateController.isEnabled
    (StatusUpdateController.new 1000 enabledConfig createInlineStatusCallbacks) = true
  /\ showElapsedTime (resolveStatusUpdateConfig (Some enabledConfig)) = true
  /\ StatusUpdateController.updateTimer
       (state_of
          (loopStep 7000 (Enters CallTimerTick)
             (state_of
                (loopSteps [(2000, Enters CallStart);
                            (6000, Enters (CallComplete (Some (lit "hi"))));
                            (6500, Resumes 0 (Resolved (Some (lit "m1"))));
                            (6600, Resumes 0 (Resolved None))]
                   (StatusUpdateController.new 1000 enabledConfig
                      createInlineStatusCallbacks, []))))).1
     = false.
Proof.
  destruct (timer_armed_only_when_configured 1000 enabledConfig createInlineStatusCallbacks
              [(2000, Enters CallStart);
               (6000, Enters (CallComplete (Some (lit "hi"))));
               (6500, Resumes 0 (Resolved (Some (lit "m1"))));
               (6600, Resumes 0 (Resolved None))] 7000) as [Harmed Htick].
  destruct (Harmed ltac:(vm_compute; reflexivity)) as [Henabled Hshown].
  destruct (Htick ltac:(left; vm_compute; reflexivity)) as [_ Hoff].
  split; [exact Henabled|]. split; [exact Hshown | exact Hoff].
Defined.
(* ===================================================================== *)
(** * The run context of the status updates *)
(* ===================================================================== *)

Section RunContext.

Import StatusUpdateController.

Lemma live_false (c : t) :
  live c = false <-> isEnabled c = false \/ stopped c = true \/ isComplete (state c) = true.
Proof.
  unfold live. destruct (isEnabled c), (stopped c), (isComplete (state c)); simpl; naive_solver.
Qed.

Lemma live_true (c : t) :
  live c = true <-> isEnabled c = true /\ stopped c = false /\ isComplete (state c) = false.
Proof.
  unfold live. destruct (isEnabled c), (stopped c), (isComplete (state c)); simpl; naive_solver.
Qed.

Lemma setPhaseBegin_not_live (now : Z) (p : StatusPhase) (c : t) :
  live c = false -> setPhaseBegin now p c = (None, c, []).
Proof.
  unfold live, setPhaseBegin. intros Hl. run_prog.
  destruct (isEnabled c), (stopped c), (isComplete (state c)); simpl in *; done.
Qed.

(** A controller that no longer reacts to [setPhase] stays so. *)
Lemma loopStep_not_live (now : Z) (s : LoopStep) (w : Loop) :
  live w.1 = false -> live (state_of (loopStep now s w)).1 = false.
Proof.
  rewrite !live_false. intros Hl. destruct s as [call|n resp].
  - rewrite loopStep_enters, state_of_tuple. cbn [fst snd].
    destruct (enter_frame now call w.1) as (Hcf & _ & Hs & Hc).
    rewrite (isEnabled_config _ _ Hcf). naive_solver.
  - rewrite loopStep_resumes. destruct (w.2 !! n) as [k|]; [|done].
    rewrite state_of_tuple. cbn [fst snd].
    destruct (resume_frame k resp w.1) as (_ & Hs & Hc & _ & Hcf & _).
    by rewrite (isEnabled_config _ _ Hcf), Hs, Hc.
Qed.

(** While a controller reacts to [setPhase] its phase is not [complete]:
    no step changes that. *)
Lemma loopStep_phase (now : Z) (s : LoopStep) (w : Loop) :
  (live w.1 = true -> phase (state w.1) <> StatusPhase.complete) ->
  live (state_of (loopStep now s w)).1 = true ->
  phase (state (state_of (loopStep now s w)).1) <> StatusPhase.complete.
Proof.
  intros Hp Hl.
  assert (Hw : live w.1 = true).
  { destruct (live w.1) eqn:Hw; [done|]. by rewrite loopStep_not_live in Hl. }
  specialize (Hp Hw). revert Hl. destruct s as [call|n resp].
  - rewrite loopStep_enters, state_of_tuple. cbn [fst snd]. apply live_true in Hw as (He & Hs & Hc).
    unfold live, isEnabled in *.
    destruct call; unfold_enter; rewrite ?He, ?Hs, ?Hc; simpl; try done;
      split_ifs; simpl; rewrite ?andb_false_r; try done;
      repeat match goal with
             | H : bool_decide _ = true |- _ => apply bool_decide_eq_true in H
             | H : bool_decide _ = false |- _ => apply bool_decide_eq_false in H
             end; try done; congruence.
  - rewrite loopStep_resumes. destruct (w.2 !! n) as [k|]; [|done].
    rewrite state_of_tuple. cbn [fst snd].
    destruct (resume_frame k resp w.1) as (_ & _ & _ & Hph & _). by rewrite Hph.
Qed.

(** A controller that no longer reacts to [setPhase] renders nothing,
    unless [start] is called on it. *)
Lemma loopStep_not_live_silent (now : Z) (s : LoopStep) (w : Loop) :
  live w.1 = false -> timerJustified w.1 -> s <> Enters CallStart ->
  renderedTexts (effects_of (loopStep now s w)) = [].
Proof.
  intros Hl Ht Hs. destruct s as [call|n resp].
  - rewrite loopStep_enters, effects_of_tuple.
    destruct call; try done.
    + unfold enter. by rewrite setPhaseBegin_not_live.
    + unfold timerJustified in Ht. apply live_false in Hl.
      unfold_enter. destruct (updateTimer w.1) eqn:Htm; simpl; [|done].
      destruct Ht as [He _]; [done|].
      destruct Hl as [Hl|[Hl|Hl]]; [congruence| |]; rewrite Hl, ?orb_true_r; simpl;
        by rewrite Htm.
    + unfold_enter. split_ifs; done.
    + unfold_enter. split_ifs; done.
  - rewrite loopStep_resumes. destruct (w.2 !! n) as [k|]; [|done].
    rewrite effects_of_tuple.
    destruct k; unfold_resume; split_ifs; done.
Qed.

Lemma loopStep_none (now : Z) (os : option LoopStep) (w : Loop) :
  state_of (match os with
            | Some s => loopStep now s w
            | None => (tt, w, [])
            end)
  = match os with
    | Some s => state_of (loopStep now s w)
    | None => w
    end.
Proof. by destruct os. Qed.

(** What a step of the run does to the controller, to the parked calls and
    to the tracked phase, and what it renders. *)
Lemma runLoopStep_acts (now : Z) (s : RunLoopStep) (w : RunLoop) (c : t) :
  controller w.1 = Some c ->
  controller (state_of (runLoopStep now s w)).1
  = Some (match controllerStepOf w.1 s with
          | Some s' => state_of (loopStep now s' (c, w.2))
          | None => (c, w.2)
          end).1
  /\ (state_of (runLoopStep now s w)).2
     = (match controllerStepOf w.1 s with
        | Some s' => state_of (loopStep now s' (c, w.2))
        | None => (c, w.2)
        end).2
  /\ currentPhase (state_of (runLoopStep now s w)).1 = trackedPhaseAfter w.1 s
  /\ sentTexts (effects_of (runLoopStep now s w))
     = match controllerStepOf w.1 s with
       | Some s' => renderedTexts (effects_of (loopStep now s' (c, w.2)))
       | None => []
       end.
Proof.
  intros Hc.
  assert (Hlift : forall l : list StatusEffect,
            sentTexts (ByController <$> l) = renderedTexts l).
  { induction l as [|e l IH]; [done|]. unfold sentTexts, renderedTexts in *.
    destruct e; csimpl; by rewrite IH. }
  assert (Hon : forall s',
            let r := loopStep now s' (c, w.2) in
            controller (state_of (onControllerLoop now s' w)).1 = Some (state_of r).1
            /\ (state_of (onControllerLoop now s' w)).2 = (state_of r).2
            /\ currentPhase (state_of (onControllerLoop now s' w)).1 = currentPhase w.1
            /\ sentTexts (effects_of (onControllerLoop now s' w))
               = renderedTexts (effects_of r)).
  { intros s' r. unfold onControllerLoop. rewrite Hc. fold r.
    destruct r as [[[] [c' q']] l]. rewrite effects_of_tuple, !state_of_tuple. simpl.
    by rewrite Hlift. }
  destruct s as [event| |n resp|finalText|]; try apply Hon.
  cbn [runLoopStep controllerStepOf trackedPhaseAfter].
  unfold handleAgentEventForStatus.
  destruct (mapAgentEventToPhase event) as [p|]; [case_bool_decide as Hp|].
  - run_prog. rewrite Hc. simpl. rewrite bool_decide_eq_true_2 by done. simpl.
    by rewrite Hc, app_nil_r, Hp.
  - rewrite loopStep_enters, effects_of_tuple, state_of_tuple. unfold enter.
    run_prog. rewrite Hc. simpl. rewrite bool_decide_eq_false_2 by done. simpl.
    destruct (setPhaseBegin now p c) as [[parked c'] l]. simpl. by rewrite Hlift.
  - run_prog. rewrite Hc. simpl. by rewrite Hc, app_nil_r.
Qed.

Lemma runLoopStep_no_controller (now : Z) (s : RunLoopStep) (w : RunLoop) :
  controller w.1 = None ->
  controller (state_of (runLoopStep now s w)).1 = None
  /\ sentTexts (effects_of (runLoopStep now s w)) = [].
Proof.
  intros Hc. destruct s; cbn [runLoopStep]; unfold onControllerLoop; rewrite ?Hc; try done.
  unfold handleAgentEventForStatus. run_prog. by rewrite Hc.
Qed.

Lemma runLoopStep_justified (now : Z) (s : RunLoopStep) (w : RunLoop) :
  justifiedRun w -> justifiedRun (state_of (runLoopStep now s w)).
Proof.
  unfold justifiedRun. intros Hj c' Hc'.
  destruct (controller w.1) as [c|] eqn:Hc.
  2:{ destruct (runLoopStep_no_controller now s w Hc) as [Hn _]. congruence. }
  destruct (runLoopStep_acts now s w c Hc) as (Hctl & Hq & _).
  destruct (Hj c eq_refl) as [Ht Hs].
  rewrite Hc' in Hctl. injection Hctl as ->. rewrite Hq.
  destruct (controllerStepOf w.1 s) as [s'|]; [|done].
  destruct (loopStep_timerJustified now s' (c, w.2) Ht Hs) as (Ht' & Hs' & _).
  split; [done|]. by destruct (state_of (loopStep now s' (c, w.2))).
Qed.

Lemma controllerStepOf_not_start (ctx : StatusUpdateRunContext) (s : RunLoopStep)
    (s' : LoopStep) :
  controllerStepOf ctx s = Some s' -> s' <> Enters CallStart.
Proof.
  destruct s as [event| |n resp|finalText|]; simpl; try (intros; by simplify_eq).
  destruct (mapAgentEventToPhase event) as [p|]; [|done].
  destruct (bool_decide _); intros; by simplify_eq.
Qed.

(** Once the controller no longer reacts to [setPhase], no step of the run
    renders, and that stays so. *)
Lemma runLoopStep_quiet (now : Z) (s : RunLoopStep) (w : RunLoop) :
  justifiedRun w -> quietContext w.1 ->
  quietContext (state_of (runLoopStep now s w)).1
  /\ sentTexts (effects_of (runLoopStep now s w)) = [].
Proof.
  unfold quietContext. intros Hj Hq.
  destruct (controller w.1) as [c|] eqn:Hc.
  2:{ destruct (runLoopStep_no_controller now s w Hc) as [Hn Hs]. split; [|done].
      intros c'. by rewrite Hn. }
  destruct (runLoopStep_acts now s w c Hc) as (Hctl & _ & _ & Hsent).
  destruct (Hj c Hc) as [Ht _]. specialize (Hq c eq_refl).
  rewrite Hsent, Hctl. destruct (controllerStepOf w.1 s) as [s'|] eqn:Hs'.
  - split.
    + intros c' [= <-]. by apply (loopStep_not_live now s' (c, w.2)).
    + apply (loopStep_not_live_silent now s' (c, w.2)); [done|done|].
      by eapply controllerStepOf_not_start.
  - split; [|done]. by intros c' [= <-].
Qed.

Lemma runLoopSteps_quiet (steps : list (Z * RunLoopStep)) (w : RunLoop) :
  justifiedRun w -> quietContext w.1 ->
  justifiedRun (state_of (runLoopSteps steps w))
  /\ quietContext (state_of (runLoopSteps steps w)).1
  /\ sentTexts (effects_of (runLoopSteps steps w)) = [].
Proof.
  revert w. induction steps as [|[now s] steps IH]; intros w Hj Hq; [done|].
  cbn [runLoopSteps]. rewrite state_bind, effects_bind.
  destruct (runLoopStep_quiet now s w Hj Hq) as [Hq' Hs].
  destruct (IH _ (runLoopStep_justified now s w Hj) Hq') as (? & ? & Hs').
  unfold sentTexts in *. by rewrite omap_app, Hs, Hs'.
Qed.

(** Until the [complete] phase is reached, neither the controller nor the
    context has it as its phase. *)
Lemma runLoopStep_tracked (now : Z) (s : RunLoopStep) (w : RunLoop) :
  trackedContext w.1 -> trackedContext (state_of (runLoopStep now s w)).1.
Proof.
  unfold trackedContext. intros Htr c' Hc' Hl'.
  destruct (controller w.1) as [c|] eqn:Hc.
  2:{ destruct (runLoopStep_no_controller now s w Hc) as [Hn _]. congruence. }
  destruct (runLoopStep_acts now s w c Hc) as (Hctl & _ & Hph & _).
  specialize (Htr c eq_refl). rewrite Hc' in Hctl. injection Hctl as ->. rewrite Hph.
  destruct (controllerStepOf w.1 s) as [s'|] eqn:Hs'.
  - assert (Hl : live c = true).
    { destruct (live c) eqn:Hl; [done|].
      by rewrite (loopStep_not_live now s' (c, w.2)) in Hl'. }
    destruct (Htr Hl) as [Hp Hcur]. split.
    + apply (loopStep_phase now s' (c, w.2)); [by intros _|done].
    + destruct s as [event| |n resp|finalText|]; try done. simpl in *.
      destruct (mapAgentEventToPhase event) as [p|]; [|done]. simpl.
      destruct (bool_decide (p = currentPhase w.1)); [done|]. simplify_eq.
      intros ->. revert Hl'. rewrite loopStep_enters, state_of_tuple. cbn [fst snd].
      apply live_true in Hl as (He & Hst & Hcm). unfold live.
      unfold_enter. rewrite He, Hst, Hcm. simpl.
      rewrite bool_decide_eq_false_2 by congruence. simpl.
      destruct (updateTimer c); simpl; by rewrite andb_false_r.
  - destruct (Htr Hl') as [Hp Hcur]. split; [done|].
    destruct s as [event| |n resp|finalText|]; try done. simpl in *.
    destruct (mapAgentEventToPhase event) as [p|]; [|done]. simpl.
    destruct (bool_decide (p = currentPhase w.1)) eqn:Hpc; [|done].
    apply bool_decide_eq_true in Hpc. congruence.
Qed.

Lemma runLoopSteps_tracked (steps : list (Z * RunLoopStep)) (w : RunLoop) :
  justifiedRun w -> trackedContext w.1 ->
  justifiedRun (state_of (runLoopSteps steps w))
  /\ trackedContext (state_of (runLoopSteps steps w)).1.
Proof.
  revert w. induction steps as [|[now s] steps IH]; intros w Hj Htr; [done|].
  cbn [runLoopSteps]. rewrite state_bind.
  apply IH; [by apply runLoopStep_justified | by apply runLoopStep_tracked].
Qed.

(** The [lifecycle]/[end] event takes the controller to where it no longer
    reacts to [setPhase]. *)
Lemma lifecycleEnd_quiet (now : Z) (w : RunLoop) :
  trackedContext w.1 ->
  quietContext (state_of (runLoopStep now (EventArrives lifecycleEnd) w)).1.
Proof.
  unfold trackedContext, quietContext. intros Htr c' Hc'.
  destruct (controller w.1) as [c|] eqn:Hc.
  2:{ destruct (runLoopStep_no_controller now (EventArrives lifecycleEnd) w Hc) as [Hn _].
      congruence. }
  destruct (runLoopStep_acts now (EventArrives lifecycleEnd) w c Hc) as (Hctl & _).
  specialize (Htr c eq_refl). rewrite Hc' in Hctl. injection Hctl as ->.
  cbn [controllerStepOf].
  change (mapAgentEventToPhase lifecycleEnd) with (Some StatusPhase.complete).
  destruct (live c) eqn:Hl.
  - destruct (Htr eq_refl) as [Hp Hcur].
    rewrite bool_decide_eq_false_2 by congruence.
    rewrite loopStep_enters, state_of_tuple. cbn [fst snd].
    apply live_true in Hl as (He & Hst & Hcm). unfold live.
    unfold_enter. rewrite He, Hst, Hcm. simpl.
    rewrite bool_decide_eq_false_2 by congruence. simpl.
    destruct (updateTimer c); simpl; by rewrite andb_false_r.
  - destruct (bool_decide _); [done|].
    by apply (loopStep_not_live now _ (c, w.2)).
Qed.

(** On a controller that no longer reacts to [setPhase], an agent event
    leaves nothing but the lines of [handleAgentEventForStatus]. *)
Lemma event_quiet (now : Z) (event : AgentEvent) (w : RunLoop) :
  quietContext w.1 ->
  Forall ownLogLine (effects_of (runLoopStep now (EventArrives event) w))
  /\ controller (state_of (runLoopStep now (EventArrives event) w)).1 = controller w.1
  /\ (state_of (runLoopStep now (EventArrives event) w)).2 = w.2.
Proof.
  unfold quietContext. intros Hq. cbn [runLoopStep].
  unfold handleAgentEventForStatus. run_prog.
  destruct (controller w.1) as [c|] eqn:Hc; simpl.
  2:{ rewrite Hc, app_nil_r. by repeat constructor. }
  destruct (mapAgentEventToPhase event) as [p|]; simpl.
  2:{ rewrite Hc, app_nil_r. by repeat constructor. }
  destruct (bool_decide (p = currentPhase w.1)); simpl.
  { rewrite Hc, app_nil_r. by repeat constructor. }
  rewrite setPhaseBegin_not_live by (by apply Hq). simpl.
  rewrite app_nil_r. by repeat constructor.
Qed.

(** X6. The end of the run silences the status updates. In the run context
    of [createStatusUpdateRunContext], whose [start()] nobody awaits, once
    the [lifecycle]/[end] event has been handled [sendStatus] is not called
    again: not by a later agent event (a late tool start, a late reasoning
    chunk), not by a tick of the interval, not by a parked call that goes
    on, not by [completeStatusUpdate] or [cleanupStatusUpdate], whatever
    came before and whatever the configuration is. A later agent event
    leaves nothing but the lines that [handleAgentEventForStatus] logs
    itself ([log.debug] for every event, [log.info] when the tracked phase
    changes), and the controller and the parked calls stay as they are. *)
Theorem lifecycle_end_silences
    (now0 now1 : Z) (cfg : ClawdbotConfig) (agentId : option jsstring)
    (cbs : StatusUpdateCallbacks)
    (before after : list (Z * RunLoopStep)) (nowEnd now : Z) (event : AgentEvent) :
  let w1 :=
    state_of
      (runLoopSteps (before ++ [(nowEnd, EventArrives lifecycleEnd)])
         (startRunLoop now1 (createAgentStatusController now0 cfg agentId cbs))) in
  let w2 := state_of (runLoopSteps after w1) in
  sentTexts (effects_of (runLoopSteps after w1)) = []
  /\ Forall ownLogLine (effects_of (runLoopStep now (EventArrives event) w2))
  /\ controller (state_of (runLoopStep now (EventArrives event) w2)).1 = controller w2.1
  /\ (state_of (runLoopStep now (EventArrives event) w2)).2 = w2.2.
Proof.
  intros w1 w2.
  assert (Happ : forall st st' w,
             state_of (runLoopSteps (st ++ st') w)
             = state_of (runLoopSteps st' (state_of (runLoopSteps st w)))).
  { clear. induction st as [|[n s] st IH]; intros st' w; [done|].
    simpl. by rewrite !state_bind, IH. }
  assert (Hstart : justifiedRun
                     (startRunLoop now1 (createAgentStatusController now0 cfg agentId cbs))
                   /\ trackedContext
                        (startRunLoop now1
                           (createAgentStatusController now0 cfg agentId cbs)).1).
  { unfold startRunLoop, createStatusUpdateRunContext, onController, justifiedRun,
      trackedContext. simpl.
    destruct (createAgentStatusController now0 cfg agentId cbs) as [c0|] eqn:Hc0; [|done].
    assert (Hnew : updateTimer c0 = false /\ phase (state c0) = StatusPhase.sending_query).
    { unfold createAgentStatusController in Hc0. destruct (negb _); by simplify_eq. }
    destruct Hnew as [Htm Hph].
    pose proof (enter_timer now1 CallStart c0) as [Hkeep Hpark].
    pose proof (enter_frame now1 CallStart c0) as (Hcf & _).
    pose proof (loopStep_phase now1 (Enters CallStart) (c0, [])) as Hphase.
    rewrite loopStep_enters, state_of_tuple in Hphase.
    unfold enter in *. cbn [fst snd] in Hphase.
    unfold state_of, result_of, effects_of in *.
    destruct (startBegin now1 c0) as [[parked c1] l1]. simpl in *. split.
    - intros c [= <-]. split.
      + intros Hon. apply Hkeep in Hon. congruence.
      + unfold startJustified. simpl. intros (k & Hin & Hk).
        rewrite (isEnabled_config _ _ Hcf).
        destruct parked as [k'|]; simpl in Hin; [|by apply not_elem_of_nil in Hin].
        apply list_elem_of_singleton in Hin as ->. by eapply Hpark.
    - intros c [= <-] Hl. split; [|done]. apply Hphase; [|done]. intros _. by rewrite Hph. }
  destruct Hstart as [Hj0 Htr0].
  assert (Hw1 : justifiedRun w1 /\ quietContext w1.1).
  { unfold w1. rewrite Happ.
    destruct (runLoopSteps_tracked before _ Hj0 Htr0) as [Hj Htr].
    cbn [runLoopSteps]. rewrite state_bind. cbn [ret state_of fst snd].
    split; [by apply runLoopStep_justified | by apply lifecycleEnd_quiet]. }
  destruct Hw1 as [Hj1 Hq1].
  destruct (runLoopSteps_quiet after w1 Hj1 Hq1) as (_ & Hq2 & Hsilent).
  split; [done|]. by apply event_quiet.
Qed.

(** X7. An agent's own settings replace the defaults. When the list of
    agents has an entry for the agent id that carries a [statusUpdates]
    object, [resolveStatusUpdateConfigFromConfig] returns that object as it
    is and ignores [agents.defaults.statusUpdates]: the two are not merged.
    So [createAgentStatusController] creates a controller exactly when the
    agent's own object sets [enabled] to true, whatever the defaults say. *)
Theorem agent_config_replaces_defaults
    (now : Z) (cfg : ClawdbotConfig) (agentId : jsstring)
    (before after : list AgentConfig) (agent : AgentConfig) (su : StatusUpdateConfig)
    (cbs : StatusUpdateCallbacks) :
  agentId <> [] ->
  agents_list cfg = Some (before ++ agent :: after) ->
  Forall (fun other => agent_id other <> agentId) before ->
  agent_id agent = agentId ->
  agent_statusUpdates agent = Some su ->
  resolveStatusUpdateConfigFromConfig cfg (Some agentId) = su
  /\ createAgentStatusController now cfg (Some agentId) cbs
     = if bool_decide (cfg_enabled su = Some true)
       then Some (createStatusUpdateController now su cbs) else None.
Proof.
  intros Hne Hlist Hbefore Hid Hsu.
  assert (Hres : resolveStatusUpdateConfigFromConfig cfg (Some agentId) = su).
  { unfold resolveStatusUpdateConfigFromConfig. rewrite Hlist.
    destruct agentId as [|c r]; [done|].
    assert (Hfind : List.find (fun a => bool_decide (agent_id a = c :: r))
                      (before ++ agent :: after) = Some agent).
    { clear Hlist. induction before as [|b before IH]; simpl.
      - by rewrite bool_decide_eq_true_2.
      - apply Forall_cons in Hbefore as [Hb Hbefore].
        rewrite bool_decide_eq_false_2 by done. by apply IH. }
    by rewrite Hfind, Hsu. }
  split; [done|]. unfold createAgentStatusController. rewrite Hres.
  by destruct (cfg_enabled su) as [[]|].
Qed.

End RunContext.

Lemma agent_config_replaces_defaults_witness :
  createAgentStatusController 1000
    {| agents_list := Some [{| agent_id := lit "main";
                               agent_statusUpdates := Some emptyConfig |}];
       agents_defaults_statusUpdates := Some enabledConfig |}
    (Some (lit "main")) createInlineStatusCallbacks
  = if bool_decide (cfg_enabled emptyConfig = Some true)
    then Some (createStatusUpdateController 1000 emptyConfig createInlineStatusCallbacks)
    else None.
Proof.
  refine (proj2 (agent_config_replaces_defaults 1000 _ (lit "main") [] []
                   {| agent_id := lit "main"; agent_statusUpdates := Some emptyConfig |}
                   emptyConfig createInlineStatusCallbacks _ _ _ _ _)).
  - vm_compute. discriminate.
  - reflexivity.
  - constructor.
  - reflexivity.
  - reflexivity.
Defined.


(* ===================================================================== *)
(** * The sent-message cache *)
(* ===================================================================== *)

Section SentMessageCache.

Implicit Types (m : gmap jsstring CacheEntry) (entry : CacheEntry).

Lemma cleanupExpired_consistent (now : Z) entry :
  dom (timestamps entry) = messageIds entry ->
  dom (timestamps (cleanupExpired now entry)) = messageIds (cleanupExpired now entry).
Proof.
  unfold cleanupExpired. simpl. intros <-. apply set_eq. intros id.
  rewrite elem_of_difference, !elem_of_dom.
  rewrite lookup_difference. unfold is_Some.
  destruct (filter _ (timestamps entry) !! id) as [ts|] eqn:Hf; simpl.
  - split; [by intros [? ?]|]. intros [_ Hn]. destruct Hn. by exists ts.
  - split; [|by intros [? _]]. intros H. split; [done|]. by intros [? ?].
Qed.

Lemma runCacheCall_consistent m (call : CacheCall) :
  cacheConsistent m -> cacheConsistent (runCacheCall m call).
Proof.
  unfold cacheConsistent. intros Hm.
  destruct call as [chat id isStatus now now'|chat|chat id now|]; simpl.
  - unfold recordSentMessage, getChatKey. intros key entry.
    destruct (decide (key = chat)) as [->|Hne];
      [rewrite lookup_insert_eq|by rewrite lookup_insert_ne by done; apply Hm].
    assert (Hd : dom (timestamps (default {| messageIds := ∅; timestamps := ∅; lastSent := None |}
                                    (m !! chat)))
                 = messageIds (default {| messageIds := ∅; timestamps := ∅; lastSent := None |}
                                 (m !! chat))).
    { destruct (m !! chat) as [e|] eqn:He; simpl; [by eapply Hm|]. by rewrite dom_empty_L. }
    intros ?. simplify_eq. destruct (_ <? _)%nat.
    + apply cleanupExpired_consistent. simpl. by rewrite dom_insert_L, Hd.
    + simpl. by rewrite dom_insert_L, Hd.
  - unfold invalidateLastStatus, getChatKey. intros key entry.
    destruct (m !! chat) as [e|] eqn:He; [|apply Hm].
    destruct (lastSent e) as [ls|]; [|apply Hm].
    destruct (decide (key = chat)) as [->|Hne];
      [rewrite lookup_insert_eq|by rewrite lookup_insert_ne by done; apply Hm].
    intros ?. simplify_eq. simpl. by eapply Hm.
  - unfold wasSentByBot, getChatKey. intros key entry.
    destruct (m !! chat) as [e|] eqn:He; simpl; [|apply Hm].
    destruct (decide (key = chat)) as [->|Hne];
      [rewrite lookup_insert_eq|by rewrite lookup_insert_ne by done; apply Hm].
    intros ?. simplify_eq. apply cleanupExpired_consistent. by eapply Hm.
  - unfold clearSentMessageCache. intros key entry. by rewrite lookup_empty.
Qed.

(** X8. The two halves of a cache entry never drift apart. After any
    sequence of [recordSentMessage], [invalidateLastStatus], [wasSentByBot]
    and [clearSentMessageCache], starting from the empty cache, every
    entry's [messageIds] set holds exactly the ids that have a timestamp:
    expiry removes an id from both or from neither. *)
Theorem cache_ids_match_timestamps (calls : list CacheCall) :
  cacheConsistent (foldl runCacheCall ∅ calls).
Proof.
  assert (Hgen : forall m, cacheConsistent m -> cacheConsistent (foldl runCacheCall m calls)).
  { induction calls as [|call calls IH]; intros m Hm; simpl; [done|].
    by apply IH, runCacheCall_consistent. }
  apply Hgen. intros key entry. by rewrite lookup_empty.
Qed.

Lemma cleanupExpired_elem (now id : Z) entry :
  id ∈ messageIds (cleanupExpired now entry)
  <-> id ∈ messageIds entry
      /\ forall ts, timestamps entry !! id = Some ts -> now - ts <= TTL_MS.
Proof.
  unfold cleanupExpired. simpl. rewrite elem_of_difference, elem_of_dom. unfold is_Some.
  split.
  - intros [Hin Hn]. split; [done|]. intros ts Hts.
    destruct (decide (now - ts <= TTL_MS)) as [|Hgt]; [done|]. destruct Hn. exists ts.
    apply map_lookup_filter_Some. split; [done|]. simpl. apply Is_true_true, Z.ltb_lt. lia.
  - intros [Hin Hall]. split; [done|]. intros [ts Hts].
    apply map_lookup_filter_Some in Hts as [Hts Hlt]. simpl in Hlt.
    apply Is_true_true, Z.ltb_lt in Hlt. specialize (Hall ts Hts). lia.
Qed.

(** X9. A recorded message is recognised as the bot's own for 24 hours.
    After [recordSentMessage(chat, id)] at time [now] (the cleanup it may
    run reading a clock [now'] no more than 24 hours later),
    [wasSentByBot(chat, id)] at time [later] answers true when at most
    [TTL_MS] milliseconds have passed since [now], and false after that. *)
Theorem recorded_message_recognised_until_expiry
    (chat : jsstring) (id : Z) (isStatus : bool) (now now' later : Z) m :
  now' - now <= TTL_MS ->
  (wasSentByBot chat id later (recordSentMessage chat id isStatus now now' m)).1
  = bool_decide (later - now <= TTL_MS).
Proof.
  intros Hclock. unfold wasSentByBot, recordSentMessage, getChatKey.
  rewrite lookup_insert_eq. cbn [fst].
  set (e0 := default {| messageIds := ∅; timestamps := ∅; lastSent := None |} (m !! chat)).
  set (e1 := {| messageIds := {[id]} ∪ messageIds e0;
               timestamps := <[id:=now]> (timestamps e0);
               lastSent := Some {| ls_messageId := id; ls_timestamp := now;
                                   ls_isStatus := isStatus |} |}).
  assert (H1 : id ∈ messageIds e1) by (simpl; set_solver).
  assert (H2 : timestamps e1 !! id = Some now) by (simpl; apply lookup_insert_eq).
  assert (Hrec : forall e, (e = e1 \/ e = cleanupExpired now' e1) ->
            bool_decide (id ∈ messageIds (cleanupExpired later e))
            = bool_decide (later - now <= TTL_MS)).
  { intros e He. apply bool_decide_ext. rewrite cleanupExpired_elem.
    assert (Hin : id ∈ messageIds e).
    { destruct He as [->| ->]; [done|]. apply cleanupExpired_elem. split; [done|].
      intros ts Hts. rewrite H2 in Hts. by simplify_eq. }
    assert (Hts : timestamps e !! id = Some now).
    { destruct He as [->| ->]; [done|]. unfold cleanupExpired. simpl.
      rewrite lookup_difference.
      destruct (filter _ (<[id:=now]> (timestamps e0)) !! id) as [ts|] eqn:Hf; [|done].
      apply map_lookup_filter_Some in Hf as [Hf Hlt]. rewrite lookup_insert_eq in Hf.
      simplify_eq. simpl in Hlt. apply Is_true_true, Z.ltb_lt in Hlt. lia. }
    split.
    - intros [_ Hall]. by apply Hall.
    - intros Hle. split; [done|]. intros ts Hts'. rewrite Hts in Hts'. by simplify_eq. }
  destruct (_ <? _)%nat; apply Hrec; auto.
Qed.

(** X10. Recording is per chat and always sets the last-sent record.
    [recordSentMessage(chat, id, isStatus)] at time [now] makes
    [getLastSentMessage(chat)] return exactly [{id, now, isStatus}], also
    when the periodic cleanup runs; for every other chat both
    [getLastSentMessage] and [wasSentByBot] answer as before. *)
Theorem recordSentMessage_last_sent
    (chat other : jsstring) (id : Z) (isStatus : bool) (now now' : Z) m
    (id' later : Z) :
  getLastSentMessage chat (recordSentMessage chat id isStatus now now' m)
  = Some {| ls_messageId := id; ls_timestamp := now; ls_isStatus := isStatus |}
  /\ (other <> chat ->
      getLastSentMessage other (recordSentMessage chat id isStatus now now' m)
      = getLastSentMessage other m
      /\ (wasSentByBot other id' later (recordSentMessage chat id isStatus now now' m)).1
         = (wasSentByBot other id' later m).1).
Proof.
  unfold getLastSentMessage, wasSentByBot, recordSentMessage, getChatKey. split.
  - rewrite lookup_insert_eq. simpl. by destruct (_ <? _)%nat.
  - intros Hne. rewrite !lookup_insert_ne by done. split; [done|].
    by destruct (m !! other).
Qed.

End SentMessageCache.

Lemma recorded_message_recognised_until_expiry_witness :
  100060 - 100000 <= TTL_MS
  /\ (wasSentByBot (lit "42") 7 200000
        (recordSentMessage (lit "42") 7 false 100000 100060 ∅)).1
     = bool_decide (200000 - 100000 <= TTL_MS).
Proof.
  split; [unfold TTL_MS; lia|].
  apply (recorded_message_recognised_until_expiry (lit "42") 7 false 100000 100060 200000 ∅).
  unfold TTL_MS. lia.
Defined.

Lemma recordSentMessage_last_sent_witness :
  lit "43" <> lit "42"
  /\ getLastSentMessage (lit "43") (recordSentMessage (lit "42") 7 true 100000 100000 ∅)
     = getLastSentMessage (lit "43") ∅.
Proof.
  assert (Hne : lit "43" <> lit "42") by (vm_compute; discriminate).
  split; [exact Hne|].
  exact (proj1 (proj2 (recordSentMessage_last_sent (lit "42") (lit "43") 7 true
                         100000 100000 ∅ 0 0) Hne)).
Defined.

(* ===================================================================== *)
(** * deliverReplies: reply threading for every kind of payload *)
(* ===================================================================== *)

Lemma effectsAll_bindE {S E A B} (P : E -> Prop) (m : ProgE S E A) (k : A -> ProgE S E B) :
  effectsAll P m -> (forall a, effectsAll P (k a)) -> effectsAll P (bindE m k).
Proof.
  unfold effectsAll, effects_of, bindE. intros Hm Hk st.
  specialize (Hm st). destruct (m st) as [[[a|] s1] l1]; simpl in *; [|done].
  specialize (Hk a s1). destruct (k a s1) as [[b s2] l2]; simpl in *.
  by apply Forall_app.
Qed.

Lemma effectsAll_forEachE {S E A} (P : E -> Prop) (body : A -> ProgE S E unit) (xs : list A) :
  (forall x, effectsAll P (body x)) -> effectsAll P (forEachE body xs).
Proof.
  intros Hb. induction xs as [|x xs IH]; simpl.
  - intros st. constructor.
  - apply effectsAll_bindE; [apply Hb | intros _; apply IH].
Qed.

Lemma effectsAll_quiet {S E A} (P : E -> Prop) (m : ProgE S E A) :
  (forall st, effects_of (m st) = []) -> effectsAll P m.
Proof. intros H st. rewrite H. constructor. Qed.

Lemma effectsAll_emitE {S E} (P : E -> Prop) (e : E) :
  P e -> effectsAll P (emitE (S := S) e).
Proof. intros H st. by repeat constructor. Qed.

Lemma effectsAll_bindE_pure {S E A B} (P : E -> Prop) (m : ProgE S E A)
    (k : A -> ProgE S E B) (a : A) :
  (forall st, m st = (Some a, st, [])) -> effectsAll P (k a) -> effectsAll P (bindE m k).
Proof.
  unfold effectsAll, effects_of, bindE. intros Hm Hk st. rewrite Hm.
  specialize (Hk st). by destruct (k a st) as [[b s2] l2].
Qed.

Lemma bindE_at {S E A B} (m : ProgE S E A) (k : A -> ProgE S E B) (st : S) (a : A) :
  m st = (Some a, st, []) -> bindE m k st = k a st.
Proof. unfold bindE. intros ->. by destruct (k a st) as [[b s2] l2]. Qed.

Ltac all_step :=
  cbv beta zeta;
  first
    [ apply effectsAll_bindE; [|intros ?]
    | apply effectsAll_forEachE; intros ?
    | apply effectsAll_emitE; simpl
    | apply effectsAll_quiet; intros ?; reflexivity
    | match goal with
      | |- context [match ?x with _ => _ end] => destruct x eqn:?
      end ].

Lemma threadedCount_app (l1 l2 : list DeliveryEffect) :
  threadedCount (l1 ++ l2) = (threadedCount l1 + threadedCount l2)%nat.
Proof. unfold threadedCount, sentTargets. by rewrite !omap_app, length_app. Qed.

Lemma threadNeutral_bindE {A B} (m : Deliv A) (k : A -> Deliv B) :
  threadNeutral m -> (forall a, threadNeutral (k a)) -> threadNeutral (bindE m k).
Proof.
  unfold threadNeutral, effects_of, state_of, bindE. intros Hm Hk st.
  specialize (Hm st). destruct (m st) as [[[a|] s1] l1]; simpl in *; [|done].
  specialize (Hk a s1). destruct (k a s1) as [[b s2] l2]; simpl in *.
  rewrite threadedCount_app. destruct Hm as [-> <-], Hk as [-> <-]. done.
Qed.

Lemma threadNeutral_forEachE {A} (body : A -> Deliv unit) (xs : list A) :
  (forall x, threadNeutral (body x)) -> threadNeutral (forEachE body xs).
Proof.
  intros Hb. induction xs as [|x xs IH]; simpl; [done|].
  apply threadNeutral_bindE; [apply Hb | intros _; apply IH].
Qed.

Lemma threadNeutral_budget {A} (m : Deliv A) : threadNeutral m -> threadBudget m.
Proof. intros H st. destruct (H st) as [-> ->]. done. Qed.

Lemma threadNeutral_send {A} (target : option Z) (m : Deliv A) :
  threadNeutral m -> threadedSend target m.
Proof.
  intros H st. destruct (H st) as [-> ->]. split; [done|].
  destruct target, (result_of (m st)); lia.
Qed.

Lemma threadBudget_bindE {A B} (m : Deliv A) (k : A -> Deliv B) :
  threadBudget m -> (forall a, threadBudget (k a)) -> threadBudget (bindE m k).
Proof.
  unfold threadBudget, effects_of, state_of, bindE. intros Hm Hk st.
  specialize (Hm st). destruct (m st) as [[[a|] s1] l1]; simpl in *; [|done].
  specialize (Hk a s1). destruct (k a s1) as [[b s2] l2]; simpl in *.
  rewrite threadedCount_app. lia.
Qed.

Lemma threadBudget_forEachE {A} (body : A -> Deliv unit) (xs : list A) :
  (forall x, threadBudget (body x)) -> threadBudget (forEachE body xs).
Proof.
  intros Hb. induction xs as [|x xs IH]; simpl.
  - intros st. unfold effects_of, state_of, retE. simpl. lia.
  - apply threadBudget_bindE; [apply Hb | intros _; apply IH].
Qed.

Lemma threadedSend_bindE {A B} (target : option Z) (m : Deliv A) (k : A -> Deliv B) :
  threadNeutral m -> (forall a, threadedSend target (k a)) -> threadedSend target (bindE m k).
Proof.
  unfold threadNeutral, threadedSend, effects_of, state_of, result_of, bindE. intros Hm Hk st.
  specialize (Hm st). destruct (m st) as [[[a|] s1] l1]; simpl in *.
  - specialize (Hk a s1). destruct (k a s1) as [[b s2] l2]; simpl in *.
    rewrite threadedCount_app. destruct Hm as [-> <-]. done.
  - destruct Hm as [-> <-]. split; [done|]. destruct target; lia.
Qed.

Ltac neutral_step :=
  cbv beta zeta;
  first
    [ apply threadNeutral_bindE; [|intros ?]
    | apply threadNeutral_forEachE; intros ?
    | (intros ?; split; reflexivity)
    | match goal with
      | |- context [match ?x with _ => _ end] => destruct x eqn:?
      end ].

Section DeliveryThreading.

Variable now : nat -> Z.
Variable editMessageTelegram : nat -> jsstring -> jsstring -> jsstring -> bool.
Variable sendMessageTelegram : nat -> jsstring -> jsstring -> option Z -> option Z.
Variable bot_sendMessage : nat -> SendMessageCall -> SendOutcome.
Variable bot_sendMedia : nat -> MediaCall -> bool.
Variable loadWebMedia : nat -> jsstring -> option WebMedia.
Variable onVoiceRecording : nat -> bool.
Variable resolveTelegramReplyId : option jsstring -> option Z.
Variable buildTelegramThreadParams : option Z -> option Z.
Variable chunkMarkdownTextWithMode : jsstring -> Z -> ChunkMode -> list jsstring.
Variable markdownToTelegramChunks : jsstring -> Z -> option jsstring -> list Chunk.
Variable markdownToTelegramHtml : jsstring -> option jsstring -> jsstring.
Variable renderTelegramHtmlText : jsstring -> option jsstring -> jsstring.
Variable splitTelegramCaption : option jsstring -> option jsstring * option jsstring.
Variable mediaKindFromMime : option jsstring -> MediaKind.
Variable isGifMedia : option jsstring -> option jsstring -> bool.
Variable resolveTelegramVoiceSend : bool -> option jsstring -> jsstring -> bool.
Variable params : DeliveryParams.

Local Abbreviation deliverReply :=
  (deliverReply now editMessageTelegram sendMessageTelegram bot_sendMessage bot_sendMedia
     loadWebMedia onVoiceRecording resolveTelegramReplyId buildTelegramThreadParams
     chunkMarkdownTextWithMode markdownToTelegramChunks markdownToTelegramHtml
     renderTelegramHtmlText splitTelegramCaption mediaKindFromMime isGifMedia
     resolveTelegramVoiceSend params).
Local Abbreviation deliverReplies :=
  (deliverReplies now editMessageTelegram sendMessageTelegram bot_sendMessage bot_sendMedia
     loadWebMedia onVoiceRecording resolveTelegramReplyId buildTelegramThreadParams
     chunkMarkdownTextWithMode markdownToTelegramChunks markdownToTelegramHtml
     renderTelegramHtmlText splitTelegramCaption mediaKindFromMime isGifMedia
     resolveTelegramVoiceSend params).
Local Abbreviation chunkText :=
  (chunkText chunkMarkdownTextWithMode markdownToTelegramChunks markdownToTelegramHtml params).
Local Abbreviation sendTelegramText :=
  (sendTelegramText bot_sendMessage buildTelegramThreadParams markdownToTelegramHtml params).
Local Abbreviation sendTextChunks :=
  (sendTextChunks bot_sendMessage buildTelegramThreadParams markdownToTelegramHtml params).
Local Abbreviation sendFollowUpChunks :=
  (sendFollowUpChunks bot_sendMessage buildTelegramThreadParams markdownToTelegramHtml params).
Local Abbreviation deliverText :=
  (deliverText now editMessageTelegram sendMessageTelegram bot_sendMessage
     buildTelegramThreadParams chunkMarkdownTextWithMode markdownToTelegramChunks
     markdownToTelegramHtml params).
Local Abbreviation deliverMediaItem :=
  (deliverMediaItem bot_sendMessage bot_sendMedia loadWebMedia onVoiceRecording
     buildTelegramThreadParams chunkMarkdownTextWithMode markdownToTelegramChunks
     markdownToTelegramHtml renderTelegramHtmlText splitTelegramCaption mediaKindFromMime
     isGifMedia resolveTelegramVoiceSend params).
Local Abbreviation recordSent := (recordSent now params).
Local Abbreviation replyTarget := (replyTarget params).

(** *** Mode "off" *)

Lemma sendTelegramText_untargeted (text : jsstring) (textModeHtml : bool)
    (plainText : option jsstring) :
  effectsAll noReplyTarget (sendTelegramText text None textModeHtml plainText).
Proof. unfold sendTelegramText. repeat all_step; done. Qed.

Lemma replyTarget_none (st : DeliveryState) : replyTarget None st = (Some None, st, []).
Proof. done. Qed.

Lemma sendTextChunks_untargeted (chunks : list Chunk) (sentMessageId : option Z) :
  effectsAll noReplyTarget (sendTextChunks None chunks sentMessageId).
Proof.
  revert sentMessageId. induction chunks as [|chunk chunks IH]; intros sentMessageId; simpl.
  - repeat all_step.
  - apply (effectsAll_bindE_pure _ _ _ None); [done|].
    apply effectsAll_bindE; [apply sendTelegramText_untargeted|intros ?].
    apply effectsAll_bindE; [repeat all_step | intros _; apply IH].
Qed.

Lemma sendFollowUpChunks_untargeted (chunks : list Chunk) :
  effectsAll noReplyTarget (sendFollowUpChunks None chunks).
Proof.
  unfold sendFollowUpChunks. apply effectsAll_forEachE. intros chunk.
  apply (effectsAll_bindE_pure _ _ _ None); [done|].
  apply effectsAll_bindE; [apply sendTelegramText_untargeted|intros ?].
  repeat all_step.
Qed.

Lemma recordSent_quiet (messageId : Z) (isStatus : bool) (st : DeliveryState) :
  effects_of (recordSent messageId isStatus st) = []
  /\ hasReplied (state_of (recordSent messageId isStatus st)) = hasReplied st.
Proof.
  unfold recordSent, dateNow, tick. run_exn. by destruct (_ <? _)%nat.
Qed.

Lemma deliverText_untargeted (reply : ReplyPayload) :
  effectsAll noReplyTarget (deliverText reply None).
Proof.
  unfold deliverText.
  apply effectsAll_bindE; [repeat all_step|intros st0].
  apply effectsAll_bindE; [unfold dateNow, tick; repeat all_step|intros shouldEditLast].
  apply effectsAll_bindE.
  { repeat all_step; done. }
  intros sentMessageId.
  apply effectsAll_bindE.
  { destruct sentMessageId; [repeat all_step|].
    destruct (default false (isStatusMessage reply)), (truthyStr (text reply));
      try apply sendTextChunks_untargeted; repeat all_step; done. }
  intros [id|]; [|repeat all_step].
  apply effectsAll_quiet. intros st. apply recordSent_quiet.
Qed.

Lemma deliverMediaItem_untargeted (reply : ReplyPayload) (url : jsstring) (isFirstMedia : bool) :
  effectsAll noReplyTarget (deliverMediaItem reply None url isFirstMedia).
Proof.
  unfold deliverMediaItem.
  apply effectsAll_bindE; [repeat all_step|intros t].
  destruct (loadWebMedia t url) as [media|]; [|repeat all_step; done].
  apply effectsAll_bindE; [repeat all_step; done|intros _]. cbv zeta.
  apply (effectsAll_bindE_pure _ _ _ None); [done|].
  apply effectsAll_bindE.
  { repeat all_step; done. }
  intros _. apply effectsAll_bindE; [repeat all_step|intros _].
  destruct (truthyStr _); [|repeat all_step].
  destruct isFirstMedia; [apply sendFollowUpChunks_untargeted|repeat all_step].
Qed.

(** X11. Threading mode "off", for every kind of payload. With
    [replyToMode] "off" no call that [deliverReplies] makes to the bot API
    names a message to reply to: not for text chunks, not for media of any
    kind, not for the follow-up text after a caption, not for the retry
    after an HTML parse error, and not for calls that fail. *)
Theorem deliverReplies_off_never_threads (replies : list ReplyPayload) (st : DeliveryState) :
  replyToMode params = reply_off ->
  Forall noReplyTarget (effects_of (deliverReplies replies st)).
Proof.
  intros Hoff. revert st. change (effectsAll noReplyTarget (deliverReplies replies)).
  unfold deliverReplies. apply effectsAll_bindE; [repeat all_step|intros _].
  apply effectsAll_forEachE. intros reply. unfold deliverReply.
  rewrite Hoff. rewrite bool_decide_eq_true_2 by done.
  destruct (_ && _); [repeat all_step; done|].
  destruct (mediaListOf reply) as [|first rest]; [apply deliverText_untargeted|].
  apply effectsAll_bindE; [apply deliverMediaItem_untargeted|intros _].
  apply effectsAll_forEachE. intros url. apply deliverMediaItem_untargeted.
Qed.

(** *** A status message and the answer that replaces it *)

Lemma recordSent_last (messageId : Z) (isStatus : bool) (st : DeliveryState) :
  exists st',
    recordSent messageId isStatus st = (Some tt, st', [])
    /\ hasReplied st' = hasReplied st
    /\ getLastSentMessage (chatId params) (sentMessages st')
       = Some {| ls_messageId := messageId; ls_timestamp := now (ticks st);
                 ls_isStatus := isStatus |}.
Proof.
  unfold recordSent, dateNow, tick. run_exn.
  destruct (100 <? size _)%nat eqn:Hsize; simpl.
  - eexists. split; [reflexivity|]. split; [done|]. simpl.
    unfold getLastSentMessage, recordSentMessage. rewrite lookup_insert_eq. simpl.
    by rewrite Hsize.
  - eexists. split; [reflexivity|]. split; [done|]. simpl.
    unfold getLastSentMessage, recordSentMessage. rewrite lookup_insert_eq. simpl.
    by rewrite Hsize.
Qed.

Lemma deliverText_status (statusText : jsstring) (replyTo : option Z) (id : Z)
    (st : DeliveryState) :
  statusText <> [] ->
  noStatusToEdit (chatId params) st ->
  sendMessageTelegram (ticks st) (chatId params) statusText (messageThreadId params)
  = Some id ->
  exists st',
    deliverText (statusPayload statusText) replyTo st
    = (Some tt, st',
       [SendMessageTelegram (chatId params) statusText (messageThreadId params) (Some id)])
    /\ exists n, getLastSentMessage (chatId params) (sentMessages st')
                 = Some {| ls_messageId := id; ls_timestamp := now n; ls_isStatus := true |}.
Proof.
  intros Hne Hlast Hsend. destruct statusText as [|c body]; [done|].
  unfold deliverText, noStatusToEdit in *.
  cbv beta iota delta [bindE getE].
  assert (Hedit :
    match getLastSentMessage (chatId params) (sentMessages st) with
    | Some ls =>
        if ls_isStatus ls && negb (ls_messageId ls =? 0)
        then bindE (dateNow now) (fun n => retE (bool_decide (n - ls_timestamp ls < 120000)))
        else retE false
    | None => retE false
    end st = (Some false, st, [])).
  { destruct (getLastSentMessage _ _) as [ls|]; [|done]. by rewrite Hlast. }
  unfold bindE in Hedit. rewrite Hedit. cbv beta iota.
  destruct (getLastSentMessage _ _) as [ls|]; simpl; unfold tick; simpl; rewrite Hsend; simpl.
  all: destruct (recordSent_last id true
                   {| hasReplied := hasReplied st; sentMessages := sentMessages st;
                      ticks := S (ticks st) |}) as (st' & -> & _ & Hl).
  all: simpl; eexists; split; [reflexivity|]; by eexists.
Qed.

Lemma deliverText_edits_status (answerText : jsstring) (replyTo : option Z) (id n : Z)
    (st : DeliveryState) :
  answerText <> [] ->
  getLastSentMessage (chatId params) (sentMessages st)
  = Some {| ls_messageId := id; ls_timestamp := n; ls_isStatus := true |} ->
  id <> 0 ->
  (forall t, now t - n < 120000) ->
  (forall t, editMessageTelegram t (chatId params) (numToString id) answerText = true) ->
  exists st',
    deliverText (textPayload answerText) replyTo st
    = (Some tt, st', [EditMessageTelegram (chatId params) (numToString id) answerText true])
    /\ exists n', getLastSentMessage (chatId params) (sentMessages st')
                  = Some {| ls_messageId := id; ls_timestamp := n'; ls_isStatus := false |}.
Proof.
  intros Hne Hlast Hid Hclock Hedit. destruct answerText as [|c body]; [done|].
  unfold deliverText. cbv beta iota delta [bindE getE]. rewrite Hlast.
  cbn [ls_isStatus ls_messageId ls_timestamp andb].
  apply Z.eqb_neq in Hid. rewrite Hid. cbn [negb].
  unfold dateNow, tick. cbv beta iota delta [bindE retE].
  rewrite bool_decide_eq_true_2 by apply Hclock.
  cbn [textPayload text truthyStr isStatusMessage default]. cbv beta iota delta [emitE].
  rewrite Hedit. cbv beta iota.
  match goal with
  | |- context [recordSent id false ?s] =>
      destruct (recordSent_last id false s) as (st' & -> & _ & Hl)
  end.
  simpl. eexists. split; [reflexivity|]. by eexists.
Qed.

(** X12. The answer replaces the status message. When a status payload and
    then a text answer are delivered to a chat whose last message is not a
    status message, the status goes out through [sendMessageTelegram]; and
    provided that call returns a message id, less than two minutes pass and
    the edit goes through, the answer is written into that very message by
    [editMessageTelegram]: nothing else is sent, and the message is then
    recorded as an ordinary one, so that no later reply overwrites the
    answer. *)
Theorem answer_replaces_status_message
    (statusText answerText : jsstring) (id : Z) (st : DeliveryState) :
  statusText <> [] ->
  answerText <> [] ->
  noStatusToEdit (chatId params) st ->
  sendMessageTelegram (ticks st) (chatId params) statusText (messageThreadId params)
  = Some id ->
  id <> 0 ->
  (forall t t', now t' - now t < 120000) ->
  (forall t, editMessageTelegram t (chatId params) (numToString id) answerText = true) ->
  result_of (deliverReplies [statusPayload statusText; textPayload answerText] st) = Some tt
  /\ effects_of (deliverReplies [statusPayload statusText; textPayload answerText] st)
     = [SendMessageTelegram (chatId params) statusText (messageThreadId params) (Some id);
        EditMessageTelegram (chatId params) (numToString id) answerText true]
  /\ (fun ls => (ls_messageId ls, ls_isStatus ls))
       <$> getLastSentMessage (chatId params)
             (sentMessages
                (state_of (deliverReplies [statusPayload statusText; textPayload answerText]
                             st)))
     = Some (id, false).
Proof.
  intros Hs Ha Hlast Hsend Hid Hclock Hedit.
  unfold deliverReplies. cbn [forEachE]. unfold deliverReply.
  destruct statusText as [|c1 s1] eqn:Es; [done|].
  destruct answerText as [|c2 s2] eqn:Ea; [done|].
  cbn [statusPayload textPayload text truthy hasMediaOf mediaUrl mediaUrls mediaListOf
       truthyStr default negb andb orb length Nat.ltb Nat.leb replyToId].
  rewrite <- Es, <- Ea in *. clear Es Ea.
  unfold result_of, effects_of, state_of.
  cbv beta iota delta [bindE modifyE].
  match goal with
  | |- context [deliverText (statusPayload statusText) ?r ?s] =>
      destruct (deliverText_status statusText r id s Hs Hlast Hsend)
        as (st1 & -> & n1 & Hl1)
  end.
  cbv beta iota.
  match goal with
  | |- context [deliverText (textPayload answerText) ?r st1] =>
      destruct (deliverText_edits_status answerText r id (now n1) st1 Ha Hl1 Hid
                  (fun t => Hclock n1 t) Hedit)
        as (st2 & -> & n2 & Hl2)
  end.
  cbv beta iota delta [retE]. cbn [fst snd app]. by rewrite Hl2.
Qed.

(** X13. A failed edit falls back to a send. When the last message of the
    chat is a recent status message but [editMessageTelegram] throws, the
    answer is not lost: after the failed edit, delivery goes on exactly as
    for a chat without a status message, sending the chunks of the text
    through [sendTelegramText] and returning or throwing as that does. *)
Theorem failed_edit_falls_back_to_send
    (answerText : jsstring) (replyTo : option Z) (id n : Z) (st : DeliveryState) :
  answerText <> [] ->
  getLastSentMessage (chatId params) (sentMessages st)
  = Some {| ls_messageId := id; ls_timestamp := n; ls_isStatus := true |} ->
  id <> 0 ->
  (forall t, now t - n < 120000) ->
  (forall t, editMessageTelegram t (chatId params) (numToString id) answerText = false) ->
  effects_of (deliverText (textPayload answerText) replyTo st)
  = EditMessageTelegram (chatId params) (numToString id) answerText false
    :: effects_of (sendTextChunks replyTo (chunkText answerText) None
                     {| hasReplied := hasReplied st; sentMessages := sentMessages st;
                        ticks := S (S (ticks st)) |})
  /\ result_of (deliverText (textPayload answerText) replyTo st)
     = (fun _ => tt)
         <$> result_of (sendTextChunks replyTo (chunkText answerText) None
                          {| hasReplied := hasReplied st; sentMessages := sentMessages st;
                             ticks := S (S (ticks st)) |}).
Proof.
  intros Hne Hlast Hid Hclock Hedit. destruct answerText as [|c body] eqn:Ea; [done|].
  unfold deliverText. cbv beta iota delta [bindE getE]. rewrite Hlast.
  cbn [ls_isStatus ls_messageId ls_timestamp andb].
  apply Z.eqb_neq in Hid. rewrite Hid. cbn [negb].
  unfold dateNow, tick. cbv beta iota delta [bindE retE].
  rewrite bool_decide_eq_true_2 by apply Hclock.
  cbn [textPayload text truthyStr isStatusMessage default]. cbv beta iota delta [emitE].
  rewrite Hedit. cbv beta iota. cbn [hasReplied sentMessages ticks app].
  unfold result_of, effects_of.
  destruct (sendTextChunks replyTo _ None _) as [[[[sent|]|] st1] l1]; cbv beta iota.
  - destruct (recordSent_last sent false st1) as (st' & -> & _ & _).
    by rewrite app_nil_r.
  - by rewrite app_nil_r.
  - done.
Qed.

(** *** After [invalidateLastStatus] *)

Lemma sendTelegramText_no_edit (text : jsstring) (target : option Z) (textModeHtml : bool)
    (plainText : option jsstring) :
  effectsAll notAnEdit (sendTelegramText text target textModeHtml plainText).
Proof. unfold sendTelegramText. repeat all_step; done. Qed.

Lemma sendTextChunks_no_edit (replyToId : option Z) (chunks : list Chunk)
    (sentMessageId : option Z) :
  effectsAll notAnEdit (sendTextChunks replyToId chunks sentMessageId).
Proof.
  revert sentMessageId. induction chunks as [|chunk chunks IH]; intros sentMessageId; simpl.
  - repeat all_step.
  - apply effectsAll_bindE; [apply effectsAll_quiet; done|intros target].
    apply effectsAll_bindE; [apply sendTelegramText_no_edit|intros ?].
    apply effectsAll_bindE; [apply effectsAll_quiet; done | intros _; apply IH].
Qed.

Lemma sendFollowUpChunks_no_edit (replyToId : option Z) (chunks : list Chunk) :
  effectsAll notAnEdit (sendFollowUpChunks replyToId chunks).
Proof.
  unfold sendFollowUpChunks. apply effectsAll_forEachE. intros chunk.
  apply effectsAll_bindE; [apply effectsAll_quiet; done|intros target].
  apply effectsAll_bindE; [apply sendTelegramText_no_edit|intros ?].
  apply effectsAll_quiet; done.
Qed.

Lemma deliverMediaItem_no_edit (reply : ReplyPayload) (replyTo : option Z) (url : jsstring)
    (isFirstMedia : bool) :
  effectsAll notAnEdit (deliverMediaItem reply replyTo url isFirstMedia).
Proof.
  unfold deliverMediaItem.
  apply effectsAll_bindE; [repeat all_step|intros t].
  destruct (loadWebMedia t url) as [media|]; [|repeat all_step; done].
  apply effectsAll_bindE; [repeat all_step; done|intros _]. cbv zeta.
  apply effectsAll_bindE; [apply effectsAll_quiet; done|intros target].
  apply effectsAll_bindE.
  { repeat all_step; done. }
  intros _. apply effectsAll_bindE; [apply effectsAll_quiet; done|intros _].
  destruct (truthyStr _); [|repeat all_step].
  destruct isFirstMedia; [apply sendFollowUpChunks_no_edit|repeat all_step].
Qed.

Lemma deliverText_no_edit (reply : ReplyPayload) (replyTo : option Z) (st : DeliveryState) :
  noStatusToEdit (chatId params) st ->
  Forall notAnEdit (effects_of (deliverText reply replyTo st)).
Proof.
  intros Hlast. unfold deliverText, noStatusToEdit in *.
  rewrite (bindE_at getE _ st st eq_refl).
  rewrite (bindE_at _ _ st false).
  2:{ destruct (getLastSentMessage _ _) as [ls|]; [|done]. by rewrite Hlast. }
  rewrite (bindE_at _ _ st None).
  2:{ destruct (getLastSentMessage _ _); [|done]. by destruct (truthyStr (text reply)). }
  match goal with
  | |- Forall _ (effects_of (?m st)) =>
      assert (effectsAll notAnEdit m) as Hm; [|apply Hm]
  end.
  apply effectsAll_bindE.
  - destruct (default false (isStatusMessage reply)), (truthyStr (text reply));
      try apply sendTextChunks_no_edit; repeat all_step; done.
  - intros [id|]; [|repeat all_step].
    apply effectsAll_quiet. intros st'. apply recordSent_quiet.
Qed.

Lemma invalidateLastStatus_noStatus (st : DeliveryState) :
  noStatusToEdit (chatId params)
    (set_sentMessages (invalidateLastStatus (chatId params) (sentMessages st)) st).
Proof.
  unfold noStatusToEdit, invalidateLastStatus, getLastSentMessage, getChatKey. simpl.
  destruct (sentMessages st !! chatId params) as [entry|] eqn:He; simpl.
  - destruct (lastSent entry) as [ls|] eqn:Hl; simpl.
    + by rewrite lookup_insert_eq.
    + rewrite He. simpl. by rewrite Hl.
  - by rewrite He.
Qed.

(** X14. [invalidateLastStatus] protects the last message. After
    [invalidateLastStatus(chat)] the next reply delivered to the chat,
    whatever it holds (text, a status text, media, nothing), makes no call
    to [editMessageTelegram]: it is sent as a message of its own; and the
    ids the cache knows as sent by the bot are the same as before. *)
Theorem invalidateLastStatus_prevents_edit (reply : ReplyPayload) (st : DeliveryState) :
  Forall notAnEdit
    (effects_of
       (deliverReply reply
          (set_sentMessages (invalidateLastStatus (chatId params) (sentMessages st)) st)))
  /\ forall chat entry,
       sentMessages st !! chat = Some entry ->
       messageIds <$> invalidateLastStatus (chatId params) (sentMessages st) !! chat
       = Some (messageIds entry).
Proof.
  split.
  - unfold deliverReply.
    destruct (_ && _); [destruct (default false _); by repeat constructor|].
    destruct (mediaListOf reply) as [|first rest].
    + apply deliverText_no_edit, invalidateLastStatus_noStatus.
    + match goal with
      | |- Forall _ (effects_of (?m ?s)) =>
          assert (effectsAll notAnEdit m) as Hm; [|apply Hm]
      end.
      apply effectsAll_bindE; [apply deliverMediaItem_no_edit|intros _].
      apply effectsAll_forEachE. intros url. apply deliverMediaItem_no_edit.
  - intros chat entry He. unfold invalidateLastStatus, getChatKey.
    destruct (sentMessages st !! chatId params) as [e|] eqn:Hc; [|by rewrite He].
    destruct (lastSent e) as [ls|]; [|by rewrite He].
    destruct (decide (chat = chatId params)) as [->|Hne].
    + rewrite lookup_insert_eq. simpl. congruence.
    + rewrite lookup_insert_ne by done. by rewrite He.
Qed.

(** *** Mode "first" *)

Hypothesis mode_first : replyToMode params = reply_first.

Lemma sendTelegramText_threaded (text : jsstring) (target : option Z) (textModeHtml : bool)
    (plainText : option jsstring) :
  threadedSend target (sendTelegramText text target textModeHtml plainText).
Proof.
  intros st. unfold sendTelegramText, tick. run_exn. unfold threadedCount, sentTargets.
  destruct target as [r|]; simpl.
  - destruct (r =? 0); simpl;
      destruct (bot_sendMessage _ _); simpl; try (split; [done|lia]);
      destruct (runtime_hasLog params); simpl;
      destruct (bot_sendMessage _ _); simpl; split; try done; lia.
  - destruct (bot_sendMessage _ _); simpl; try (split; [done|lia]);
      destruct (runtime_hasLog params); simpl;
      destruct (bot_sendMessage _ _); simpl; split; try done; lia.
Qed.

Lemma markReplied_spec (replyToId : option Z) (st : DeliveryState) :
  effects_of (markReplied replyToId st) = []
  /\ result_of (markReplied replyToId st) = Some tt
  /\ hasReplied (state_of (markReplied replyToId st))
     = hasReplied st || bool_decide (is_Some (truthyNum replyToId)).
Proof.
  unfold markReplied. run_exn. destruct (truthyNum replyToId); simpl.
  - by destruct (hasReplied st) eqn:Hh; simpl; rewrite ?Hh.
  - by rewrite orb_false_r.
Qed.

Lemma replyTarget_first (replyToId : option Z) (st : DeliveryState) :
  exists target,
    replyTarget replyToId st = (Some target, st, [])
    /\ (is_Some target -> hasReplied st = false /\ is_Some (truthyNum replyToId)).
Proof.
  unfold replyTarget. run_exn. rewrite mode_first. simpl.
  eexists. split; [reflexivity|].
  destruct (truthyNum replyToId); [|by intros [? ?]].
  destruct (hasReplied st); simpl; [by intros [? ?]|done].
Qed.

(** A send between [replyTarget] and [markReplied] keeps the budget. *)
Lemma threaded_block {A B} (replyToId : option Z)
    (send : option Z -> Deliv A) (k : A -> Deliv B) :
  (forall target, threadedSend target (send target)) ->
  (forall a, threadBudget (k a)) ->
  threadBudget
    (bindE (replyTarget replyToId)
       (fun target => bindE (send target)
                        (fun a => bindE (markReplied replyToId) (fun _ => k a)))).
Proof.
  intros Hsend Hk st. unfold effects_of, state_of, bindE.
  destruct (replyTarget_first replyToId st) as (target & -> & Htarget).
  specialize (Hsend target st).
  unfold threadedSend, effects_of, state_of, result_of in *.
  destruct (send target st) as [[[a|] s1] l1]; cbv beta iota; [|simpl in *].
  - destruct (markReplied_spec replyToId s1) as (Hl & Hr & Hs).
    unfold effects_of, state_of, result_of in *.
    destruct (markReplied replyToId s1) as [[r s2] l2]; simpl in *. subst r l2.
    specialize (Hk a s2). unfold threadBudget, effects_of, state_of in Hk.
    destruct (k a s2) as [[b s3] l3]; simpl in *.
    rewrite threadedCount_app. destruct Hsend as [Hh Hc]. rewrite Hs, Hh in Hk.
    destruct target as [r|].
    + destruct Htarget as [Hf Hsome]; [done|]. rewrite Hf in *.
      rewrite bool_decide_eq_true_2 in Hk by done. simpl in *. lia.
    + simpl in *. destruct (hasReplied st); simpl in *; lia.
  - destruct Hsend as [-> Hc]. destruct target; simpl in *; lia.
Qed.

Lemma sendTextChunks_budget (replyToId : option Z) (chunks : list Chunk)
    (sentMessageId : option Z) :
  threadBudget (sendTextChunks replyToId chunks sentMessageId).
Proof.
  revert sentMessageId. induction chunks as [|chunk chunks IH]; intros sentMessageId; simpl.
  - intros st. unfold effects_of, state_of, retE. simpl. lia.
  - apply threaded_block; [intros target; apply sendTelegramText_threaded|intros msgId; apply IH].
Qed.

Lemma bindE_retE_r {S E A} (m : ProgE S E A) (st : S) : bindE m retE st = m st.
Proof.
  unfold bindE, retE. destruct (m st) as [[[a|] s1] l1]; [|done]. by rewrite app_nil_r.
Qed.

Lemma sendFollowUpChunks_budget (replyToId : option Z) (chunks : list Chunk) :
  threadBudget (sendFollowUpChunks replyToId chunks).
Proof.
  unfold sendFollowUpChunks. apply threadBudget_forEachE. intros chunk.
  pose proof (threaded_block (A := Z) (B := unit) replyToId
                (fun target => sendTelegramText (html chunk) target true
                                 (Some (chunk_text chunk)))
                (fun _ => retE tt)) as H.
  intros st. specialize (H ltac:(intros; apply sendTelegramText_threaded)
                           ltac:(intros _ st'; unfold effects_of, state_of, retE; simpl; lia) st).
  revert H. unfold bindE, retE, effects_of, state_of.
  destruct (replyTarget replyToId st) as [[[target|] s0] l0]; [|done].
  destruct (sendTelegramText _ _ _ _ s0) as [[[a|] s1] l1]; [|done].
  destruct (markReplied replyToId s1) as [[[[]|] s2] l2]; simpl; [|done].
  by rewrite !app_nil_r.
Qed.

Lemma recordSent_neutral (messageId : Z) (isStatus : bool) :
  threadNeutral (recordSent messageId isStatus).
Proof. intros st. destruct (recordSent_quiet messageId isStatus st) as [-> ->]. done. Qed.

Lemma deliverText_budget (reply : ReplyPayload) (replyToId : option Z) :
  threadBudget (deliverText reply replyToId).
Proof.
  unfold deliverText.
  apply threadBudget_bindE; [apply threadNeutral_budget; repeat neutral_step|intros st0].
  apply threadBudget_bindE;
    [apply threadNeutral_budget; unfold dateNow, tick; repeat neutral_step|intros shouldEditLast].
  apply threadBudget_bindE; [apply threadNeutral_budget; repeat neutral_step|].
  intros sentMessageId.
  apply threadBudget_bindE.
  { destruct sentMessageId; [apply threadNeutral_budget; repeat neutral_step|].
    destruct (default false (isStatusMessage reply)), (truthyStr (text reply));
      try apply sendTextChunks_budget.
    apply threadNeutral_budget; repeat neutral_step. }
  intros [id|]; apply threadNeutral_budget; [apply recordSent_neutral|repeat neutral_step].
Qed.

Lemma send_media_threaded (target : option Z) (call : MediaCall) :
  mc_reply_to_message_id call = target ->
  threadedSend target
    (bindE tick
       (fun t => bindE (emitE (BotSendMedia call (bot_sendMedia t call)))
                   (fun _ => if bot_sendMedia t call then retE tt else throwE))).
Proof.
  intros Ht st. unfold tick. run_exn. unfold threadedCount, sentTargets.
  destruct (bot_sendMedia _ _); simpl; rewrite ?Ht; (split; [done|]).
  - destruct target; simpl; lia.
  - destruct target; simpl; lia.
Qed.

Lemma deliverMediaItem_budget (reply : ReplyPayload) (replyTo : option Z) (url : jsstring)
    (isFirstMedia : bool) :
  threadBudget (deliverMediaItem reply replyTo url isFirstMedia).
Proof.
  unfold deliverMediaItem.
  apply threadBudget_bindE; [apply threadNeutral_budget; repeat neutral_step|intros t].
  destruct (loadWebMedia t url) as [media|];
    [|apply threadNeutral_budget; repeat neutral_step].
  apply threadBudget_bindE; [apply threadNeutral_budget; repeat neutral_step|intros _].
  cbv zeta. apply threaded_block.
  - intros target.
    destruct (isGifMedia _ _); [by apply send_media_threaded|].
    destruct (mediaKindFromMime _); try (by apply send_media_threaded).
    destruct (resolveTelegramVoiceSend _ _ _); [|by apply send_media_threaded].
    apply threadedSend_bindE; [unfold tick; repeat neutral_step|intros _].
    by apply send_media_threaded.
  - intros _. destruct (truthyStr _); [|apply threadNeutral_budget; repeat neutral_step].
    destruct isFirstMedia; [apply sendFollowUpChunks_budget|].
    apply threadNeutral_budget; repeat neutral_step.
Qed.

Lemma deliverReply_budget (reply : ReplyPayload) : threadBudget (deliverReply reply).
Proof.
  unfold deliverReply.
  destruct (_ && _); [apply threadNeutral_budget; repeat neutral_step|].
  destruct (mediaListOf reply) as [|first rest]; [apply deliverText_budget|].
  apply threadBudget_bindE; [apply deliverMediaItem_budget|intros _].
  apply threadBudget_forEachE. intros url. apply deliverMediaItem_budget.
Qed.

(** X15. Threading mode "first", for every kind of payload. With
    [replyToMode] "first", among all the messages one call of
    [deliverReplies] gets out (text chunks, media of any kind, follow-up
    text, retries after a parse error), at most one carries a reply target,
    whatever the payloads are and whichever calls fail. *)
Theorem deliverReplies_first_threads_once (replies : list ReplyPayload) (st : DeliveryState) :
  (threadedCount (effects_of (deliverReplies replies st)) <= 1)%nat.
Proof.
  unfold deliverReplies.
  pose proof (threadBudget_forEachE deliverReply replies deliverReply_budget
                (set_hasReplied false st)) as H.
  revert H. unfold effects_of, state_of, bindE, modifyE. simpl.
  destruct (forEachE _ replies _) as [[r s] l]. simpl.
  destruct (hasReplied s); simpl; lia.
Qed.

End DeliveryThreading.

Lemma deliverReplies_off_never_threads_witness :
  Forall noReplyTarget
    (effects_of (demoDeliverMedia reply_off [demoMediaReply; demoReply "two"]
                   demoDeliveryState)).
Proof.
  unfold demoDeliverMedia. apply deliverReplies_off_never_threads. reflexivity.
Defined.

Lemma deliverReplies_first_threads_once_witness :
  (threadedCount
     (effects_of (demoDeliverMedia reply_first [demoMediaReply; demoReply "two"]
                    demoDeliveryState)) <= 1)%nat.
Proof.
  unfold demoDeliverMedia. apply deliverReplies_first_threads_once. reflexivity.
Defined.

Lemma answer_replaces_status_message_witness :
  effects_of (demoDeliverReplies reply_first
                [statusPayload (lit "working"); textPayload (lit "done")]
                demoDeliveryState)
  = [SendMessageTelegram (lit "42") (lit "working") None (Some 100);
     EditMessageTelegram (lit "42") (numToString 100) (lit "done") true].
Proof.
  unfold demoDeliverReplies.
  refine (proj1 (proj2 (answer_replaces_status_message _ _ _ _ _ _ _ _ _ _ _ _ _ _ _ _ _
                          (demoDeliveryParams reply_first)
                          (lit "working") (lit "done") 100 demoDeliveryState
                          _ _ _ _ _ _ _))).
  - vm_compute. discriminate.
  - vm_compute. discriminate.
  - vm_compute. exact I.
  - reflexivity.
  - lia.
  - intros t t'. lia.
  - intros t. reflexivity.
Defined.

Lemma failed_edit_falls_back_to_send_witness :
  effects_of
    (deliverText (fun _ => 100000) (fun _ _ _ _ => false)
       (fun t _ _ _ => Some (100 + Z.of_nat t)) (fun t _ => Sent (100 + Z.of_nat t))
       (fun thread => thread) (fun markdown _ _ => [markdown]) demoChunks
       (fun markdown _ => markdown) (demoDeliveryParams reply_first)
       (textPayload (lit "done")) None demoDeliveryStateAfterStatus)
  = EditMessageTelegram (lit "42") (numToString 5) (lit "done") false
    :: effects_of
         (sendTextChunks (fun t _ => Sent (100 + Z.of_nat t)) (fun thread => thread)
            (fun markdown _ => markdown) (demoDeliveryParams reply_first) None
            (chunkText (fun markdown _ _ => [markdown]) demoChunks
               (fun markdown _ => markdown) (demoDeliveryParams reply_first) (lit "done"))
            None
            {| hasReplied := hasReplied demoDeliveryStateAfterStatus;
               sentMessages := sentMessages demoDeliveryStateAfterStatus;
               ticks := S (S (ticks demoDeliveryStateAfterStatus)) |}).
Proof.
  refine (proj1 (failed_edit_falls_back_to_send _ _ _ _ _ _ _ _ _
                   (lit "done") None 5 99000 demoDeliveryStateAfterStatus _ _ _ _ _)).
  - vm_compute. discriminate.
  - vm_compute. reflexivity.
  - lia.
  - intros t. lia.
  - intros t. reflexivity.
Defined.

Lemma invalidateLastStatus_prevents_edit_witness :
  Forall notAnEdit
    (effects_of
       (deliverReply (fun _ => 100000) (fun _ _ _ _ => true)
          (fun t _ _ _ => Some (100 + Z.of_nat t)) (fun t _ => Sent (100 + Z.of_nat t))
          (fun _ _ => true) (fun _ _ => None) (fun _ => true) demoResolveReplyId
          (fun thread => thread) (fun markdown _ _ => [markdown]) demoChunks
          (fun markdown _ => markdown) (fun markdown _ => markdown)
          (fun caption => (caption, None)) (fun _ => kind_other) (fun _ _ => false)
          (fun wantsVoice _ _ => wantsVoice) (demoDeliveryParams reply_first)
          (demoReply "one")
          (set_sentMessages
             (invalidateLastStatus (chatId (demoDeliveryParams reply_first))
                (sentMessages demoDeliveryStateAfterStatus))
             demoDeliveryStateAfterStatus))).
Proof.
  exact (proj1 (invalidateLastStatus_prevents_edit _ _ _ _ _ _ _ _ _ _ _ _ _ _ _ _ _
                  (demoDeliveryParams reply_first) (demoReply "one")
                  demoDeliveryStateAfterStatus)).
Defined.

(* ===================================================================== *)
(** * runReplyAgent: queueing, reset of other kinds, the finally block *)
(* ===================================================================== *)

Section RunnerMore.

Variable resolveAgentIdFromSessionKey : option jsstring -> jsstring.
Variable resolveSessionTranscriptPath : jsstring -> jsstring -> option jsstring -> jsstring.
Variable resolveSessionFilePath : jsstring -> SessionEntry -> jsstring -> jsstring.
Variable runMemoryFlushIfNeeded : Run (option SessionEntry).
Variable runAgentTurnWithFallback : Run TurnOutcome.
Variable persistSessionUsageUpdate : Run unit.
Variable buildReplyPayloads : nat -> Run nat.
Variable resolveResponseUsageLine : Run (option jsstring).
Variable incrementCompactionCount : Run (option Z).
Variable appendUsageLine : nat -> jsstring -> Run nat.
Variable params : RunParams.

Local Abbreviation runReplyAgent :=
  (runReplyAgent resolveAgentIdFromSessionKey runMemoryFlushIfNeeded
     runAgentTurnWithFallback persistSessionUsageUpdate buildReplyPayloads
     resolveResponseUsageLine incrementCompactionCount appendUsageLine params).
Local Abbreviation resetSession :=
  (resetSession resolveAgentIdFromSessionKey resolveSessionTranscriptPath
     resolveSessionFilePath params).
Local Abbreviation resetSessionAfterCompactionFailure :=
  (resetSessionAfterCompactionFailure resolveAgentIdFromSessionKey
     resolveSessionTranscriptPath resolveSessionFilePath params).
Local Abbreviation bumpUpdatedAt := (bumpUpdatedAt params).
Local Abbreviation steerOrEnqueue := (steerOrEnqueue params).
Local Abbreviation injectGroupIntro := (injectGroupIntro params).

(** X16. A message that cannot be steered in is queued, once. When a turn
    is running and the message asks for a follow-up or the queue mode is
    "steer", and steering did not absorb it, [runReplyAgent] returns
    [undefined] and its outbound calls are, in this order: the attempt to
    steer (when steering is on and the turn is streaming), one call of
    [enqueueFollowupRun], the write of the session store (when entry, store,
    session key and store path are all there; when the write fails, what is
    logged for it), and [typing.cleanup()]. So it starts no turn: no memory
    flush, no agent run, no status controller. The session record's [updatedAt] is set to
    the current time, in the active entry and in the in-memory store under
    the session key (and in the durable store when there is a store path and
    the write succeeds), provided the session entry, the session store and
    the session key are all there; otherwise the run state is left as it
    was. *)
Theorem runReplyAgent_enqueues (i : RunInputs) (st : RunState) :
  isActive params = true ->
  shouldFollowup params || bool_decide (queue_mode (resolvedQueue params) = lit "steer")
  = true ->
  shouldSteer params && isStreaming params && steered i && negb (shouldFollowup params)
  = false ->
  result_of (runReplyAgent i st) = ReplyUndefined
  /\ (exists logged : list RunnerEffect,
        (persistedBump i = true -> logged = [])
        /\ Forall (fun e => exists message, e = RuntimeError message) logged
        /\ effects_of (runReplyAgent i st)
           = (if shouldSteer params && isStreaming params
              then [QueueEmbeddedPiMessage (run_sessionId (followupRun st))
                      (prompt (followupRun st))]
              else [])
             ++ EnqueueFollowupRun (queueKey params) (followupRun st) (resolvedQueue params)
             :: match activeSessionEntry st, activeSessionStore st,
                      truthyStr (sessionKey params), truthyStr (storePath params) with
                | Some _, Some _, Some key, Some path =>
                    UpdateSessionStoreEntry path key (nowBump i) :: logged
                | _, _, _, _ => []
                end
             ++ [TypingCleanup])
  /\ match activeSessionEntry st, activeSessionStore st, truthyStr (sessionKey params) with
     | Some entry, Some store, Some key =>
         activeSessionEntry (state_of (runReplyAgent i st))
         = Some (with_updatedAt (nowBump i) entry)
         /\ activeSessionStore (state_of (runReplyAgent i st))
            = Some (<[key:=with_updatedAt (nowBump i) entry]> store)
         /\ durableStore (state_of (runReplyAgent i st))
            = match truthyStr (storePath params) with
              | Some _ =>
                  if persistedBump i
                  then alter (with_updatedAt (nowBump i)) key (durableStore st)
                  else durableStore st
              | None => durableStore st
              end
     | _, _, _ => state_of (runReplyAgent i st) = st
     end.
Proof.
  intros Hactive Hmode Hsteer.
  assert (Hrun : runReplyAgent i st
                 = (ReplyUndefined,
                    state_of (bumpUpdatedAt (nowBump i) (persistedBump i) st),
                    (if shouldSteer params && isStreaming params
                     then [QueueEmbeddedPiMessage (run_sessionId (followupRun st))
                             (prompt (followupRun st))]
                     else [])
                    ++ EnqueueFollowupRun (queueKey params) (followupRun st)
                         (resolvedQueue params)
                    :: effects_of (bumpUpdatedAt (nowBump i) (persistedBump i) st)
                    ++ [TypingCleanup])).
  { unfold runReplyAgent, steerOrEnqueue.
    rewrite Hactive, Hmode. run_prog.
    destruct (shouldSteer params && isStreaming params) eqn:Hs; simpl in *.
    - rewrite Hsteer. simpl.
      destruct (bumpUpdatedAt _ _ st) as [[[] st1] l1]. simpl. by rewrite app_nil_r.
    - destruct (bumpUpdatedAt _ _ st) as [[[] st1] l1]. simpl. by rewrite app_nil_r. }
  rewrite Hrun. unfold result_of, state_of, effects_of. cbn [fst snd].
  split; [done|].
  unfold bumpUpdatedAt, updateSessionStoreEntry. run_prog.
  destruct (activeSessionEntry st) as [entry|];
    destruct (activeSessionStore st) as [store|];
    destruct (truthyStr (sessionKey params)) as [key|]; simpl;
    try (split; [by exists [] | done]).
  destruct (truthyStr (storePath params)) as [path|]; simpl; [|split; [by exists [] | done]].
  destruct (persistedBump i); simpl.
  - split; [by exists [] | done].
  - split; [|done]. eexists [_]. split; [done|]. split; [|done].
    constructor; [by eexists | constructor].
Qed.

Lemma unlinkAll_frame (candidates : list jsstring) (st : RunState) :
  durableStore (state_of (unlinkAll candidates st)) = durableStore st
  /\ activeSessionStore (state_of (unlinkAll candidates st)) = activeSessionStore st
  /\ activeSessionEntry (state_of (unlinkAll candidates st)) = activeSessionEntry st
  /\ arrays (state_of (unlinkAll candidates st)) = arrays st
  /\ statusUpdateContext (state_of (unlinkAll candidates st)) = statusUpdateContext st
  /\ followupRun (state_of (unlinkAll candidates st)) = followupRun st.
Proof.
  revert st. induction candidates as [|c rest IH]; intros st; [done|].
  cbn [unlinkAll]. rewrite !state_bind.
  match goal with
  | |- context [unlinkAll rest ?s] => destruct (IH s) as (-> & -> & -> & -> & -> & ->)
  end.
  unfold state_of, result_of. run_prog. by destruct (unlinkSync c (transcripts st)).
Qed.

(** X17. A reset after a compaction failure keeps the transcripts. In
    every case [resetSessionAfterCompactionFailure] makes no call to
    [fs.unlinkSync] and leaves the transcript files as they are (the
    transcript of the old session is removed only after a role-ordering
    conflict). *)
Theorem compaction_reset_keeps_transcripts
    (reason uuid : jsstring) (now : Z) (persisted : bool) (err : jsstring)
    (st : RunState) :
  transcripts
    (state_of (resetSessionAfterCompactionFailure reason uuid now persisted err st))
  = transcripts st
  /\ unlinkAttempts
       (effects_of (resetSessionAfterCompactionFailure reason uuid now persisted err st))
     = [].
Proof.
  unfold resetSessionAfterCompactionFailure, resetSession, updateSessionStore, unlinkAttempts.
  run_prog.
  destruct (truthyStr (sessionKey params)); [|done].
  destruct (activeSessionStore st) as [store|]; [|done].
  destruct (truthyStr (storePath params)); [|done].
  destruct (from_option _ _ _); [|done].
  by destruct persisted.
Qed.

(** X18. A reset rewrites one session only. Whatever the options,
    [resetSession] leaves the record of every other session key as it is,
    in the store in memory and in the store file, and it touches neither the
    payload arrays nor the status-update context. *)
Theorem resetSession_other_sessions
    (opts : SessionResetOptions) (uuid : jsstring) (now : Z) (persisted : bool)
    (err : jsstring) (st : RunState) (other : jsstring) :
  truthyStr (sessionKey params) <> Some other ->
  durableStore (state_of (resetSession opts uuid now persisted err st)) !! other
  = durableStore st !! other
  /\ (activeSessionStore (state_of (resetSession opts uuid now persisted err st))
      ≫= fun store => store !! other)
     = (activeSessionStore st ≫= fun store => store !! other)
  /\ arrays (state_of (resetSession opts uuid now persisted err st)) = arrays st
  /\ statusUpdateContext (state_of (resetSession opts uuid now persisted err st))
     = statusUpdateContext st.
Proof.
  intros Hne. unfold resetSession, updateSessionStore. run_prog.
  destruct (truthyStr (sessionKey params)) as [key|]; [|done].
  destruct (activeSessionStore st) as [store|] eqn:Hstore; simpl; [|by rewrite Hstore].
  destruct (truthyStr (storePath params)) as [path|]; simpl; [|by rewrite Hstore].
  destruct (from_option _ _ _) as [prev|]; simpl; [|by rewrite Hstore].
  assert (Hk : key <> other) by congruence.
  destruct (truthyStr (if default false (cleanupTranscripts opts) then _ else _)) as [prevId|];
    destruct persisted; simpl;
    try match goal with
        | |- context [unlinkAll ?c ?s] =>
            pose proof (unlinkAll_frame c s) as (Hd & Ha & _ & Hr & Hc & _);
            unfold state_of in *; destruct (unlinkAll c s) as [[[] s'] l']; simpl in *;
            rewrite Hd, Ha, Hr, Hc; simpl
        end;
    rewrite ?lookup_insert_ne by done; done.
Qed.



(** X20. The group intro is injected once. After [injectGroupIntro] has
    run, a second run finds the flag cleared (or the conditions unmet as
    before): it changes nothing and persists nothing. *)
Theorem injectGroupIntro_once
    (now now' : Z) (persisted persisted' : bool) (st : RunState) :
  injectGroupIntro now' persisted' (state_of (injectGroupIntro now persisted st))
  = (tt, state_of (injectGroupIntro now persisted st), []).
Proof.
  unfold injectGroupIntro, updateSessionStoreEntry. run_prog.
  destruct (shouldInjectGroupIntro params) eqn:Hi; simpl; rewrite ?Hi; simpl; [|done].
  destruct (activeSessionEntry st) as [entry|] eqn:He; simpl; rewrite ?Hi, ?He; simpl; [|done].
  destruct (activeSessionStore st) as [store|] eqn:Hs; simpl; rewrite ?Hi, ?He, ?Hs; simpl;
    [|done].
  destruct (truthyStr (sessionKey params)) as [key|] eqn:Hk; simpl;
    rewrite ?Hi, ?He, ?Hs, ?Hk; simpl; [|done].
  destruct (default false (groupActivationNeedsSystemIntro entry)) eqn:Hg; simpl;
    rewrite ?Hi, ?He, ?Hs, ?Hk, ?Hg; simpl; [|done].
  destruct (truthyStr (storePath params)); simpl; [destruct persisted|]; simpl;
    rewrite ?Hi, ?Hk; simpl; done.
Qed.

End RunnerMore.

(** The statement of [runReplyAgent_enqueues] for a message that asks for
    a follow-up while a turn is streaming: the session record is touched at
    time 2. *)
Lemma runReplyAgent_enqueues_witness :
  result_of (demoRunReplyAgent demoParamsFollowup demoInputs demoState) = ReplyUndefined
  /\ effects_of (demoRunReplyAgent demoParamsFollowup demoInputs demoState)
     = [QueueEmbeddedPiMessage (lit "old-session") (lit "hello");
        EnqueueFollowupRun (queueKey demoParamsFollowup) (followupRun demoState)
          (resolvedQueue demoParamsFollowup);
        UpdateSessionStoreEntry (lit "/store.json") (lit "agent:main:42") 2;
        TypingCleanup]
  /\ activeSessionEntry (state_of (demoRunReplyAgent demoParamsFollowup demoInputs demoState))
     = Some (with_updatedAt 2 demoEntry).
Proof.
  destruct (runReplyAgent_enqueues demoAgentId
              (fun st => (activeSessionEntry st, st, []))
              (ret (TurnSuccess (Some 0%nat) false)) (ret tt)
              (fun a => bind (readArray a) newArray) (ret None) (ret None)
              (fun a _ => ret a) demoParamsFollowup demoInputs demoState
              eq_refl eq_refl eq_refl)
    as (Hresult & (logged & Hnone & _ & Heffects) & Hsession).
  split; [exact Hresult|]. split; [|exact (proj1 Hsession)].
  unfold demoRunReplyAgent. rewrite Heffects, (Hnone eq_refl). reflexivity.
Defined.

Lemma resetSession_other_sessions_witness :
  durableStore
    (state_of (resetSessionAfterRoleOrderingConflict demoAgentId demoTranscriptPath
                 demoSessionFilePath demoParams (lit "bad roles") (lit "new-session") 5 true
                 (lit "Error: EACCES") demoTwoSessions))
  !! lit "agent:main:43"
  = durableStore demoTwoSessions !! lit "agent:main:43".
Proof.
  refine (proj1 (resetSession_other_sessions demoAgentId demoTranscriptPath
                   demoSessionFilePath demoParams _ (lit "new-session") 5 true
                   (lit "Error: EACCES") demoTwoSessions (lit "agent:main:43") _)).
  vm_compute. discriminate.
Defined.


(* ===================================================================== *)
(** * The hourglass tracker of telegram/outbound-status.ts *)
(* ===================================================================== *)

Section Hourglass.

(** X21. The tracker recognises the first status line, and only that one.
    A status text rendered by [formatStatusMessage] is taken for an
    hourglass status by [isTelegramHourglassStatusText] exactly when phase
    descriptions are shown and the phase is [sending_query]; the status
    lines of the other phases, and the lines without a phase description,
    are not. *)
Theorem hourglass_text_is_first_phase
    (p : StatusPhase) (elapsedSeconds : Z) (config : ResolvedConfig) :
  isTelegramHourglassStatusText (Some (formatStatusMessage p elapsedSeconds config))
  = showPhases config && bool_decide (p = StatusPhase.sending_query).
Proof.
  unfold isTelegramHourglassStatusText, formatStatusMessage.
  change (lit " ") with [32%N]. change (lit "(") with [40%N].
  change (lit "Processing...")
    with [80; 114; 111; 99; 101; 115; 115; 105; 110; 103; 46; 46; 46]%N.
  destruct (showPhases config); destruct (_ && _); destruct p; reflexivity.
Qed.

Lemma mathTrunc_positive (q : QArith_base.Q) :
  QArith_base.Qle_bool q (QArith_base.inject_Z 0) = false -> 0 <= mathTrunc q.
Proof.
  intros Hq. unfold mathTrunc.
  assert (Hpos : QArith_base.Qlt (QArith_base.inject_Z 0) q).
  { apply QArith_base.Qnot_le_lt. intros Hle.
    apply QArith_base.Qle_bool_iff in Hle. congruence. }
  assert (Hle : QArith_base.Qle (QArith_base.inject_Z 0) q)
    by (by apply QArith_base.Qlt_le_weak).
  apply QArith_base.Qle_bool_iff in Hle as ->.
  rewrite <- (Qround.Qfloor_Z 0). apply Qround.Qfloor_resp_le.
  by apply QArith_base.Qlt_le_weak.
Qed.

Lemma runHourglassCall_nonneg (call : HourglassCall) (m : gmap jsstring Z) :
  map_Forall (fun _ id => 0 <= id) m ->
  map_Forall (fun _ id => 0 <= id) (state_of (runHourglassCall call m))
  /\ Forall (fun d => 0 < d.2) (apiDeletes (effects_of (runHourglassCall call m))).
Proof.
  intros Hm. destruct call as [key [| |q]|hasLog chat key deleted|key];
    unfold runHourglassCall, trackTelegramHourglass, deletePriorTelegramHourglass,
      clearTelegramHourglass, apiDeletes; run_prog; try (split; [done|constructor]).
  - destruct (QArith_base.Qle_bool q _) eqn:Hq; simpl; (split; [|constructor]); [done|].
    apply map_Forall_insert_2; [by apply mathTrunc_positive|done].
  - destruct (m !! key) as [prior|] eqn:Hk; simpl; [|split; [done|constructor]].
    destruct (prior =? 0) eqn:Hz; simpl; [split; [done|constructor]|].
    apply Z.eqb_neq in Hz. pose proof (Hm key prior Hk) as Hp. simpl in Hp.
    destruct hasLog, deleted; simpl;
      (split; [by apply map_Forall_delete|repeat constructor; simpl; lia]).
  - split; [by apply map_Forall_delete|constructor].
Qed.

(** X22. Only real message ids are deleted. Whatever is tracked (also NaN,
    an infinity, a negative or a fractional number), cleared and deleted,
    in any order, starting from the empty tracker, every call to
    [api.deleteMessage] carries a message id that is a positive integer. *)
Theorem hourglass_deletes_positive_ids (calls : list HourglassCall) :
  Forall (fun d => 0 < d.2) (apiDeletes (effects_of (runHourglassCalls calls ∅))).
Proof.
  assert (Hgen : forall m, map_Forall (fun _ id => 0 <= id) m ->
            Forall (fun d => 0 < d.2) (apiDeletes (effects_of (runHourglassCalls calls m)))).
  { induction calls as [|call calls IH]; intros m Hm; simpl; [constructor|].
    rewrite effects_bind. unfold apiDeletes. rewrite omap_app. apply Forall_app.
    destruct (runHourglassCall_nonneg call m Hm) as [Hm' Hd]. split; [done|].
    by apply IH. }
  apply Hgen, map_Forall_empty.
Qed.

(** X23. A tracked hourglass is deleted once. After
    [trackTelegramHourglass(key, id)] with [id] at least 1,
    [deletePriorTelegramHourglass] for the key calls [api.deleteMessage]
    exactly once, with the chat it is given and the integral part of [id];
    the key is forgotten before the call, so that also when the call fails
    a second [deletePriorTelegramHourglass] does nothing at all. *)
Theorem hourglass_deleted_once
    (key chat chat' : jsstring) (q : QArith_base.Q) (hasLog hasLog' deleted deleted' : bool)
    (m : gmap jsstring Z) :
  QArith_base.Qle (QArith_base.inject_Z 1) q ->
  apiDeletes
    (effects_of
       (deletePriorTelegramHourglass hasLog chat key deleted
          (state_of (trackTelegramHourglass key (NumFinite q) m))))
  = [(chat, Qround.Qfloor q)]
  /\ deletePriorTelegramHourglass hasLog' chat' key deleted'
       (state_of
          (deletePriorTelegramHourglass hasLog chat key deleted
             (state_of (trackTelegramHourglass key (NumFinite q) m))))
     = (tt,
        state_of
          (deletePriorTelegramHourglass hasLog chat key deleted
             (state_of (trackTelegramHourglass key (NumFinite q) m))),
        []).
Proof.
  intros Hq.
  assert (H0 : QArith_base.Qle_bool q (QArith_base.inject_Z 0) = false).
  { destruct (QArith_base.Qle_bool q _) eqn:Hb; [|done].
    apply QArith_base.Qle_bool_iff in Hb.
    pose proof (QArith_base.Qle_trans _ _ _ Hq Hb) as Habs.
    unfold QArith_base.Qle in Habs. simpl in Habs. lia. }
  assert (Ht : mathTrunc q = Qround.Qfloor q).
  { unfold mathTrunc.
    assert (Hle : QArith_base.Qle (QArith_base.inject_Z 0) q).
    { eapply QArith_base.Qle_trans; [|exact Hq].
      unfold QArith_base.Qle. simpl. lia. }
    by apply QArith_base.Qle_bool_iff in Hle as ->. }
  assert (H1 : 1 <= Qround.Qfloor q).
  { rewrite <- (Qround.Qfloor_Z 1). by apply Qround.Qfloor_resp_le. }
  unfold trackTelegramHourglass, deletePriorTelegramHourglass, apiDeletes. run_prog.
  rewrite H0. simpl. rewrite lookup_insert_eq, Ht.
  assert (Hz : (Qround.Qfloor q =? 0) = false) by (apply Z.eqb_neq; lia).
  rewrite Hz. simpl.
  destruct hasLog, deleted; simpl; rewrite ?lookup_delete_eq; done.
Qed.

Lemma lit_inj (s1 s2 : string) : lit s1 = lit s2 -> s1 = s2.
Proof.
  intros H.
  change (N_of_ascii <$> list_ascii_of_string s1 = N_of_ascii <$> list_ascii_of_string s2) in H.
  assert (Hinj : Inj (=) (=) N_of_ascii).
  { intros a b Hab. by rewrite <- (ascii_N_embedding a), <- (ascii_N_embedding b), Hab. }
  apply (inj (fmap N_of_ascii)) in H.
  by rewrite <- (string_of_list_ascii_of_string s1), <- (string_of_list_ascii_of_string s2), H.
Qed.

Lemma to_int_parses (z : Z) :
  NilZero.int_of_string (NilZero.string_of_int (Z.to_int z)) = Some (Z.to_int z).
Proof.
  apply NilZero.isi; destruct z as [|p|p]; simpl; try discriminate;
    intros [= Hp]; by apply (DecimalPos.Unsigned.to_uint_nonnil p).
Qed.

Lemma numToString_inj (a b : Z) : numToString a = numToString b -> a = b.
Proof.
  unfold numToString. intros H%lit_inj.
  assert (Hi : Some (Z.to_int a) = Some (Z.to_int b)).
  { by rewrite <- (to_int_parses a), <- (to_int_parses b), H. }
  simplify_eq. by rewrite <- (DecimalZ.of_to a), <- (DecimalZ.of_to b), Hi.
Qed.

Lemma split_at_bar (a b c d : jsstring) :
  124%N ∉ a -> 124%N ∉ c -> a ++ 124%N :: b = c ++ 124%N :: d -> a = c /\ b = d.
Proof.
  revert c. induction a as [|x a IH]; intros [|y c] Ha Hc H; simpl in *.
  - by simplify_eq.
  - simplify_eq. destruct Hc. apply list_elem_of_here.
  - simplify_eq. destruct Ha. apply list_elem_of_here.
  - simplify_eq. destruct (IH c) as [-> ->]; [|  |done|done].
    + intros ?. apply Ha. by apply list_elem_of_further.
    + intros ?. apply Hc. by apply list_elem_of_further.
Qed.

Lemma numToString_nonempty (z : Z) : numToString z <> [].
Proof.
  intros H. change [] with (lit "") in H. apply lit_inj in H.
  pose proof (to_int_parses z) as Hi. rewrite H in Hi. discriminate Hi.
Qed.

(** X24. Hourglass keys do not collide. For chat ids that hold no "|",
    [buildTelegramHourglassKey] gives the same key only for the same chat
    and the same thread (or no thread on both sides): a status message
    tracked for one conversation is never deleted on behalf of another. *)
Theorem buildTelegramHourglassKey_injective
    (chat1 chat2 : jsstring) (thread1 thread2 : option Z) :
  124%N ∉ chat1 ->
  124%N ∉ chat2 ->
  buildTelegramHourglassKey chat1 thread1 = buildTelegramHourglassKey chat2 thread2 ->
  chat1 = chat2 /\ thread1 = thread2.
Proof.
  unfold buildTelegramHourglassKey. change (lit "|") with [124%N]. simpl.
  intros H1 H2 H. apply split_at_bar in H as [-> Ht]; [|done..]. split; [done|].
  destruct thread1 as [a|], thread2 as [b|]; try done.
  - by apply numToString_inj in Ht as ->.
  - by apply numToString_nonempty in Ht.
  - symmetry in Ht. by apply numToString_nonempty in Ht.
Qed.

End Hourglass.

Lemma hourglass_deleted_once_witness :
  apiDeletes
    (effects_of
       (deletePriorTelegramHourglass true (lit "42") (lit "42|") false
          (state_of (trackTelegramHourglass (lit "42|")
                       (NumFinite (QArith_base.Qmake 15 2)) ∅))))
  = [(lit "42", Qround.Qfloor (QArith_base.Qmake 15 2))].
Proof.
  refine (proj1 (hourglass_deleted_once (lit "42|") (lit "42") (lit "42")
                   (QArith_base.Qmake 15 2) true true false false ∅ _)).
  unfold QArith_base.Qle. simpl. lia.
Defined.

Lemma buildTelegramHourglassKey_injective_witness :
  lit "42" = lit "42" /\ Some 7 = Some 7.
Proof.
  apply (buildTelegramHourglassKey_injective (lit "42") (lit "42") (Some 7) (Some 7)).
  - vm_compute. intros H. by repeat (apply elem_of_cons in H as [H|H]; [done|]);
      apply elem_of_nil in H.
  - vm_compute. intros H. by repeat (apply elem_of_cons in H as [H|H]; [done|]);
      apply elem_of_nil in H.
  - reflexivity.
Defined.


(* ===================================================================== *)
(** * Slack actions and the deletion of a status message *)
(* ===================================================================== *)

Section SlackFacts.

Variable resolveSlackBotToken : option jsstring -> option jsstring.
Variable envToken : option jsstring.
Variable cfgToken : option jsstring.

Local Abbreviation resolveToken := (resolveToken resolveSlackBotToken envToken cfgToken).
Local Abbreviation reactSlackMessage :=
  (reactSlackMessage resolveSlackBotToken envToken cfgToken).
Local Abbreviation deleteSlackMessage :=
  (deleteSlackMessage resolveSlackBotToken envToken cfgToken).
Local Abbreviation deleteStatusMessage :=
  (deleteStatusMessage resolveSlackBotToken envToken cfgToken).

Lemma dropLeadingColons_head (s : jsstring) : head (dropLeadingColons s) <> Some 58%N.
Proof.
  induction s as [|c r IH]; simpl; [done|].
  destruct (c =? 58)%N eqn:Hc; [done|]. simpl. apply N.eqb_neq in Hc. congruence.
Qed.

Lemma dropTrailingColons_last (s : jsstring) : last (dropTrailingColons s) <> Some 58%N.
Proof.
  induction s as [|c r IH]; simpl; [done|].
  destruct (dropTrailingColons r) as [|c' r'] eqn:Hr.
  - destruct (c =? 58)%N eqn:Hc; simpl; [done|]. apply N.eqb_neq in Hc. congruence.
  - by rewrite last_cons_cons.
Qed.

Lemma dropTrailingColons_head (s : jsstring) :
  head s <> Some 58%N -> head (dropTrailingColons s) <> Some 58%N.
Proof.
  destruct s as [|c r]; simpl; [done|]. intros Hc.
  destruct (dropTrailingColons r); [|done].
  destruct (c =? 58)%N; done.
Qed.

(** X25. A Slack reaction is added only with a token and an emoji name. 
    [reactSlackMessage] calls [reactions.add] at most once, and only when a
    bot token resolves and the emoji is not blank; the name it sends is the
    trimmed emoji without the colons around it, so it neither starts nor
    ends with a colon. Without a token, or with a blank emoji, the error is
    raised before any call is made. *)
Theorem reactSlackMessage_call
    (channelId messageId emoji : jsstring) (token : option jsstring) (ok : bool)
    (call : SlackCall) :
  call ∈ (reactSlackMessage channelId messageId emoji token ok).2 ->
  (reactSlackMessage channelId messageId emoji token ok).2 = [call]
  /\ (exists resolved, resolveToken token = inr resolved)
  /\ trim emoji <> []
  /\ exists name,
       call = ReactionsAdd channelId messageId name
       /\ head name <> Some 58%N
       /\ last name <> Some 58%N.
Proof.
  unfold reactSlackMessage, normalizeEmoji.
  destruct (resolveToken token) as [e|resolved]; simpl; [by intros ?%elem_of_nil|].
  destruct (trim emoji) as [|c r] eqn:Ht; cbn -[dropLeadingColons dropTrailingColons];
    [by intros ?%elem_of_nil|].
  intros Hc%list_elem_of_singleton. subst call.
  split; [done|]. split; [by eexists|]. split; [done|].
  eexists. split; [reflexivity|]. split.
  - apply dropTrailingColons_head, dropLeadingColons_head.
  - apply dropTrailingColons_last.
Qed.

(** X26. Deleting a status message is best effort. [deleteStatusMessage]
    makes at most one delete call to a platform, and it returns true exactly
    when that call was made and went through; it makes no call for a channel
    other than telegram, discord and slack, and none for slack when no bot
    token resolves: the error of the missing token is caught like any
    other. *)
Theorem deleteStatusMessage_best_effort (channel to messageId : jsstring) (ok : bool) :
  (length (platformDeletes (deleteStatusMessage channel to messageId ok).2) <= 1)%nat
  /\ ((deleteStatusMessage channel to messageId ok).1 = true
      <-> exists e, platformDeletes (deleteStatusMessage channel to messageId ok).2 = [e]
                    /\ deleteSucceeded e = true)
  /\ (channel <> lit "telegram" -> channel <> lit "discord" ->
      (channel <> lit "slack" \/ resolveToken None = inl SlackTokenRequired) ->
      platformDeletes (deleteStatusMessage channel to messageId ok).2 = []).
Proof.
  unfold deleteStatusMessage, deleteSlackMessage, platformDeletes.
  destruct (bool_decide (channel = lit "telegram")) eqn:Ht.
  { apply bool_decide_eq_true in Ht. destruct ok; simpl.
    - split; [lia|]. split; [|done]. split; [by eexists|done].
    - split; [lia|]. split; [|done]. split; [done|]. by intros (e & [= <-] & ?). }
  destruct (bool_decide (channel = lit "discord")) eqn:Hd.
  { apply bool_decide_eq_true in Hd. destruct ok; simpl.
    - split; [lia|]. split; [|done]. split; [by eexists|done].
    - split; [lia|]. split; [|done]. split; [done|]. by intros (e & [= <-] & ?). }
  destruct (bool_decide (channel = lit "slack")) eqn:Hs.
  { apply bool_decide_eq_true in Hs.
    destruct (resolveToken None) as [e|resolved] eqn:Hr; simpl.
    - split; [lia|]. split; [|done]. split; [done|]. by intros (e' & ? & ?).
    - destruct ok; simpl.
      + split; [lia|]. split; [split; [by eexists|done]|].
        intros _ _ [?|?]; done.
      + split; [lia|]. split; [split; [done|by intros (e' & [= <-] & ?)]|].
        intros _ _ [?|?]; done. }
  simpl. split; [lia|]. split; [|done]. split; [done|]. by intros (e' & ? & ?).
Qed.

End SlackFacts.

(* ===================================================================== *)
(** * Hints for sensitive configuration fields *)
(* ===================================================================== *)

Section ConfigHints.

Lemma applySensitiveHints_lookup (hints : gmap jsstring ConfigUiHint) (key : jsstring) :
  applySensitiveHints hints !! key
  = (fun hint => if isSensitivePath key then with_sensitive hint else hint) <$> hints !! key.
Proof.
  unfold applySensitiveHints. rewrite map_lookup_imap. by destruct (hints !! key).
Qed.

(** X27. Marking sensitive fields. [applySensitiveHints] keeps the set of
    paths; it sets [sensitive] on the hint of every path that
    [isSensitivePath] accepts and changes nothing else in it; it leaves the
    other hints as they are; and applying it twice is the same as applying
    it once. *)
Theorem applySensitiveHints_marks (hints : gmap jsstring ConfigUiHint) :
  dom (applySensitiveHints hints) = dom hints
  /\ (forall key hint,
        hints !! key = Some hint ->
        applySensitiveHints hints !! key
        = Some (if isSensitivePath key then with_sensitive hint else hint))
  /\ applySensitiveHints (applySensitiveHints hints) = applySensitiveHints hints.
Proof.
  split; [|split].
  - apply set_eq. intros key. rewrite !elem_of_dom, applySensitiveHints_lookup.
    by rewrite fmap_is_Some.
  - intros key hint H. by rewrite applySensitiveHints_lookup, H.
  - apply map_eq. intros key. rewrite !applySensitiveHints_lookup.
    destruct (hints !! key) as [hint|]; [|done]. simpl.
    by destruct (isSensitivePath key).
Qed.

Lemma testAnywhere_app_l (here : jsstring -> bool) (pre s : jsstring) :
  testAnywhere here s = true -> testAnywhere here (pre ++ s) = true.
Proof.
  intros H. induction pre as [|c pre IH]; [done|].
  simpl. rewrite IH. apply orb_true_r.
Qed.

Lemma testAnywhere_app_r (here : jsstring -> bool) (s post : jsstring) :
  (forall t, here t = true -> here (t ++ post) = true) ->
  testAnywhere here s = true -> testAnywhere here (s ++ post) = true.
Proof.
  intros Hmono. induction s as [|c s IH]; simpl.
  - rewrite orb_false_r. intros H. apply (Hmono []) in H. simpl in H.
    destruct post; simpl; by rewrite H.
  - intros [H|H]%orb_true_iff.
    + apply (Hmono (c :: s)) in H. simpl in H. by rewrite H.
    + rewrite IH by done. apply orb_true_r.
Qed.

Lemma matchesHere_app (pattern : string) (s post : jsstring) :
  matchesHere pattern s = true -> matchesHere pattern (s ++ post) = true.
Proof.
  unfold matchesHere. intros H%bool_decide_eq_true. apply bool_decide_eq_true.
  assert (Hlen : (length (lit pattern) <= length s)%nat).
  { apply (f_equal length) in H. rewrite !length_fmap, length_take in H. lia. }
  by rewrite take_app_le.
Qed.

Lemma matchesApiKeyHere_app (s post : jsstring) :
  matchesApiKeyHere s = true -> matchesApiKeyHere (s ++ post) = true.
Proof.
  unfold matchesApiKeyHere.
  intros [Hapi Hkey]%andb_true_iff. rewrite (matchesHere_app _ _ _ Hapi). simpl.
  assert (Hlen : (3 <= length s)%nat).
  { unfold matchesHere in Hapi. apply bool_decide_eq_true in Hapi.
    apply (f_equal length) in Hapi. rewrite !length_fmap, length_take in Hapi.
    change (length (lit "api")) with 3%nat in Hapi. lia. }
  rewrite drop_app_le by done.
  apply orb_true_iff in Hkey as [Hkey|Hkey].
  - by rewrite (matchesHere_app _ _ _ Hkey).
  - destruct (drop 3 s) as [|c r]; [done|]. simpl.
    apply andb_true_iff in Hkey as [-> Hkey]. rewrite (matchesHere_app _ _ _ Hkey).
    apply orb_true_r.
Qed.

(** X28. Everything under a sensitive name is sensitive. When
    [isSensitivePath] accepts a path it accepts every path that contains it:
    a longer path through it, a prefixed one, a nested field below it. (The
    patterns are not anchored.) *)
Theorem isSensitivePath_containing (pre path post : jsstring) :
  isSensitivePath path = true -> isSensitivePath (pre ++ path ++ post) = true.
Proof.
  unfold isSensitivePath.
  intros H. repeat (apply orb_true_iff in H as [H|H]).
  - erewrite testAnywhere_app_l; [done|].
    apply testAnywhere_app_r; [intros t; apply matchesHere_app|done].
  - erewrite (testAnywhere_app_l (matchesHere "password")); [by rewrite orb_true_r|].
    apply testAnywhere_app_r; [intros t; apply matchesHere_app|done].
  - erewrite (testAnywhere_app_l (matchesHere "secret")); [by rewrite !orb_true_r|].
    apply testAnywhere_app_r; [intros t; apply matchesHere_app|done].
  - erewrite (testAnywhere_app_l matchesApiKeyHere); [by rewrite !orb_true_r|].
    apply testAnywhere_app_r; [intros t; apply matchesApiKeyHere_app|done].
Qed.

End ConfigHints.

Lemma reactSlackMessage_call_witness :
  (reactSlackMessage (fun raw => raw) None None (lit "C1") (lit "1712.5") (lit " :smile: ")
     (Some (lit "xoxb-1")) true).2
  = [ReactionsAdd (lit "C1") (lit "1712.5") (lit "smile")].
Proof.
  refine (proj1 (reactSlackMessage_call (fun raw => raw) None None (lit "C1") (lit "1712.5")
                   (lit " :smile: ") (Some (lit "xoxb-1")) true
                   (ReactionsAdd (lit "C1") (lit "1712.5") (lit "smile")) _)).
  vm_compute. apply list_elem_of_here.
Defined.

Lemma deleteStatusMessage_best_effort_witness :
  platformDeletes
    (deleteStatusMessage (fun raw => raw) None None (lit "slack") (lit "C1") (lit "1712.5")
       true).2
  = [].
Proof.
  refine (proj2 (proj2 (deleteStatusMessage_best_effort (fun raw => raw) None None
                          (lit "slack") (lit "C1") (lit "1712.5") true)) _ _ _).
  - vm_compute. discriminate.
  - vm_compute. discriminate.
  - right. reflexivity.
Defined.

Lemma applySensitiveHints_marks_witness :
  applySensitiveHints {[ lit "slack.botToken" := demoHint ]} !! lit "slack.botToken"
  = Some (if isSensitivePath (lit "slack.botToken") then with_sensitive demoHint
          else demoHint).
Proof.
  refine (proj1 (proj2 (applySensitiveHints_marks {[ lit "slack.botToken" := demoHint ]}))
            (lit "slack.botToken") demoHint _).
  apply lookup_singleton_eq.
Defined.

Lemma isSensitivePath_containing_witness :
  isSensitivePath (lit "channels." ++ lit "botToken" ++ lit ".value") = true.
Proof. apply isSensitivePath_containing. vm_compute. reflexivity. Defined.
